(** * Immich MCP server: API client, upload pipeline and tool adapters

    A shallow embedding of the TypeScript sources

      - the API client (class [ImmichApiClient]: cache, HTTP verbs,
        [uploadAsset], [validateConnection]),
      - the albums tool ([AlbumsTool.handleTool] and its nine handlers),
      - the assets tool ([AssetsTool.uploadAssets] on arguments of the
        declared shape, and the seven other handlers),
      - the search tool ([SearchTool.getTools], [SearchTool.handleTool] and
        its five handlers),
      - the zod schemas of [schemas/mcp-schemas.ts] those handlers parse with,

    followed by the properties of the specification proved about them.

    JavaScript values are an inductive type, objects are association lists in
    property enumeration order, exceptions are an explicit error result and
    the mutable client (cache) together with the outside world (clock, file
    system, remote service) is threaded through a state-and-exception monad.
    Logging calls have no effect on any result and are left out. *)

From Stdlib Require Import ZArith List String Ascii Bool Lia.
From stdpp Require Import base option list strings pretty gmap.

#[local] Set Warnings "-register-all,-clear-no-such-hyp".

Local Open Scope string_scope.
Local Open Scope Z_scope.
Local Open Scope list_scope.

(** ** JavaScript values *)

Module Js.

(** Numbers are restricted to the integers: every number the modelled code
    handles is a count, a page index, a status code or a millisecond clock.
    [VNum n] stands for the JavaScript number [n] where [n] is a safe integer
    ([|n| < 2^53]); those are the integers a number holds exactly and, being
    below [10^21], the ones [ToString] and [JSON.stringify] print in plain
    decimal notation, as [to_string] and [stringify] below do. *)
Inductive value : Type :=
| VUndefined
| VNull
| VBool (b : bool)
| VNum (n : Z)
| VStr (s : string)
| VArr (elems : list value)
| VObj (props : list (string * value)).

(** ToBoolean. *)
Definition truthy (v : value) : bool :=
  match v with
  | VUndefined | VNull => false
  | VBool b => b
  | VNum n => negb (n =? 0)%Z
  | VStr s => negb (String.eqb s "")
  | VArr _ | VObj _ => true
  end.

(** [a || b]. *)
Definition or (a b : value) : value := if truthy a then a else b.

(** [s || d] where [s] is an optional string ([undefined] when absent). *)
Definition of_opt (o : option string) : value :=
  match o with Some s => VStr s | None => VUndefined end.

Definition str_or (o : option string) (d : string) : string :=
  match o with
  | Some s => if String.eqb s "" then d else s
  | None => d
  end.

(** Own-property lookup in an object literal / parsed JSON object. *)
Fixpoint lookup_prop (k : string) (props : list (string * value)) : value :=
  match props with
  | [] => VUndefined
  | (k', v) :: rest => if String.eqb k k' then v else lookup_prop k rest
  end.

(** [v?.k]: property access that yields [undefined] on a nullish receiver.
    Primitives and arrays have none of the property names the modelled code
    reads ([id], [status], [message], [error], [albumName], [count], ...). *)
Definition get_opt (v : value) (k : string) : value :=
  match v with
  | VObj props => lookup_prop k props
  | _ => VUndefined
  end.

(** [k in o] for an object of own properties. *)
Definition has_prop (k : string) (props : list (string * value)) : bool :=
  existsb (fun kv => String.eqb k (fst kv)) props.

Definition nullish (v : value) : bool :=
  match v with VUndefined | VNull => true | _ => false end.

(** Assignment [o[k] = v] on an association list: an existing key keeps its
    position, a new key is appended. *)
Fixpoint set_prop (k : string) (v : value) (props : list (string * value))
  : list (string * value) :=
  match props with
  | [] => [(k, v)]
  | (k', v') :: rest =>
      if String.eqb k k' then (k, v) :: rest else (k', v') :: set_prop k v rest
  end.

(** *** ToString, as applied by template literals *)

Fixpoint join (sep : string) (l : list string) : string :=
  match l with
  | [] => ""
  | [x] => x
  | x :: rest => x +:+ sep +:+ join sep rest
  end.

Fixpoint to_string (v : value) : string :=
  match v with
  | VUndefined => "undefined"
  | VNull => "null"
  | VBool true => "true"
  | VBool false => "false"
  | VNum n => pretty n
  | VStr s => s
  | VArr elems =>
      join "," (map (fun e => if nullish e then "" else to_string e) elems)
  | VObj _ => "[object Object]"
  end.

(** *** JSON.stringify *)

Definition hex_digit (n : N) : ascii :=
  match n with
  | 0 => "0" | 1 => "1" | 2 => "2" | 3 => "3" | 4 => "4" | 5 => "5"
  | 6 => "6" | 7 => "7" | 8 => "8" | 9 => "9" | 10 => "a" | 11 => "b"
  | 12 => "c" | 13 => "d" | 14 => "e" | _ => "f"
  end%N%char.

(** The one-character string holding a double quote (code unit 34). *)
Definition dquote : string := String (ascii_of_N 34) EmptyString.

(** QuoteJSONString on one code unit. *)
Definition escape_char (c : ascii) : string :=
  let n := N_of_ascii c in
  if (n =? 34)%N then "\" +:+ dquote
  else if (n =? 92)%N then "\\"
  else if (n =? 8)%N then "\b"
  else if (n =? 12)%N then "\f"
  else if (n =? 10)%N then "\n"
  else if (n =? 13)%N then "\r"
  else if (n =? 9)%N then "\t"
  else if (n <? 32)%N then
    "\u00" +:+ String (hex_digit (n / 16)) (String (hex_digit (n mod 16)) "")
  else String c "".

Fixpoint escape (s : string) : string :=
  match s with
  | EmptyString => ""
  | String c rest => escape_char c +:+ escape rest
  end.

Definition quote (s : string) : string := dquote +:+ escape s +:+ dquote.

(** [None] is the [undefined] that [JSON.stringify(undefined)] returns.
    Inside an array [undefined] prints as [null]; inside an object a property
    whose value is [undefined] is skipped. *)
Fixpoint stringify (v : value) : option string :=
  match v with
  | VUndefined => None
  | VNull => Some "null"
  | VBool true => Some "true"
  | VBool false => Some "false"
  | VNum n => Some (pretty n)
  | VStr s => Some (quote s)
  | VArr elems =>
      Some ("[" +:+ join "," (map (fun e => default "null" (stringify e)) elems)
                +:+ "]")
  | VObj props =>
      let member (kv : string * value) : list string :=
        match stringify (snd kv) with
        | Some s => [quote (fst kv) +:+ ":" +:+ s]
        | None => []
        end in
      Some ("{" +:+ join "," (flat_map member props) +:+ "}")
  end.

End Js.

Import Js.

(** ** Exceptions and results *)

(** [ImmichApiError] of client.ts: the normalized error the response
    interceptor rejects with.  [message] is whatever truthy value the remote
    body carried, else the transport's message, hence a JavaScript value. *)
Record ImmichApiError : Type := {
  message : value;
  statusCode : Z;
  error : value;
}.

(** What the modelled code can throw. *)
Inductive exn : Type :=
| JsError (msg : string)            (* [new Error(msg)] *)
| TypeError (msg : string)          (* raised by the engine *)
| ZodError (msg : string)           (* [Schema.parse] failed; first issue *)
| ApiError (e : ImmichApiError).    (* rejected by the response interceptor *)

(** [error.message] as read in a [catch (error: any)] block. *)
Definition exn_message (x : exn) : value :=
  match x with
  | JsError m | TypeError m | ZodError m => VStr m
  | ApiError e => message e
  end.

Inductive Result (A : Type) : Type :=
| Ok (a : A)
| Throw (x : exn).
Arguments Ok {A} a.
Arguments Throw {A} x.

Definition is_ok {A} (r : Result A) : bool :=
  match r with Ok _ => true | Throw _ => false end.

(** [v.k] on a value that may be nullish (V8's TypeError text). *)
Definition get_prop (v : value) (k : string) : Result value :=
  match v with
  | VUndefined =>
      Throw (TypeError ("Cannot read properties of undefined (reading '" +:+ k +:+ "')"))
  | VNull =>
      Throw (TypeError ("Cannot read properties of null (reading '" +:+ k +:+ "')"))
  | _ => Ok (get_opt v k)
  end.

(** ** Requests and the outside world *)

Inductive Method : Type := GET | POST | PUT | PATCH | DELETE.

(** The multipart form [uploadAsset] builds: the file stream (named by the
    absolute path it reads and the file name it is sent under) and the four
    metadata fields. *)
Record UploadForm : Type := {
  assetData : string;
  assetFilename : string;
  deviceAssetId : string;
  deviceId : string;
  fileCreatedAt : string;
  fileModifiedAt : string;
}.

Inductive Body : Type :=
| NoBody
| JsonBody (v : value)
| FormBody (f : UploadForm).

(** One call on the axios instance.  The static [X-API-Key] header, the base
    URL and the timeout are the same on every request and are not recorded. *)
Record Request : Type := {
  req_method : Method;
  req_url : string;
  req_params : value;
  req_body : Body;
}.

(** What the network gives back: a response with a status and a decoded body,
    or no response at all (connection refused, timeout, ...). *)
Inductive HttpOutcome : Type :=
| Responded (status : Z) (data : value)
| NoResponse (msg : string).

Record Stats : Type := { birthtime : Z; mtime : Z }.

(** The platform the server runs on, as a state machine over an abstract
    environment [E]: the clock, the file system, the path and string built-ins
    of Node, and the remote service behind the HTTP stack.  A request may
    change anything in the environment (time passes, the remote mutates). *)
Class Platform (E : Type) : Type := {
  now : E -> Z;                                   (* Date.now() *)
  existsSync : E -> string -> bool;               (* fs.existsSync *)
  statSync : E -> string -> Result Stats;         (* fs.statSync *)
  path_resolve : E -> string -> string;           (* path.resolve *)
  path_basename : string -> string;               (* path.basename *)
  toISOString : Z -> string;                      (* Date.prototype.toISOString *)
  toLowerCase : string -> string;                 (* String.prototype.toLowerCase *)
  http : E -> Request -> HttpOutcome * E;         (* one network exchange *)
}.

(** Configuration values read from [utils/config.js]. *)
Record Config : Type := {
  IMMICH_INSTANCE_URL : string;
  IMMICH_API_KEY : string;
  CACHE_TTL : Z;
}.

Record CacheEntry : Type := { data : value; timestamp : Z }.

(** The fields of [ImmichApiClient] that change or are read after
    construction. *)
Record ImmichApiClient : Type := {
  cache : gmap string CacheEntry;
  cacheTtl : Z;
}.

(** The constructor: the TTL in milliseconds and an empty cache. *)
Definition new_client (config : Config) : ImmichApiClient :=
  {| cache := ∅; cacheTtl := CACHE_TTL config * 1000 |}.

(** The whole state a tool invocation runs in.  [trace] is ghost state: the
    requests handed to the network so far, oldest first. *)
Record World (E : Type) : Type := {
  env : E;
  api : ImmichApiClient;
  trace : list Request;
}.
Arguments env {E} w.
Arguments api {E} w.
Arguments trace {E} w.

(** ** The state-and-exception monad *)

Definition M (E A : Type) : Type := World E -> Result A * World E.

Definition ret {E A} (a : A) : M E A := fun w => (Ok a, w).

Definition throw {E A} (x : exn) : M E A := fun w => (Throw x, w).

Definition bind {E A B} (m : M E A) (k : A -> M E B) : M E B :=
  fun w =>
    match m w with
    | (Ok a, w') => k a w'
    | (Throw x, w') => (Throw x, w')
    end.

(** [try { m } catch (error) { h error }]. *)
Definition try_catch {E A} (m : M E A) (h : exn -> M E A) : M E A :=
  fun w =>
    match m w with
    | (Ok a, w') => (Ok a, w')
    | (Throw x, w') => h x w'
    end.

(** A pure computation that may throw. *)
Definition lift {E A} (r : Result A) : M E A := fun w => (r, w).

Notation "x <~ m ; k" := (bind m (fun x => k))
  (at level 20, m at level 100, k at level 200, only parsing).

(** ** client.ts: [ImmichApiClient] *)

Module Client.

(** The error axios rejects with: its own message and, when the remote
    answered, the response (status and decoded body). *)
Record AxiosError : Type := {
  ax_message : string;
  ax_response : option (Z * value);
}.

(** axios' default [validateStatus]. *)
Definition validateStatus (status : Z) : bool :=
  (200 <=? status) && (status <? 300).

(** The rejection handler installed by [interceptors.response.use]. *)
Definition response_error_interceptor (err : AxiosError) : ImmichApiError :=
  let response_data :=
    match ax_response err with Some (_, d) => d | None => VUndefined end in
  let response_status :=
    match ax_response err with Some (s, _) => VNum s | None => VUndefined end in
  {| message :=
       Js.or (Js.or (get_opt response_data "message") (VStr (ax_message err)))
             (VStr "Unknown Immich API error");
     statusCode :=
       match Js.or response_status (VNum 500) with VNum s => s | _ => 500 end;
     error := get_opt response_data "error" |}.

Definition UploadOptions : Type :=
  option string * option string * option string * option string.

Section WithPlatform.
Context {E : Type} `{!Platform E}.

(** *** Primitive effects *)

Definition date_now : M E Z := fun w => (Ok (now (env w)), w).

Definition this_cacheTtl : M E Z := fun w => (Ok (cacheTtl (api w)), w).

Definition cache_get (key : string) : M E (option CacheEntry) :=
  fun w => (Ok (cache (api w) !! key), w).

Definition update_cache (f : gmap string CacheEntry -> gmap string CacheEntry)
  : M E unit :=
  fun w =>
    (Ok tt, {| env := env w;
               api := {| cache := f (cache (api w));
                         cacheTtl := cacheTtl (api w) |};
               trace := trace w |}).

Definition cache_set (key : string) (entry : CacheEntry) : M E unit :=
  update_cache (insert key entry).

Definition cache_delete (key : string) : M E unit :=
  update_cache (base.delete key).

(** One call on the axios instance, through both interceptors: the request is
    handed to the network once; a response with a 2xx status resolves to its
    body, anything else is rejected with the normalized error. *)
Definition request (req : Request) : M E value :=
  fun w =>
    let '(outcome, e') := http (env w) req in
    let w' := {| env := e'; api := api w; trace := trace w ++ [req] |} in
    match outcome with
    | Responded status d =>
        if validateStatus status then (Ok d, w')
        else
          (Throw (ApiError (response_error_interceptor
             {| ax_message := "Request failed with status code " +:+ pretty status;
                ax_response := Some (status, d) |})), w')
    | NoResponse msg =>
        (Throw (ApiError (response_error_interceptor
           {| ax_message := msg; ax_response := None |})), w')
    end.

(** *** The cache *)

Definition isCacheValid (timestamp : Z) : M E bool :=
  t <~ date_now;
  ttl <~ this_cacheTtl;
  ret (t - timestamp <? ttl).

Definition getFromCache (key : string) : M E value :=
  cached <~ cache_get key;
  match cached with
  | Some c =>
      valid <~ isCacheValid (timestamp c);
      if valid then ret (data c)
      else (_ <~ cache_delete key; ret VNull)
  | None => ret VNull
  end.

Definition setCache (key : string) (d : value) : M E unit :=
  t <~ date_now;
  cache_set key {| data := d; timestamp := t |}.

Definition clearCache : M E unit := update_cache (fun _ => ∅).

(** *** The HTTP verbs *)

(** [`GET:${endpoint}:${JSON.stringify(params || {})}`]. *)
Definition cacheKey (endpoint : string) (params : value) : string :=
  "GET:" +:+ endpoint +:+ ":"
    +:+ default "undefined" (stringify (Js.or params (VObj []))).

Definition get (endpoint : string) (params : value) (useCache : bool)
  : M E value :=
  let key := cacheKey endpoint params in
  hit <~ (if useCache then
            cached <~ getFromCache key;
            ret (if truthy cached then Some cached else None)
          else ret None);
  match hit with
  | Some cached => ret cached
  | None =>
      d <~ request {| req_method := GET; req_url := endpoint;
                      req_params := params; req_body := NoBody |};
      _ <~ (if useCache then setCache key d else ret tt);
      ret d
  end.

Definition send (m : Method) (endpoint : string) (d : value) : M E value :=
  request {| req_method := m; req_url := endpoint;
             req_params := VUndefined; req_body := JsonBody d |}.

Definition post := send POST.
Definition put := send PUT.
Definition patch := send PATCH.
Definition delete := send DELETE.

(** *** [uploadAsset] *)

Definition uploadAsset (filePath : string) (options : option UploadOptions)
  : M E value :=
  absolutePath <~ (fun w => (Ok (path_resolve (env w) filePath), w));
  present <~ (fun w => (Ok (existsSync (env w) absolutePath), w));
  if negb present then throw (JsError ("File not found: " +:+ absolutePath))
  else
    stats <~ (fun w => (statSync (env w) absolutePath, w));
    let filename := path_basename absolutePath in
    t <~ date_now;
    let '(o_deviceAssetId, o_deviceId, o_fileCreatedAt, o_fileModifiedAt) :=
      match options with
      | Some o => o
      | None => (None, None, None, None)
      end in
    let form :=
      {| assetData := absolutePath;
         assetFilename := filename;
         deviceAssetId := str_or o_deviceAssetId (filename +:+ "-" +:+ pretty t);
         deviceId := str_or o_deviceId "mcp-server";
         fileCreatedAt := str_or o_fileCreatedAt (toISOString (birthtime stats));
         fileModifiedAt := str_or o_fileModifiedAt (toISOString (mtime stats)) |} in
    request {| req_method := POST; req_url := "/api/assets";
               req_params := VUndefined; req_body := FormBody form |}.

(** *** [validateConnection] *)

Definition endpoints : list string :=
  [ "/api/users/me"; "/api/server/info"; "/api/server-info";
    "/api/server/version"; "/api/server-info/version" ].

(** The [for] loop over the candidate endpoints: [true] when an iteration
    returned, [false] when the loop ran to its end. *)
Fixpoint probe (candidates : list string) : M E bool :=
  match candidates with
  | [] => ret false
  | endpoint :: rest =>
      try_catch (_ <~ get endpoint VUndefined false; ret true)
                (fun _ => probe rest)
  end.

Definition validateConnection : M E bool :=
  try_catch
    (found <~ probe endpoints;
     if found then ret true
     else
       try_catch
         (_ <~ request {| req_method := GET; req_url := "/api";
                          req_params := VUndefined; req_body := NoBody |};
          ret true)
         (fun _ => ret false))
    (fun _ => ret false).

End WithPlatform.
End Client.

(** ** schemas/mcp-schemas.ts: the zod schemas *)

Module Zod.

(** The zod combinators the schema file uses.  A lower bound on a string's
    or an array's length comes with the message the schema file gives it:
    [z.string().min(1, 'Album ID is required')] is
    [string_ (Some (1%nat, "Album ID is required"))], and [z.string()] is
    [string_ None]. *)
Inductive schema : Type :=
| string_ (min : option (nat * string))       (* z.string() / .min(n, msg) *)
| boolean_                                    (* z.boolean() *)
| number_ (min : option Z) (max : option Z)   (* z.number().min(..).max(..) *)
| enum_ (values : list string)                (* z.enum([...]) *)
| array_ (elem : schema) (min : option (nat * string))
                                              (* z.array(elem) / .min(n, msg) *)
| optional_ (s : schema)                      (* s.optional() *)
| default_ (s : schema) (d : value).          (* s.default(d) *)

(** [z.object({...})]: the fields in declaration order. *)
Definition shape : Type := list (string * schema).

Definition typeof (v : value) : string :=
  match v with
  | VUndefined => "undefined"
  | VNull => "null"
  | VBool _ => "boolean"
  | VNum _ => "number"
  | VStr _ => "string"
  | VArr _ => "array"
  | VObj _ => "object"
  end.

(** A failed parse throws a [ZodError] that lists every issue found.  The
    model stops at the first issue, in declaration order of the fields, and
    [ZodError] carries that issue's message: the one the schema file gives
    where it gives one, zod's own wording (version 3) otherwise.  Whether a
    parse fails, and that nothing else happens when it does, does not depend
    on the wording. *)
Definition invalid_type {A} (expected : string) (v : value) : Result A :=
  Throw (ZodError
    match v with
    | VUndefined => "Required"
    | _ => "Expected " +:+ expected +:+ ", received " +:+ typeof v
    end).

(** The alternatives of an enum as zod prints them: ['A' | 'B']. *)
Definition one_of (values : list string) : string :=
  join " | " (map (fun x => "'" +:+ x +:+ "'") values).

(** Parsing one value against a schema; the result is the parsed output. *)
Fixpoint parse_value (s : schema) (v : value) : Result value :=
  match s with
  | string_ min =>
      match v with
      | VStr x =>
          match min with
          | Some (n, message) =>
              if (String.length x <? n)%nat then Throw (ZodError message)
              else Ok v
          | None => Ok v
          end
      | _ => invalid_type "string" v
      end
  | boolean_ =>
      match v with
      | VBool _ => Ok v
      | _ => invalid_type "boolean" v
      end
  | number_ min max =>
      match v with
      | VNum n =>
          let below :=
            match min with
            | Some lo => if n <? lo then Some lo else None
            | None => None
            end in
          let above :=
            match max with
            | Some hi => if hi <? n then Some hi else None
            | None => None
            end in
          match below, above with
          | Some lo, _ =>
              Throw (ZodError ("Number must be greater than or equal to "
                                 +:+ pretty lo))
          | None, Some hi =>
              Throw (ZodError ("Number must be less than or equal to "
                                 +:+ pretty hi))
          | None, None => Ok v
          end
      | _ => invalid_type "number" v
      end
  | enum_ values =>
      match v with
      | VStr x =>
          if existsb (String.eqb x) values then Ok v
          else Throw (ZodError ("Invalid enum value. Expected " +:+ one_of values
                                  +:+ ", received '" +:+ x +:+ "'"))
      | _ => invalid_type (one_of values) v
      end
  | array_ elem min =>
      match v with
      | VArr items =>
          let fix each (l : list value) : Result (list value) :=
            match l with
            | [] => Ok []
            | x :: rest =>
                match parse_value elem x, each rest with
                | Ok y, Ok ys => Ok (y :: ys)
                | Throw e, _ => Throw e
                | _, Throw e => Throw e
                end
            end in
          match min with
          | Some (n, message) =>
              if (length items <? n)%nat then Throw (ZodError message)
              else
                match each items with
                | Ok parsed => Ok (VArr parsed)
                | Throw e => Throw e
                end
          | None =>
              match each items with
              | Ok parsed => Ok (VArr parsed)
              | Throw e => Throw e
              end
          end
      | _ => invalid_type "array" v
      end
  | optional_ inner =>
      match v with
      | VUndefined => Ok VUndefined
      | _ => parse_value inner v
      end
  | default_ inner d =>
      match v with
      | VUndefined => parse_value inner d
      | _ => parse_value inner v
      end
  end.

(** The fields of a [z.object]: each declared key is parsed from the input's
    property of that name; keys the schema does not declare are stripped.  A
    declared key is set in the result when its output is defined or when the
    input has the key (be it with the value [undefined]). *)
Fixpoint parse_fields (sh : shape) (props : list (string * value))
  : Result (list (string * value)) :=
  match sh with
  | [] => Ok []
  | (k, s) :: rest =>
      match parse_value s (lookup_prop k props), parse_fields rest props with
      | Ok VUndefined, Ok out =>
          if has_prop k props then Ok ((k, VUndefined) :: out) else Ok out
      | Ok v, Ok out => Ok ((k, v) :: out)
      | Throw e, _ => Throw e
      | _, Throw e => Throw e
      end
  end.

(** [Schema.parse(args)]. *)
Definition parse (sh : shape) (args : value) : Result value :=
  match args with
  | VObj props =>
      match parse_fields sh props with
      | Ok out => Ok (VObj out)
      | Throw e => Throw e
      end
  | _ => invalid_type "object" args
  end.

Definition CheckAssetsInAlbumInputSchema : shape :=
  [ ("albumId", string_ (Some (1%nat, "Album ID is required")));
    ("assetIds", array_ (string_ None)
                       (Some (1%nat, "At least one asset ID is required"))) ].

Definition SearchInputSchema : shape :=
  [ ("q", optional_ (string_ None));
    ("query", optional_ (string_ None));
    ("clip", optional_ boolean_);
    ("type", optional_ (enum_ ["ASSET"; "PERSON"; "PLACE"; "ALBUM"]));
    ("isFavorite", optional_ boolean_);
    ("isArchived", optional_ boolean_);
    ("size", default_ (number_ (Some 1) (Some 1000)) (VNum 250));
    ("page", default_ (number_ (Some 1) None) (VNum 1));
    ("withStacked", optional_ boolean_);
    ("withArchived", optional_ boolean_) ].

Definition SmartSearchInputSchema : shape :=
  [ ("query", string_ (Some (1%nat, "Search query is required")));
    ("city", optional_ (string_ None));
    ("state", optional_ (string_ None));
    ("country", optional_ (string_ None));
    ("make", optional_ (string_ None));
    ("model", optional_ (string_ None));
    ("lensModel", optional_ (string_ None));
    ("type", optional_ (enum_ ["IMAGE"; "VIDEO"]));
    ("isFavorite", optional_ boolean_);
    ("isArchived", optional_ boolean_);
    ("size", default_ (number_ (Some 1) (Some 1000)) (VNum 250));
    ("page", default_ (number_ (Some 1) None) (VNum 1)) ].

(** The remaining schemas of the albums and assets tools. *)
Definition ListAlbumsInputSchema : shape :=
  [ ("shared", optional_ boolean_);
    ("assetId", optional_ (string_ None)) ].

Definition CreateAlbumInputSchema : shape :=
  [ ("albumName", string_ (Some (1%nat, "Album name is required")));
    ("description", optional_ (string_ None));
    ("assetIds", optional_ (array_ (string_ None) None)) ].

Definition UpdateAlbumInputSchema : shape :=
  [ ("albumId", string_ (Some (1%nat, "Album ID is required")));
    ("albumName", optional_ (string_ None));
    ("description", optional_ (string_ None)) ].

Definition DeleteAlbumInputSchema : shape :=
  [ ("albumId", string_ (Some (1%nat, "Album ID is required"))) ].

Definition AddAssetsToAlbumInputSchema : shape :=
  [ ("albumId", string_ (Some (1%nat, "Album ID is required")));
    ("assetIds", array_ (string_ None)
                       (Some (1%nat, "At least one asset ID is required"))) ].

Definition GetAlbumSummaryInputSchema : shape :=
  [ ("albumId", string_ (Some (1%nat, "Album ID is required"))) ].

Definition ListAssetsInputSchema : shape :=
  [ ("page", default_ (number_ (Some 1) None) (VNum 1));
    ("size", default_ (number_ (Some 1) (Some 1000)) (VNum 250));
    ("userId", optional_ (string_ None));
    ("isFavorite", optional_ boolean_);
    ("isArchived", optional_ boolean_);
    ("withStacked", optional_ boolean_);
    ("withPartners", optional_ boolean_) ].

Definition GetAssetInputSchema : shape :=
  [ ("assetId", string_ (Some (1%nat, "Asset ID is required")));
    ("key", optional_ (string_ None)) ].

Definition UpdateAssetInputSchema : shape :=
  [ ("assetId", string_ (Some (1%nat, "Asset ID is required")));
    ("isFavorite", optional_ boolean_);
    ("isArchived", optional_ boolean_);
    ("description", optional_ (string_ None)) ].

Definition DeleteAssetInputSchema : shape :=
  [ ("assetId", string_ (Some (1%nat, "Asset ID is required"))) ].

Definition BulkUpdateAssetsInputSchema : shape :=
  [ ("assetIds", array_ (string_ None)
                       (Some (1%nat, "At least one asset ID is required")));
    ("isFavorite", optional_ boolean_);
    ("isArchived", optional_ boolean_);
    ("removeParent", optional_ boolean_);
    ("stackParentId", optional_ (string_ None)) ].

End Zod.

(** ** tools/albums-tool.ts: [AlbumsTool.checkAssetsInAlbum] *)

Module AlbumsTool.

(** The returned object; [results] is the map of the own properties of the
    object literal the loop fills. *)
Record CheckResult : Type := {
  albumId : value;
  results : gmap string bool;
  memberCount : Z;
  nonMemberCount : Z;
}.

(** The strings of a parsed [z.array(z.string())]. *)
Definition strings_of (v : value) : list string :=
  match v with
  | VArr items =>
      flat_map (fun x => match x with VStr s => [s] | _ => [] end) items
  | _ => []
  end.

(** [album.assets?.map(a => a.id) || []]. *)
Definition asset_ids (album : value) : Result (list value) :=
  match get_prop album "assets" with
  | Throw e => Throw e
  | Ok VUndefined | Ok VNull => Ok []
  | Ok (VArr assets) =>
      (fix ids (l : list value) : Result (list value) :=
         match l with
         | [] => Ok []
         | a :: rest =>
             match get_prop a "id", ids rest with
             | Ok i, Ok others => Ok (i :: others)
             | Throw e, _ => Throw e
             | _, Throw e => Throw e
             end
         end) assets
  | Ok _ => Throw (TypeError "album.assets?.map is not a function")
  end.

(** [new Set(ids).has(assetId)] for a string [assetId]: SameValueZero only
    relates a string to an equal string. *)
Definition Set_has (ids : list value) (assetId : string) : bool :=
  existsb (fun v => match v with
                    | VStr s => String.eqb assetId s
                    | _ => false
                    end) ids.

(** [results[assetId] = isMember] on the object literal [results], seen as
    the map of its own properties.  The assignment creates or overwrites an
    own property for every key but [__proto__]: that key reaches the accessor
    inherited from [Object.prototype], whose setter ignores a value that is
    neither an object nor [null], so no property is created. *)
Definition assign (assetId : string) (isMember : bool)
    (results : gmap string bool) : gmap string bool :=
  if String.eqb assetId "__proto__" then results
  else <[assetId := isMember]> results.

(** The [for] loop over [input.assetIds], threading the three locals. *)
Fixpoint check_each (albumAssetIds : list value) (assetIds : list string)
    (acc : gmap string bool * Z * Z) : gmap string bool * Z * Z :=
  match assetIds with
  | [] => acc
  | assetId :: rest =>
      let '(results, memberCount, nonMemberCount) := acc in
      let isMember := Set_has albumAssetIds assetId in
      let results := assign assetId isMember results in
      check_each albumAssetIds rest
        (if isMember then (results, memberCount + 1, nonMemberCount)
         else (results, memberCount, nonMemberCount + 1))
  end.

Section WithPlatform.
Context {E : Type} `{!Platform E}.

Definition checkAssetsInAlbum (args : value) : M E CheckResult :=
  input <~ lift (Zod.parse Zod.CheckAssetsInAlbumInputSchema args);
  album <~ Client.get ("/api/albums/" +:+ to_string (get_opt input "albumId"))
                      VUndefined true;
  albumAssetIds <~ lift (asset_ids album);
  let '(results, memberCount, nonMemberCount) :=
    check_each albumAssetIds (strings_of (get_opt input "assetIds")) (∅, 0, 0) in
  ret {| albumId := get_opt input "albumId";
         results := results;
         memberCount := memberCount;
         nonMemberCount := nonMemberCount |}.

End WithPlatform.
End AlbumsTool.

(** ** tools/assets-tool.ts: [AssetsTool] *)

Module AssetsTool.

(** One entry of [uploaded] and of [failed].  The fields of a failed entry
    are [filePath] and [error] in the source; they are renamed here because
    [filePath] and [error] already name fields of other records. *)
Record Uploaded : Type := {
  filePath : string;
  assetId : value;
  status : value;
}.

Record Failed : Type := {
  failedPath : string;
  failedError : value;
}.

(** The arguments of [assets_upload], typed as its catalog entry declares
    them: an array of strings and two optional strings.  The handler itself
    accepts any [args] and parses no schema; what it does outside this shape
    is not modelled (a [filePaths] that cannot be iterated makes the [for]
    loop throw a [TypeError] out of the handler, an array element or an album
    argument that is not a string takes other paths through [path.resolve]
    and the string methods), and every property of [uploadAssets] below is a
    property of its runs on arguments of the declared shape. *)
Record UploadArgs : Type := {
  filePaths : list string;
  albumId : option string;
  albumName : option string;
}.

(** The returned object; [resultAlbumId] is its [albumId] field. *)
Record UploadResult : Type := {
  success : bool;
  uploaded : list Uploaded;
  failed : list Failed;
  resultAlbumId : value;
}.

(** The catalog entry of [assets_get_random]: an optional [count] between 1
    and 100. *)
Definition assets_get_random_inputSchema : Zod.shape :=
  [ ("count", Zod.optional_ (Zod.number_ (Some 1) (Some 100))) ].

Section WithPlatform.
Context {E : Type} `{!Platform E}.

(** [albums.find(a => a.albumName.toLowerCase() === albumName.toLowerCase())]
    on the elements of the array. *)
Fixpoint find_album (albums : list value) (albumName : string) : Result value :=
  match albums with
  | [] => Ok VUndefined
  | a :: rest =>
      match get_prop a "albumName" with
      | Throw e => Throw e
      | Ok (VStr name) =>
          if String.eqb (toLowerCase name) (toLowerCase albumName) then Ok a
          else find_album rest albumName
      | Ok VUndefined =>
          Throw (TypeError "Cannot read properties of undefined (reading 'toLowerCase')")
      | Ok VNull =>
          Throw (TypeError "Cannot read properties of null (reading 'toLowerCase')")
      | Ok _ => Throw (TypeError "a.albumName.toLowerCase is not a function")
      end
  end.

Definition find (albums : value) (albumName : string) : Result value :=
  match albums with
  | VArr elems => find_album elems albumName
  | VUndefined =>
      Throw (TypeError "Cannot read properties of undefined (reading 'find')")
  | VNull =>
      Throw (TypeError "Cannot read properties of null (reading 'find')")
  | _ => Throw (TypeError "albums.find is not a function")
  end.

(** One iteration of the upload loop: the [try] pushes onto [uploaded], the
    [catch] pushes onto [failed]. *)
Definition upload_one (path : string) (acc : list Uploaded * list Failed)
  : M E (list Uploaded * list Failed) :=
  try_catch
    (result <~ Client.uploadAsset path None;
     id <~ lift (get_prop result "id");
     st <~ lift (get_prop result "status");
     ret (fst acc ++ [ {| filePath := path; assetId := id;
                          status := Js.or st (VStr "created") |} ],
          snd acc))
    (fun error =>
       let errorMessage := Js.or (exn_message error) (VStr "Unknown error") in
       ret (fst acc,
            snd acc ++ [ {| failedPath := path;
                            failedError := errorMessage |} ])).

(** [for (const filePath of filePaths) { ... }]. *)
Fixpoint upload_each (paths : list string) (acc : list Uploaded * list Failed)
  : M E (list Uploaded * list Failed) :=
  match paths with
  | [] => ret acc
  | path :: rest =>
      acc' <~ upload_one path acc;
      upload_each rest acc'
  end.

(** The body of [if (!albumId && albumName) { ... }]: the value assigned to
    [targetAlbumId], or a throw before any assignment. *)
Definition find_or_create (albumName : string) : M E value :=
  albums <~ Client.get "/api/albums" VUndefined true;
  existingAlbum <~ lift (find albums albumName);
  if truthy existingAlbum then lift (get_prop existingAlbum "id")
  else
    newAlbum <~ Client.post "/api/albums" (VObj [("albumName", VStr albumName)]);
    lift (get_prop newAlbum "id").

(** The [try { ... } catch { }] around album resolution and attachment,
    returning the value [targetAlbumId] holds afterwards.  The variable is
    assigned before [put] is called, so a failed [put] leaves the resolved
    identifier in it, while a failure during resolution leaves it at its
    initial value [albumId]. *)
Definition attach_to_album (albumId albumName : value)
    (uploaded : list Uploaded) : M E value :=
  try_catch
    (targetAlbumId <~
       match albumName with
       | VStr name =>
           if negb (truthy albumId) && truthy albumName
           then find_or_create name
           else ret albumId
       | _ => ret albumId
       end;
     let assetIds := map assetId uploaded in
     try_catch
       (_ <~ Client.put ("/api/albums/" +:+ to_string targetAlbumId +:+ "/assets")
                        (VObj [("ids", VArr assetIds)]);
        ret targetAlbumId)
       (fun _ => ret targetAlbumId))
    (fun _ => ret albumId).

Definition uploadAssets (args : UploadArgs) : M E UploadResult :=
  let albumId := of_opt (albumId args) in
  let albumName := of_opt (albumName args) in
  outcomes <~ upload_each (filePaths args) ([], []);
  let '(uploaded, failed) := outcomes in
  targetAlbumId <~
    (if truthy (Js.or albumId albumName) && (0 <? length uploaded)%nat
     then attach_to_album albumId albumName uploaded
     else ret albumId);
  ret {| success := (length failed =? 0)%nat;
         uploaded := uploaded;
         failed := failed;
         resultAlbumId := targetAlbumId |}.

(** The two handlers that read [args] without a schema. *)
Definition getAssetStatistics (args : value) : M E value :=
  isArchived <~ lift (get_prop args "isArchived");
  let params := [] in
  let params :=
    match isArchived with
    | VUndefined => params
    | _ => set_prop "isArchived" isArchived params
    end in
  isFavorite <~ lift (get_prop args "isFavorite");
  let params :=
    match isFavorite with
    | VUndefined => params
    | _ => set_prop "isFavorite" isFavorite params
    end in
  Client.get "/api/assets/statistics" (VObj params) true.

Definition getRandomAssets (args : value) : M E value :=
  c <~ lift (get_prop args "count");
  let count := Js.or c (VNum 1) in
  let params := VObj [("count", count)] in
  Client.get "/api/assets/random" params true.

End WithPlatform.
End AssetsTool.

(** ** tools/search-tool.ts: [SearchTool] *)

Module SearchTool.

(** [if (src.k) params.k = src.k;] *)
Definition copy_truthy (src : value) (k : string)
    (params : list (string * value)) : list (string * value) :=
  if truthy (get_opt src k) then set_prop k (get_opt src k) params else params.

(** [if (src.k !== undefined) params.k = src.k;] *)
Definition copy_defined (src : value) (k : string)
    (params : list (string * value)) : list (string * value) :=
  match get_opt src k with
  | VUndefined => params
  | v => set_prop k v params
  end.

(** A destructuring default: [{ k = d } = args]. *)
Definition with_default (v d : value) : value :=
  match v with VUndefined => d | _ => v end.

(** The published catalog [getTools()]: each tool's name with its declared
    [inputSchema].  A JSON-schema property is optional unless listed under
    [required]; its [type], [enum], [minimum] and [maximum] constrain the
    value when present, and [default] constrains nothing. *)
Definition getTools : list (string * Zod.shape) :=
  let str := Zod.optional_ (Zod.string_ None) in
  let flag := Zod.optional_ Zod.boolean_ in
  let size := Zod.optional_ (Zod.number_ (Some 1) (Some 1000)) in
  let page := Zod.optional_ (Zod.number_ (Some 1) None) in
  [ ("search_general",
      [ ("q", str); ("query", str); ("clip", flag);
        ("type", Zod.optional_ (Zod.enum_ ["ASSET"; "PERSON"; "PLACE"; "ALBUM"]));
        ("isFavorite", flag); ("isArchived", flag);
        ("size", size); ("page", page);
        ("withStacked", flag); ("withArchived", flag) ]);
    ("search_smart",
      [ ("query", Zod.string_ None);
        ("city", str); ("state", str); ("country", str);
        ("make", str); ("model", str); ("lensModel", str);
        ("type", Zod.optional_ (Zod.enum_ ["IMAGE"; "VIDEO"]));
        ("isFavorite", flag); ("isArchived", flag);
        ("size", size); ("page", page) ]);
    ("search_metadata",
      [ ("city", str); ("state", str); ("country", str);
        ("make", str); ("model", str); ("lensModel", str);
        ("type", Zod.optional_ (Zod.enum_ ["IMAGE"; "VIDEO"]));
        ("withArchived", flag);
        ("size", size); ("page", page) ]);
    ("search_explore", []);
    ("search_by_filename",
      [ ("filename", Zod.string_ None); ("size", size); ("page", page) ]) ].

(** The declared input shape of a tool of the catalog. *)
Definition inputSchema (name : string) : option Zod.shape :=
  snd <$> List.find (fun t => String.eqb name (fst t)) getTools.

Section WithPlatform.
Context {E : Type} `{!Platform E}.

Definition generalSearch (args : value) : M E value :=
  input <~ lift (Zod.parse Zod.SearchInputSchema args);
  let params := [ ("page", get_opt input "page");
                  ("size", get_opt input "size") ] in
  let params := copy_truthy input "q" params in
  let params := copy_truthy input "query" params in
  let params := copy_defined input "clip" params in
  let params := copy_truthy input "type" params in
  let params := copy_defined input "isFavorite" params in
  let params := copy_defined input "isArchived" params in
  let params := copy_defined input "withStacked" params in
  let params := copy_defined input "withArchived" params in
  Client.get "/api/search" (VObj params) true.

Definition smartSearch (args : value) : M E value :=
  input <~ lift (Zod.parse Zod.SmartSearchInputSchema args);
  let params := [ ("query", get_opt input "query");
                  ("page", get_opt input "page");
                  ("size", get_opt input "size") ] in
  let params := copy_truthy input "city" params in
  let params := copy_truthy input "state" params in
  let params := copy_truthy input "country" params in
  let params := copy_truthy input "make" params in
  let params := copy_truthy input "model" params in
  let params := copy_truthy input "lensModel" params in
  let params := copy_truthy input "type" params in
  let params := copy_defined input "isFavorite" params in
  let params := copy_defined input "isArchived" params in
  Client.get "/api/search/smart" (VObj params) true.

(** No schema is parsed here: the fields are read off [args] as they are. *)
Definition metadataSearch (args : value) : M E value :=
  page <~ lift (get_prop args "page");
  let params := [ ("page", Js.or page (VNum 1));
                  ("size", Js.or (get_opt args "size") (VNum 250)) ] in
  let params := copy_truthy args "city" params in
  let params := copy_truthy args "state" params in
  let params := copy_truthy args "country" params in
  let params := copy_truthy args "make" params in
  let params := copy_truthy args "model" params in
  let params := copy_truthy args "lensModel" params in
  let params := copy_truthy args "type" params in
  let params := copy_defined args "withArchived" params in
  Client.get "/api/search/metadata" (VObj params) true.

Definition exploreSearch (args : value) : M E value :=
  Client.get "/api/search/explore" args true.

Definition filenameSearch (args : value) : M E value :=
  if nullish args
  then throw (TypeError ("Cannot destructure property 'filename' of 'args' as it is "
                           +:+ to_string args +:+ "."))
  else
    let filename := get_opt args "filename" in
    let page := with_default (get_opt args "page") (VNum 1) in
    let size := with_default (get_opt args "size") (VNum 250) in
    let searchPayload := VObj [ ("originalFileName", filename);
                                ("page", page);
                                ("size", size) ] in
    Client.post "/api/search/metadata" searchPayload.

(** The dispatcher; its [catch] logs and rethrows the same error. *)
Definition handleTool (name : string) (args : value) : M E value :=
  try_catch
    (if String.eqb name "search_general" then generalSearch args
     else if String.eqb name "search_smart" then smartSearch args
     else if String.eqb name "search_metadata" then metadataSearch args
     else if String.eqb name "search_explore" then exploreSearch args
     else if String.eqb name "search_by_filename" then filenameSearch args
     else throw (JsError ("Unknown search tool: " +:+ name)))
    (fun error => throw error).

End WithPlatform.
End SearchTool.

(** ** tools/albums-tool.ts: the other handlers and the dispatcher *)

Module AlbumsHandlers.

(** What [handleTool] resolves to: the object a handler built or passed on,
    or the membership report of [checkAssetsInAlbum]. *)
Inductive ToolResult : Type :=
| Returned (v : value)
| Checked (r : AlbumsTool.CheckResult).

(** [v?.length ?? 0]: the [length] of an array or a string, an object's own
    [length] property, and 0 when the receiver or the property is nullish. *)
Definition length_or_zero (v : value) : value :=
  match v with
  | VArr items => VNum (Z.of_nat (length items))
  | VStr s => VNum (Z.of_nat (String.length s))
  | VObj props =>
      if nullish (lookup_prop "length" props) then VNum 0
      else lookup_prop "length" props
  | _ => VNum 0
  end.

(** The tool names of the published catalog [getTools()]. *)
Definition tool_names : list string :=
  [ "albums_list"; "albums_create"; "albums_get"; "albums_update";
    "albums_delete"; "albums_add_assets"; "albums_remove_assets";
    "albums_get_summary"; "albums_check_assets" ].

Section WithPlatform.
Context {E : Type} `{!Platform E}.

Definition listAlbums (args : value) : M E value :=
  input <~ lift (Zod.parse Zod.ListAlbumsInputSchema args);
  let params := [] in
  let params := SearchTool.copy_defined input "shared" params in
  let params := SearchTool.copy_truthy input "assetId" params in
  Client.get "/api/albums" (VObj params) true.

Definition createAlbum (args : value) : M E value :=
  input <~ lift (Zod.parse Zod.CreateAlbumInputSchema args);
  let albumData :=
    VObj [ ("albumName", get_opt input "albumName");
           ("description", Js.or (get_opt input "description") (VStr ""));
           ("assetIds", Js.or (get_opt input "assetIds") (VArr [])) ] in
  Client.post "/api/albums" albumData.

Definition getAlbum (args : value) : M E value :=
  albumId <~ lift (get_prop args "albumId");
  if negb (truthy albumId) then throw (JsError "Album ID is required")
  else Client.get ("/api/albums/" +:+ to_string albumId) VUndefined true.

Definition updateAlbum (args : value) : M E value :=
  input <~ lift (Zod.parse Zod.UpdateAlbumInputSchema args);
  let updateData := [] in
  let updateData := SearchTool.copy_truthy input "albumName" updateData in
  let updateData := SearchTool.copy_defined input "description" updateData in
  Client.patch ("/api/albums/" +:+ to_string (get_opt input "albumId"))
               (VObj updateData).

Definition deleteAlbum (args : value) : M E value :=
  input <~ lift (Zod.parse Zod.DeleteAlbumInputSchema args);
  _ <~ Client.delete ("/api/albums/" +:+ to_string (get_opt input "albumId"))
                     VUndefined;
  ret (VObj [ ("success", VBool true);
              ("message", VStr ("Album " +:+ to_string (get_opt input "albumId")
                                  +:+ " deleted successfully")) ]).

Definition addAssetsToAlbum (args : value) : M E value :=
  input <~ lift (Zod.parse Zod.AddAssetsToAlbumInputSchema args);
  let requestData := VObj [ ("ids", get_opt input "assetIds") ] in
  Client.put ("/api/albums/" +:+ to_string (get_opt input "albumId") +:+ "/assets")
             requestData.

Definition removeAssetsFromAlbum (args : value) : M E value :=
  input <~ lift (Zod.parse Zod.AddAssetsToAlbumInputSchema args);
  let requestData := VObj [ ("ids", get_opt input "assetIds") ] in
  Client.delete
    ("/api/albums/" +:+ to_string (get_opt input "albumId") +:+ "/assets")
    requestData.

Definition getAlbumSummary (args : value) : M E value :=
  input <~ lift (Zod.parse Zod.GetAlbumSummaryInputSchema args);
  album <~ Client.get ("/api/albums/" +:+ to_string (get_opt input "albumId"))
                      VUndefined true;
  id <~ lift (get_prop album "id");
  ret (VObj [ ("id", id);
              ("albumName", get_opt album "albumName");
              ("description", Js.or (get_opt album "description") (VStr ""));
              ("assetCount", Js.or (get_opt album "assetCount")
                                   (length_or_zero (get_opt album "assets")));
              ("startDate", Js.or (get_opt album "startDate") VNull);
              ("endDate", Js.or (get_opt album "endDate") VNull);
              ("createdAt", get_opt album "createdAt");
              ("updatedAt", get_opt album "updatedAt");
              ("ownerId", get_opt album "ownerId");
              ("shared", Js.or (get_opt album "shared") (VBool false)) ]).

(** The dispatcher; its [catch] logs and rethrows the same error. *)
Definition handleTool (name : string) (args : value) : M E ToolResult :=
  let returned (m : M E value) : M E ToolResult := v <~ m; ret (Returned v) in
  try_catch
    (if String.eqb name "albums_list" then returned (listAlbums args)
     else if String.eqb name "albums_create" then returned (createAlbum args)
     else if String.eqb name "albums_get" then returned (getAlbum args)
     else if String.eqb name "albums_update" then returned (updateAlbum args)
     else if String.eqb name "albums_delete" then returned (deleteAlbum args)
     else if String.eqb name "albums_add_assets"
       then returned (addAssetsToAlbum args)
     else if String.eqb name "albums_remove_assets"
       then returned (removeAssetsFromAlbum args)
     else if String.eqb name "albums_get_summary"
       then returned (getAlbumSummary args)
     else if String.eqb name "albums_check_assets"
       then r <~ AlbumsTool.checkAssetsInAlbum args; ret (Checked r)
     else throw (JsError ("Unknown albums tool: " +:+ name)))
    (fun error => throw error).

End WithPlatform.
End AlbumsHandlers.

(** ** tools/assets-tool.ts: the handlers that parse a schema *)

Module AssetsHandlers.

Section WithPlatform.
Context {E : Type} `{!Platform E}.

Definition listAssets (args : value) : M E value :=
  input <~ lift (Zod.parse Zod.ListAssetsInputSchema args);
  let params := [ ("page", get_opt input "page");
                  ("size", get_opt input "size") ] in
  let params := SearchTool.copy_truthy input "userId" params in
  let params := SearchTool.copy_defined input "isFavorite" params in
  let params := SearchTool.copy_defined input "isArchived" params in
  let params := SearchTool.copy_defined input "withStacked" params in
  let params := SearchTool.copy_defined input "withPartners" params in
  Client.get "/api/assets" (VObj params) true.

Definition getAsset (args : value) : M E value :=
  input <~ lift (Zod.parse Zod.GetAssetInputSchema args);
  let params := [] in
  let params := SearchTool.copy_truthy input "key" params in
  Client.get ("/api/assets/" +:+ to_string (get_opt input "assetId"))
             (VObj params) true.

Definition updateAsset (args : value) : M E value :=
  input <~ lift (Zod.parse Zod.UpdateAssetInputSchema args);
  let updateData := [] in
  let updateData := SearchTool.copy_defined input "isFavorite" updateData in
  let updateData := SearchTool.copy_defined input "isArchived" updateData in
  let updateData := SearchTool.copy_defined input "description" updateData in
  Client.put ("/api/assets/" +:+ to_string (get_opt input "assetId"))
             (VObj updateData).

Definition deleteAsset (args : value) : M E value :=
  input <~ lift (Zod.parse Zod.DeleteAssetInputSchema args);
  _ <~ Client.delete ("/api/assets/" +:+ to_string (get_opt input "assetId"))
                     VUndefined;
  ret (VObj [ ("success", VBool true);
              ("message", VStr ("Asset " +:+ to_string (get_opt input "assetId")
                                  +:+ " deleted successfully")) ]).

Definition bulkUpdateAssets (args : value) : M E value :=
  input <~ lift (Zod.parse Zod.BulkUpdateAssetsInputSchema args);
  let updateData := [ ("ids", get_opt input "assetIds") ] in
  let updateData := SearchTool.copy_defined input "isFavorite" updateData in
  let updateData := SearchTool.copy_defined input "isArchived" updateData in
  let updateData := SearchTool.copy_defined input "removeParent" updateData in
  let updateData := SearchTool.copy_truthy input "stackParentId" updateData in
  _ <~ Client.put "/api/assets" (VObj updateData);
  (* [input.assetIds.length]: the parsed [assetIds] is always an array *)
  let count := AlbumsHandlers.length_or_zero (get_opt input "assetIds") in
  ret (VObj [ ("success", VBool true);
              ("message", VStr (to_string count +:+ " assets updated successfully"));
              ("updatedCount", count) ]).

End WithPlatform.
End AssetsHandlers.

(** ** A stand-in platform for closed examples

    A deterministic platform on which the closed examples below are run: a
    millisecond clock that advances by one on every network exchange, a fixed
    set of existing files, ASCII-only case folding and a remote whose answer
    is a function of the request alone. *)

Module Sim.

Record Env : Type := {
  clock : Z;
  files : list string;
  respond : Request -> HttpOutcome;
}.

Definition lower_char (c : ascii) : ascii :=
  let n := N_of_ascii c in
  if ((65 <=? n) && (n <=? 90))%N then ascii_of_N (n + 32) else c.

Fixpoint lower (s : string) : string :=
  match s with
  | EmptyString => EmptyString
  | String c rest => String (lower_char c) (lower rest)
  end.

Fixpoint has_slash (s : string) : bool :=
  match s with
  | EmptyString => false
  | String c rest => Ascii.eqb c "/" || has_slash rest
  end.

Fixpoint basename (s : string) : string :=
  match s with
  | EmptyString => EmptyString
  | String c rest => if has_slash rest then basename rest else
                     if Ascii.eqb c "/" then rest else s
  end.

Definition resolve (p : string) : string :=
  match p with
  | String "/" _ => p
  | _ => "/srv/" +:+ p
  end.

#[global] Instance platform : Platform Env := {|
  now e := clock e;
  existsSync e p := existsb (String.eqb p) (files e);
  statSync e p :=
    if existsb (String.eqb p) (files e)
    then Ok {| birthtime := 0; mtime := 0 |}
    else Throw (JsError ("ENOENT: no such file or directory, stat '" +:+ p +:+ "'"));
  path_resolve _ p := resolve p;
  path_basename := basename;
  toISOString t := pretty t;
  toLowerCase := lower;
  http e req :=
    (respond e req,
     {| clock := clock e + 1; files := files e; respond := respond e |});
|}.

Definition not_found : HttpOutcome :=
  Responded 404 (VObj [("message", VStr "not found")]).

Definition album (id name : string) : value :=
  VObj [("id", VStr id); ("albumName", VStr name)].

(** A remote holding the given albums: uploads are accepted, the album list
    is served, an album can be created, assets can be attached to any album,
    and every other route answers 404. *)
Definition immich (albums : list value) (req : Request) : HttpOutcome :=
  match req_method req, req_body req with
  | POST, FormBody f =>
      Responded 201 (VObj [("id", VStr ("asset:" +:+ assetFilename f));
                           ("status", VStr "created")])
  | POST, JsonBody d =>
      if String.eqb (req_url req) "/api/albums"
      then Responded 201
             (VObj [("id", VStr ("album:" +:+ to_string (get_opt d "albumName")));
                    ("albumName", get_opt d "albumName")])
      else not_found
  | GET, _ =>
      if String.eqb (req_url req) "/api/albums"
      then Responded 200 (VArr albums)
      else not_found
  | PUT, _ => Responded 200 (VArr [])
  | _, _ => not_found
  end.

(** The same remote with the album routes out of order. *)
Definition immich_albums_down (req : Request) : HttpOutcome :=
  match req_body req with
  | FormBody _ => immich [] req
  | _ => Responded 500 (VObj [("message", VStr "Internal server error")])
  end.

(** A deployment that only answers on the API root. *)
Definition root_only (req : Request) : HttpOutcome :=
  if String.eqb (req_url req) "/api" then Responded 200 (VObj [])
  else not_found.

(** A remote that cannot be reached. *)
Definition unreachable (_ : Request) : HttpOutcome :=
  NoResponse "connect ECONNREFUSED".

Definition config : Config :=
  {| IMMICH_INSTANCE_URL := "http://immich.local:2283";
     IMMICH_API_KEY := "secret";
     CACHE_TTL := 300 |}.

(** The world right after start-up. *)
Definition boot (existing : list string) (remote : Request -> HttpOutcome)
  : World Env :=
  {| env := {| clock := 1000; files := existing; respond := remote |};
     api := new_client config;
     trace := [] |}.

End Sim.

(** ** A remote with state

    The stand-in platform above answers as a function of the request alone.
    The one below keeps the remote's albums in the environment: an album
    created by [POST /api/albums] is in the listing from then on.  Files,
    clock, paths and case folding are those of [Sim]. *)

Module Remote.

Record Env : Type := {
  clock : Z;
  files : list string;
  albums : list value;
}.

(** The environment after one exchange that left the remote with [albums']. *)
Definition after (e : Env) (albums' : list value) : Env :=
  {| clock := clock e + 1; files := files e; albums := albums' |}.

(** Uploads are accepted, the album list is served, [POST /api/albums] adds
    an album under the next free identifier, assets can be attached to any
    album, and every other route answers 404. *)
Definition serve (e : Env) (req : Request) : HttpOutcome * Env :=
  match req_method req, req_body req with
  | POST, FormBody f =>
      (Responded 201 (VObj [("id", VStr ("asset:" +:+ assetFilename f));
                            ("status", VStr "created")]),
       after e (albums e))
  | POST, JsonBody d =>
      if String.eqb (req_url req) "/api/albums"
      then
        let created :=
          Sim.album ("album-" +:+ pretty (Z.of_nat (S (length (albums e)))))
                    (to_string (get_opt d "albumName")) in
        (Responded 201 created, after e (albums e ++ [created]))
      else (Sim.not_found, after e (albums e))
  | GET, _ =>
      if String.eqb (req_url req) "/api/albums"
      then (Responded 200 (VArr (albums e)), after e (albums e))
      else (Sim.not_found, after e (albums e))
  | PUT, _ => (Responded 200 (VArr []), after e (albums e))
  | _, _ => (Sim.not_found, after e (albums e))
  end.

#[global] Instance platform : Platform Env := {|
  now e := clock e;
  existsSync e p := existsb (String.eqb p) (files e);
  statSync e p :=
    if existsb (String.eqb p) (files e)
    then Ok {| birthtime := 0; mtime := 0 |}
    else Throw (JsError ("ENOENT: no such file or directory, stat '" +:+ p +:+ "'"));
  path_resolve _ p := Sim.resolve p;
  path_basename := Sim.basename;
  toISOString t := pretty t;
  toLowerCase := Sim.lower;
  http := serve;
|}.

(** The world right after start-up, the remote holding [existing_albums]. *)
Definition boot (existing : list string) (existing_albums : list value)
  : World Env :=
  {| env := {| clock := 1000; files := existing; albums := existing_albums |};
     api := new_client Sim.config;
     trace := [] |}.

End Remote.

(** * Properties *)

(** Unfolding the monad's combinators. *)
Ltac run :=
  unfold bind, ret, throw, lift, try_catch in *; simpl in *.

(** ** The response cache *)

Section CacheProperties.
Context {E : Type} `{!Platform E}.

(** The world after [this.cache.delete(key)]. *)
Definition evicted (key : string) (w : World E) : World E :=
  {| env := env w;
     api := {| cache := base.delete key (cache (api w));
               cacheTtl := cacheTtl (api w) |};
     trace := trace w |}.

Lemma setCache_stores (key : string) (d : value) (w : World E) :
  Client.setCache key d w
  = (Ok tt,
     {| env := env w;
        api := {| cache := <[key := {| data := d; timestamp := now (env w) |}]>
                             (cache (api w));
                  cacheTtl := cacheTtl (api w) |};
        trace := trace w |}).
Proof. reflexivity. Qed.

Lemma getFromCache_absent (key : string) (w : World E) :
  cache (api w) !! key = None ->
  Client.getFromCache key w = (Ok VNull, w).
Proof.
  intros Hnone. unfold Client.getFromCache, Client.cache_get. run.
  now rewrite Hnone.
Qed.

Lemma getFromCache_fresh (key : string) (c : CacheEntry) (w : World E) :
  cache (api w) !! key = Some c ->
  now (env w) - timestamp c < cacheTtl (api w) ->
  Client.getFromCache key w = (Ok (data c), w).
Proof.
  intros Hsome Hfresh.
  unfold Client.getFromCache, Client.cache_get, Client.isCacheValid,
    Client.date_now, Client.this_cacheTtl. run.
  rewrite Hsome. simpl.
  destruct (Z.ltb_spec (now (env w) - timestamp c) (cacheTtl (api w))); [done | lia].
Qed.

Lemma getFromCache_expired (key : string) (c : CacheEntry) (w : World E) :
  cache (api w) !! key = Some c ->
  cacheTtl (api w) <= now (env w) - timestamp c ->
  Client.getFromCache key w = (Ok VNull, evicted key w).
Proof.
  intros Hsome Hold.
  unfold Client.getFromCache, Client.cache_get, Client.isCacheValid,
    Client.date_now, Client.this_cacheTtl. run.
  rewrite Hsome. simpl.
  destruct (Z.ltb_spec (now (env w) - timestamp c) (cacheTtl (api w))); [lia | done].
Qed.

(** C2.  Let [w] be the world in which [set(k, v)] runs and [w'] any later
    world in which the entry of [k] is still the one that [set] stored (no
    intervening [set]) and the TTL is unchanged.  If less than the TTL has
    elapsed between the two, [get(k)] returns [v] and changes nothing; if the
    TTL has elapsed, [get(k)] returns absent ([null]) and leaves the world with
    the entry of [k] removed from the cache. *)
Theorem cache_get_after_set (k : string) (v : value) (w w' : World E) :
  cacheTtl (api w') = cacheTtl (api w) ->
  cache (api w') !! k = cache (api (snd (Client.setCache k v w))) !! k ->
  (now (env w') - now (env w) < cacheTtl (api w) ->
     Client.getFromCache k w' = (Ok v, w'))
  /\ (cacheTtl (api w) <= now (env w') - now (env w) ->
        Client.getFromCache k w' = (Ok VNull, evicted k w')
        /\ cache (api (evicted k w')) !! k = None).
Proof.
  intros Httl Hentry. rewrite setCache_stores in Hentry. simpl in Hentry.
  rewrite lookup_insert_eq in Hentry.
  split.
  - intros Hfresh.
    apply (getFromCache_fresh k _ w' Hentry). simpl. lia.
  - intros Hold. split.
    + apply (getFromCache_expired k _ w' Hentry). simpl. lia.
    + simpl. apply lookup_delete_eq.
Qed.

End CacheProperties.

(** The world of [Sim.boot] once the clock shows [t] and [k] holds [v]. *)
Definition sim_later (k : string) (v : value) (t : Z) : World Sim.Env :=
  let w := snd (Client.setCache k v (Sim.boot [] Sim.unreachable)) in
  {| env := {| Sim.clock := t; Sim.files := []; Sim.respond := Sim.unreachable |};
     api := api w; trace := trace w |}.

Lemma cache_get_after_set_witness :
  Client.getFromCache "GET:/api/albums:{}"
    (sim_later "GET:/api/albums:{}" (VArr []) 1000)
  = (Ok (VArr []), sim_later "GET:/api/albums:{}" (VArr []) 1000)
  /\ fst (Client.getFromCache "GET:/api/albums:{}"
            (sim_later "GET:/api/albums:{}" (VArr []) 301000))
     = Ok VNull.
Proof.
  split.
  - apply (cache_get_after_set "GET:/api/albums:{}" (VArr [])
             (Sim.boot [] Sim.unreachable)
             (sim_later "GET:/api/albums:{}" (VArr []) 1000));
      [reflexivity | reflexivity | vm_compute; reflexivity].
  - pose proof (cache_get_after_set "GET:/api/albums:{}" (VArr [])
             (Sim.boot [] Sim.unreachable)
             (sim_later "GET:/api/albums:{}" (VArr []) 301000)
             eq_refl eq_refl) as [_ Hold].
    destruct Hold as [Hget _]; [vm_compute; discriminate |].
    now rewrite Hget.
Defined.

(** ** The HTTP transport *)

Section TransportProperties.
Context {E : Type} `{!Platform E}.

(** The world after one network exchange for [req] that left the environment
    in [e']: the request is on the trace once, the client is untouched. *)
Definition sent (req : Request) (e' : E) (w : World E) : World E :=
  {| env := e'; api := api w; trace := trace w ++ [req] |}.

Lemma request_resolved (req : Request) (w : World E) status d e' :
  http (env w) req = (Responded status d, e') ->
  Client.validateStatus status = true ->
  Client.request req w = (Ok d, sent req e' w).
Proof. intros Hhttp Hstatus. unfold Client.request. now rewrite Hhttp, Hstatus. Qed.

Lemma request_rejected (req : Request) (w : World E) status d e' :
  http (env w) req = (Responded status d, e') ->
  Client.validateStatus status = false ->
  Client.request req w
  = (Throw (ApiError (Client.response_error_interceptor
       {| Client.ax_message := "Request failed with status code " +:+ pretty status;
          Client.ax_response := Some (status, d) |})),
     sent req e' w).
Proof. intros Hhttp Hstatus. unfold Client.request. now rewrite Hhttp, Hstatus. Qed.

Lemma request_no_response (req : Request) (w : World E) msg e' :
  http (env w) req = (NoResponse msg, e') ->
  Client.request req w
  = (Throw (ApiError (Client.response_error_interceptor
       {| Client.ax_message := msg; Client.ax_response := None |})),
     sent req e' w).
Proof. intros Hhttp. unfold Client.request. now rewrite Hhttp. Qed.

(** Every request leaves exactly itself on the trace, whatever the outcome. *)
Lemma request_sent (req : Request) (w : World E) :
  exists r e', Client.request req w = (r, sent req e' w).
Proof.
  unfold Client.request.
  destruct (http (env w) req) as [[status d | msg] e'];
    [destruct (Client.validateStatus status) |]; eauto.
Qed.

(** Without cache participation [get] is the bare request. *)
Lemma get_uncached (endpoint : string) (params : value) (w : World E) :
  Client.get endpoint params false w
  = Client.request {| req_method := GET; req_url := endpoint;
                      req_params := params; req_body := NoBody |} w.
Proof.
  unfold Client.get. run.
  now destruct (Client.request _ w) as [[d | x] w'].
Qed.

(** A cached [get] whose key has no entry goes to the network, and a failed
    request stores nothing. *)
Lemma get_miss_rejected (endpoint : string) (params : value) (w w' : World E) x :
  cache (api w) !! Client.cacheKey endpoint params = None ->
  Client.request {| req_method := GET; req_url := endpoint;
                    req_params := params; req_body := NoBody |} w
  = (Throw x, w') ->
  Client.get endpoint params true w = (Throw x, w').
Proof.
  intros Hmiss Hreq. unfold Client.get. run.
  rewrite (getFromCache_absent _ w Hmiss). simpl. now rewrite Hreq.
Qed.

(** The request a verb method hands to axios. *)
Definition request_of (m : Method) (endpoint : string) (payload : value)
  : Request :=
  match m with
  | GET => {| req_method := GET; req_url := endpoint;
              req_params := payload; req_body := NoBody |}
  | _ => {| req_method := m; req_url := endpoint;
            req_params := VUndefined; req_body := JsonBody payload |}
  end.

(** The verb method itself ([get] without cache participation). *)
Definition verb (m : Method) (endpoint : string) (payload : value) : M E value :=
  match m with
  | GET => Client.get endpoint payload false
  | POST => Client.post endpoint payload
  | PUT => Client.put endpoint payload
  | PATCH => Client.patch endpoint payload
  | DELETE => Client.delete endpoint payload
  end.

Lemma verb_is_request (m : Method) (endpoint : string) (payload : value)
    (w : World E) :
  verb m endpoint payload w = Client.request (request_of m endpoint payload) w.
Proof. destruct m; try reflexivity. apply get_uncached. Qed.

(** The normalized error for a response the transport rejects, as the
    specification words it: the message and the error code of the remote's
    structured body where the body carries them, the transport's own message
    otherwise, and the status of the response. *)
Definition normalized (status : Z) (body : value) : ImmichApiError :=
  {| message :=
       if truthy (get_opt body "message") then get_opt body "message"
       else VStr ("Request failed with status code " +:+ pretty status);
     statusCode := status;
     error := get_opt body "error" |}.

(** The normalized error when no response arrived at all. *)
Definition transport_fault (msg : string) : ImmichApiError :=
  {| message := VStr msg; statusCode := 500; error := VUndefined |}.

Definition not_found_error : ImmichApiError :=
  {| message := VStr "not found"; statusCode := 404; error := VUndefined |}.

Lemma interceptor_normalizes (status : Z) (body : value) :
  status <> 0 ->
  Client.response_error_interceptor
    {| Client.ax_message := "Request failed with status code " +:+ pretty status;
       Client.ax_response := Some (status, body) |}
  = normalized status body.
Proof.
  intros Hstatus. unfold Client.response_error_interceptor, normalized, Js.or.
  cbn [Client.ax_response Client.ax_message].
  f_equal.
  - destruct (truthy (get_opt body "message")) eqn:Hmessage;
      [cbv iota; now rewrite Hmessage | reflexivity].
  - change (truthy (VNum status)) with (negb (status =? 0)).
    now destruct (Z.eqb_spec status 0).
Qed.

Lemma interceptor_transport_fault (msg : string) :
  msg <> "" ->
  Client.response_error_interceptor
    {| Client.ax_message := msg; Client.ax_response := None |}
  = transport_fault msg.
Proof.
  intros Hmsg. unfold Client.response_error_interceptor, transport_fault, Js.or.
  simpl. now destruct (String.eqb_spec msg "").
Qed.

(** C7.  A remote call that does not get a 2xx response fails with the
    normalized error, and the request is on the trace exactly once (no
    retry), the environment having made exactly that one exchange:

    - when the remote answers with a (non-zero) status outside 2xx, the
      error carries that status, the [message] of the response body when the
      body has a truthy one and the transport's own message otherwise, and
      the body's [error] code;
    - when no response arrives, the error carries the transport's (non-empty)
      message and the status 500;
    - in particular a response 404 with the body [{message: 'not found'}]
      fails with [{message: 'not found', statusCode: 404}].

    This holds for the call on the axios instance, hence for every verb
    method, and for a cached [get] that found no entry.  ([uploadAsset] and
    the probes of [validateConnection] reach the network through the same
    [request].) *)
Theorem remote_error_is_normalized (req : Request) (w : World E) (e' : E) :
  let fails_with (err : ImmichApiError) : Prop :=
    Client.request req w = (Throw (ApiError err), sent req e' w)
    /\ (forall m endpoint payload,
          req = request_of m endpoint payload ->
          verb m endpoint payload w = (Throw (ApiError err), sent req e' w))
    /\ (forall endpoint params,
          req = request_of GET endpoint params ->
          cache (api w) !! Client.cacheKey endpoint params = None ->
          Client.get endpoint params true w
          = (Throw (ApiError err), sent req e' w)) in
  (forall status body,
     http (env w) req = (Responded status body, e') ->
     Client.validateStatus status = false ->
     status <> 0 ->
     fails_with (normalized status body))
  /\ (forall msg,
        http (env w) req = (NoResponse msg, e') ->
        msg <> "" ->
        fails_with (transport_fault msg))
  /\ (http (env w) req
      = (Responded 404 (VObj [("message", VStr "not found")]), e') ->
      fails_with not_found_error).
Proof.
  intros fails_with.
  assert (forall err,
            Client.request req w = (Throw (ApiError err), sent req e' w) ->
            fails_with err) as Hall.
  { intros err Hreq. split; [exact Hreq |]. split.
    - intros m endpoint payload ->. now rewrite verb_is_request.
    - intros endpoint params -> Hmiss. now apply get_miss_rejected. }
  split; [| split].
  - intros status body Hhttp Hstatus Hnonzero. apply Hall.
    rewrite (request_rejected _ w status body e' Hhttp Hstatus).
    now rewrite interceptor_normalizes.
  - intros msg Hhttp Hmsg. apply Hall.
    rewrite (request_no_response _ w msg e' Hhttp).
    now rewrite interceptor_transport_fault.
  - intros Hhttp. apply Hall.
    now rewrite (request_rejected _ w 404 _ e' Hhttp eq_refl).
Qed.

End TransportProperties.

(** The claim's response, a response whose body carries no message, and a
    remote that cannot be reached. *)
Lemma remote_error_is_normalized_witness :
  fst (Client.get "/api/albums/missing" VUndefined true
         (Sim.boot [] (Sim.immich [])))
  = Throw (ApiError not_found_error)
  /\ length (trace (snd (Client.get "/api/albums/missing" VUndefined true
                           (Sim.boot [] (Sim.immich []))))) = 1%nat
  /\ fst (Client.delete "/api/albums/album-1" VUndefined
            (Sim.boot [] (fun _ => Responded 503 (VStr "Service Unavailable"))))
     = Throw (ApiError
                {| message := VStr "Request failed with status code 503";
                   statusCode := 503;
                   error := VUndefined |})
  /\ fst (Client.post "/api/albums" (VObj [("albumName", VStr "Winter")])
            (Sim.boot [] Sim.unreachable))
     = Throw (ApiError
                {| message := VStr "connect ECONNREFUSED";
                   statusCode := 500;
                   error := VUndefined |}).
Proof.
  pose (e1 := {| Sim.clock := 1001; Sim.files := [];
                 Sim.respond := Sim.immich [] |}).
  pose (e2 := {| Sim.clock := 1001; Sim.files := [];
                 Sim.respond :=
                   fun _ => Responded 503 (VStr "Service Unavailable") |}).
  pose (e3 := {| Sim.clock := 1001; Sim.files := [];
                 Sim.respond := Sim.unreachable |}).
  destruct (remote_error_is_normalized
              (request_of GET "/api/albums/missing" VUndefined)
              (Sim.boot [] (Sim.immich [])) e1) as (_ & _ & Hnotfound).
  destruct Hnotfound as (_ & _ & Hcached); [vm_compute; reflexivity |].
  rewrite (Hcached "/api/albums/missing" VUndefined);
    [| reflexivity | vm_compute; reflexivity].
  split; [reflexivity |]. split; [reflexivity |].
  destruct (remote_error_is_normalized
              (request_of DELETE "/api/albums/album-1" VUndefined)
              (Sim.boot [] (fun _ => Responded 503 (VStr "Service Unavailable")))
              e2) as (Hstatus & _ & _).
  destruct (Hstatus 503 (VStr "Service Unavailable")) as (_ & Hverb & _);
    [vm_compute; reflexivity | reflexivity | discriminate |].
  specialize (Hverb DELETE "/api/albums/album-1" VUndefined eq_refl).
  simpl verb in Hverb. rewrite Hverb.
  split; [reflexivity |].
  destruct (remote_error_is_normalized
              (request_of POST "/api/albums" (VObj [("albumName", VStr "Winter")]))
              (Sim.boot [] Sim.unreachable) e3) as (_ & Hfault & _).
  destruct (Hfault "connect ECONNREFUSED") as (_ & Hverb' & _);
    [vm_compute; reflexivity | discriminate |].
  specialize (Hverb' POST "/api/albums" (VObj [("albumName", VStr "Winter")])
                eq_refl).
  simpl verb in Hverb'. rewrite Hverb'. reflexivity.
Defined.

(** ** Cache keys *)

Section CacheKeyProperties.
Context {E : Type} `{!Platform E}.

(** After a cached [get] that returned [d], the entry under its key holds
    [d], whether it came from the cache or from the network. *)
Lemma get_leaves_entry (endpoint : string) (params d : value) (w w1 : World E) :
  Client.get endpoint params true w = (Ok d, w1) ->
  exists entry,
    cache (api w1) !! Client.cacheKey endpoint params = Some entry
    /\ data entry = d.
Proof.
  unfold Client.get, Client.getFromCache, Client.cache_get,
    Client.isCacheValid, Client.date_now, Client.this_cacheTtl,
    Client.setCache, Client.cache_set, Client.cache_delete,
    Client.update_cache.
  run.
  set (key := Client.cacheKey endpoint params).
  set (req := {| req_method := GET; req_url := endpoint;
                 req_params := params; req_body := NoBody |}).
  assert (forall w0,
            match Client.request req w0 with
            | (Ok a, w') =>
                (Ok a,
                 {| env := env w';
                    api := {| cache := <[key := {| data := a;
                                                   timestamp := now (env w') |}]>
                                         (cache (api w'));
                              cacheTtl := cacheTtl (api w') |};
                    trace := trace w' |})
            | (Throw x, w') => (Throw x, w')
            end = (Ok d, w1) ->
            exists entry, cache (api w1) !! key = Some entry /\ data entry = d)
    as Hnet.
  { intros w0 Heq.
    destruct (Client.request req w0) as [[a | x] w']; [| discriminate].
    injection Heq as -> <-. simpl. rewrite lookup_insert_eq. eauto. }
  destruct (cache (api w) !! key) as [c |] eqn:Hc; simpl.
  - destruct (now (env w) - timestamp c <? cacheTtl (api w)); simpl.
    + destruct (truthy (data c)) eqn:Htruthy; [| apply Hnet].
      intros [= <- <-]. eauto.
    + apply Hnet.
  - apply Hnet.
Qed.

(** A fresh entry with a truthy payload answers a cached [get] of its key
    without any network exchange. *)
Lemma get_hit (endpoint : string) (params : value) (entry : CacheEntry)
    (w : World E) :
  cache (api w) !! Client.cacheKey endpoint params = Some entry ->
  now (env w) - timestamp entry < cacheTtl (api w) ->
  truthy (data entry) = true ->
  Client.get endpoint params true w = (Ok (data entry), w).
Proof.
  intros Hentry Hfresh Htruthy. unfold Client.get. run.
  rewrite (getFromCache_fresh _ _ w Hentry Hfresh). simpl.
  now rewrite Htruthy.
Qed.

(** C6, as amended.  Two parameter objects with the same JSON serialization
    (the same keys and values in the same insertion order) get the same cache
    key, and the two reads collide on one entry: once a cached [get] with the
    first object has returned [d], a cached [get] with the second one, in any
    later world that still holds that entry within its TTL, returns [d] from
    the cache and makes no network exchange. *)
Theorem same_serialization_same_entry (endpoint : string) (p q : value) :
  stringify (Js.or p (VObj [])) = stringify (Js.or q (VObj [])) ->
  Client.cacheKey endpoint p = Client.cacheKey endpoint q
  /\ forall (w w1 : World E) (d : value),
       Client.get endpoint p true w = (Ok d, w1) ->
       exists entry,
         cache (api w1) !! Client.cacheKey endpoint q = Some entry
         /\ data entry = d
         /\ forall w2 : World E,
              cache (api w2) !! Client.cacheKey endpoint q = Some entry ->
              now (env w2) - timestamp entry < cacheTtl (api w2) ->
              truthy d = true ->
              Client.get endpoint q true w2 = (Ok d, w2).
Proof.
  intros Hser.
  assert (Client.cacheKey endpoint p = Client.cacheKey endpoint q) as Hkey.
  { unfold Client.cacheKey. now rewrite Hser. }
  split; [exact Hkey |].
  intros w w1 d Hget.
  destruct (get_leaves_entry _ _ _ _ _ Hget) as (entry & Hentry & Hdata).
  exists entry. rewrite <- Hkey. repeat split; [exact Hentry | exact Hdata |].
  intros w2 Hentry2 Hfresh Htruthy. rewrite <- Hdata.
  rewrite Hkey in Hentry2. apply get_hit; [exact Hentry2 | exact Hfresh |].
  now rewrite Hdata.
Qed.

End CacheKeyProperties.

(** C6 fails as stated: two parameter objects that are equal as key-value maps
    but were filled in a different order get different cache keys. *)
Lemma cacheKey_depends_on_insertion_order :
  ~ (forall (endpoint : string) (p q : list (string * value)),
       (forall k, lookup_prop k p = lookup_prop k q) ->
       Client.cacheKey endpoint (VObj p) = Client.cacheKey endpoint (VObj q)).
Proof.
  intros Hall.
  specialize (Hall "/api/assets"
                [("page", VNum 1); ("size", VNum 250)]
                [("size", VNum 250); ("page", VNum 1)]).
  assert (Client.cacheKey "/api/assets" (VObj [("page", VNum 1); ("size", VNum 250)])
          <> Client.cacheKey "/api/assets" (VObj [("size", VNum 250); ("page", VNum 1)]))
    as Hne by (vm_compute; discriminate).
  apply Hne, Hall. intros k. simpl.
  destruct (String.eqb_spec k "page") as [-> | _]; [reflexivity |].
  now destruct (String.eqb k "size").
Qed.

Lemma same_serialization_same_entry_witness :
  Client.cacheKey "/api/albums" VUndefined = Client.cacheKey "/api/albums" (VObj [])
  /\ fst (Client.get "/api/albums" (VObj []) true
            (snd (Client.get "/api/albums" VUndefined true
                    (Sim.boot [] (Sim.immich [Sim.album "1" "Summer Trip"])))))
     = Ok (VArr [Sim.album "1" "Summer Trip"]).
Proof.
  destruct (same_serialization_same_entry (E := Sim.Env) "/api/albums"
              VUndefined (VObj []) eq_refl) as [Hkey Hcollide].
  split; [exact Hkey |].
  destruct (Hcollide (Sim.boot [] (Sim.immich [Sim.album "1" "Summer Trip"]))
              (snd (Client.get "/api/albums" VUndefined true
                      (Sim.boot [] (Sim.immich [Sim.album "1" "Summer Trip"]))))
              (VArr [Sim.album "1" "Summer Trip"]))
    as (entry & Hentry & Hdata & Hhit); [vm_compute; reflexivity |].
  rewrite Hhit; [reflexivity | exact Hentry | | reflexivity].
  assert (timestamp entry = 1001) as ->.
  { vm_compute in Hentry. injection Hentry as <-. reflexivity. }
  vm_compute. reflexivity.
Defined.

(** ** Connection validation *)

Section ValidateConnectionProperties.
Context {E : Type} `{!Platform E}.

Definition probe_request (endpoint : string) : Request :=
  {| req_method := GET; req_url := endpoint;
     req_params := VUndefined; req_body := NoBody |}.

(** The fixed ordered list of probes: the candidate health-check endpoints,
    then the plain request to the API root. *)
Definition health_checks : list Request :=
  map probe_request Client.endpoints ++ [probe_request "/api"].

(** A probe responds without error when a 2xx response comes back. *)
Definition responds_ok (o : HttpOutcome) : bool :=
  match o with
  | Responded status _ => Client.validateStatus status
  | NoResponse _ => false
  end.

(** Every probe of the list fails, one after the other, starting in
    environment [e]; the result is the environment this leaves. *)
Fixpoint fail_through (probes : list Request) (e : E) : option E :=
  match probes with
  | [] => Some e
  | r :: rest =>
      let '(o, e1) := http e r in
      if responds_ok o then None else fail_through rest e1
  end.

(** Probing in order and stopping at the first probe that responds: whether
    one did, the probes made, and the environment afterwards. *)
Fixpoint probe_in_order (probes : list Request) (e : E)
  : bool * list Request * E :=
  match probes with
  | [] => (false, [], e)
  | r :: rest =>
      let '(o, e1) := http e r in
      if responds_ok o then (true, [r], e1)
      else
        let '(found, made, e2) := probe_in_order rest e1 in
        (found, r :: made, e2)
  end.

Lemma request_responds (req : Request) (w : World E) :
  Client.request req w
  = (let '(o, e1) := http (env w) req in
     if responds_ok o
     then (Ok match o with Responded _ d => d | NoResponse _ => VUndefined end,
           sent req e1 w)
     else (Throw (ApiError (Client.response_error_interceptor
             match o with
             | Responded status d =>
                 {| Client.ax_message :=
                      "Request failed with status code " +:+ pretty status;
                    Client.ax_response := Some (status, d) |}
             | NoResponse msg =>
                 {| Client.ax_message := msg; Client.ax_response := None |}
             end)),
           sent req e1 w)).
Proof.
  unfold Client.request.
  destruct (http (env w) req) as [[status d | msg] e1]; simpl; [| reflexivity].
  now destruct (Client.validateStatus status).
Qed.

Lemma probe_in_order_app (ps qs : list Request) (e : E) :
  probe_in_order (ps ++ qs) e
  = (let '(found, made, e1) := probe_in_order ps e in
     if found then (true, made, e1)
     else let '(found', made', e2) := probe_in_order qs e1 in
          (found', made ++ made', e2)).
Proof.
  revert e. induction ps as [| r ps IH]; intros e; simpl.
  - now destruct (probe_in_order qs e) as [[found made] e2].
  - destruct (http e r) as [o e1]. destruct (responds_ok o); [reflexivity |].
    rewrite IH. destruct (probe_in_order ps e1) as [[found made] e2].
    destruct found; [reflexivity |].
    now destruct (probe_in_order qs e2) as [[found' made'] e3].
Qed.

(** The loop of [validateConnection] is [probe_in_order] on its endpoints. *)
Lemma probe_refines (candidates : list string) (w : World E) :
  Client.probe candidates w
  = (let '(found, made, e') :=
       probe_in_order (map probe_request candidates) (env w) in
     (Ok found, {| env := e'; api := api w; trace := trace w ++ made |})).
Proof.
  revert w. induction candidates as [| endpoint rest IH]; intros w; simpl.
  - unfold ret. rewrite app_nil_r. now destruct w.
  - unfold try_catch, bind, ret. rewrite get_uncached, request_responds.
    fold (probe_request endpoint).
    destruct (http (env w) (probe_request endpoint)) as [o e1].
    destruct (responds_ok o); [reflexivity |].
    rewrite IH. simpl.
    destruct (probe_in_order (map probe_request rest) e1) as [[found made] e2].
    now rewrite <- app_assoc.
Qed.

Lemma validateConnection_refines (w : World E) :
  Client.validateConnection w
  = (let '(found, made, e') := probe_in_order health_checks (env w) in
     (Ok found, {| env := e'; api := api w; trace := trace w ++ made |})).
Proof.
  unfold Client.validateConnection, health_checks.
  rewrite probe_in_order_app.
  unfold try_catch at 1. unfold bind at 1. rewrite probe_refines.
  destruct (probe_in_order (map probe_request Client.endpoints) (env w))
    as [[found made] e1].
  destruct found; [reflexivity |].
  unfold try_catch, bind, ret. rewrite request_responds. simpl.
  fold (probe_request "/api").
  destruct (http e1 (probe_request "/api")) as [o e2].
  destruct (responds_ok o); simpl; unfold sent; simpl;
    now rewrite <- app_assoc.
Qed.

(** What [probe_in_order] returns, in terms of the probes' outcomes. *)
Lemma probe_in_order_found (probes : list Request) (e e' : E) made :
  probe_in_order probes e = (true, made, e') ->
  exists before r after e1 o,
    probes = before ++ r :: after
    /\ made = before ++ [r]
    /\ fail_through before e = Some e1
    /\ http e1 r = (o, e')
    /\ responds_ok o = true.
Proof.
  revert e made. induction probes as [| r rest IH]; intros e made; simpl.
  - discriminate.
  - destruct (http e r) as [o e1] eqn:Hhttp.
    destruct (responds_ok o) eqn:Hok.
    + intros [= <- <-]. exists [], r, rest, e, o. simpl. auto.
    + destruct (probe_in_order rest e1) as [[found made'] e2] eqn:Hrest.
      intros [= -> <- ->].
      destruct (IH _ _ Hrest) as (before & r' & after & e3 & o' & -> & -> & Hf & Hh & Ho).
      exists (r :: before), r', after, e3, o'. simpl.
      rewrite Hhttp, Hok. auto.
Qed.

Lemma probe_in_order_none (probes : list Request) (e e' : E) made :
  probe_in_order probes e = (false, made, e') ->
  made = probes /\ fail_through probes e = Some e'.
Proof.
  revert e made. induction probes as [| r rest IH]; intros e made; simpl.
  - now intros [= <- <-].
  - destruct (http e r) as [o e1] eqn:Hhttp.
    destruct (responds_ok o) eqn:Hok; [discriminate |].
    destruct (probe_in_order rest e1) as [[found made'] e2] eqn:Hrest.
    intros [= -> <- ->]. destruct (IH _ _ Hrest) as [-> Hf]. auto.
Qed.

Lemma fail_through_probe (probes : list Request) (e e1 : E) :
  fail_through probes e = Some e1 ->
  probe_in_order probes e = (false, probes, e1).
Proof.
  revert e. induction probes as [| r rest IH]; intros e; simpl.
  - now intros [= ->].
  - destruct (http e r) as [o e2]. destruct (responds_ok o); [discriminate |].
    intros Hrest. now rewrite (IH _ Hrest).
Qed.

(** C8.  [validateConnection] always returns a boolean.  It returns [true]
    exactly when some probe of the fixed ordered list responded without error:
    the probes made are then the ones before it, which all failed, and that
    one (no later candidate is probed).  It returns [false] only when every
    candidate endpoint and the final request to the API root were probed and
    failed.  In particular, when all the specific health endpoints fail and
    the API root responds, the result is [true]. *)
Theorem validateConnection_first_response (w : World E) :
  (exists found made e',
     Client.validateConnection w
     = (Ok found, {| env := e'; api := api w; trace := trace w ++ made |})
     /\ if found
        then exists before r after e1 o,
               health_checks = before ++ r :: after
               /\ made = before ++ [r]
               /\ fail_through before (env w) = Some e1
               /\ http e1 r = (o, e')
               /\ responds_ok o = true
        else made = health_checks
             /\ fail_through health_checks (env w) = Some e')
  /\ (forall e1 o e2,
        fail_through (map probe_request Client.endpoints) (env w) = Some e1 ->
        http e1 (probe_request "/api") = (o, e2) ->
        responds_ok o = true ->
        Client.validateConnection w
        = (Ok true,
           {| env := e2; api := api w; trace := trace w ++ health_checks |})).
Proof.
  split.
  - rewrite validateConnection_refines.
    destruct (probe_in_order health_checks (env w)) as [[found made] e'] eqn:Hp.
    exists found, made, e'. split; [reflexivity |].
    destruct found.
    + now apply probe_in_order_found.
    + now apply probe_in_order_none.
  - intros e1 o e2 Hfail Hroot Hok.
    rewrite validateConnection_refines. unfold health_checks.
    rewrite probe_in_order_app, (fail_through_probe _ _ _ Hfail). simpl.
    now rewrite Hroot, Hok.
Qed.

End ValidateConnectionProperties.

Lemma validateConnection_first_response_witness :
  fst (Client.validateConnection (Sim.boot [] Sim.root_only)) = Ok true
  /\ trace (snd (Client.validateConnection (Sim.boot [] Sim.root_only)))
     = health_checks.
Proof.
  destruct (validateConnection_first_response (Sim.boot [] Sim.root_only))
    as [_ Hroot].
  rewrite (Hroot {| Sim.clock := 1005; Sim.files := [];
                    Sim.respond := Sim.root_only |}
                 (Responded 200 (VObj []))
                 {| Sim.clock := 1006; Sim.files := [];
                    Sim.respond := Sim.root_only |});
    [split; reflexivity | vm_compute; reflexivity | vm_compute; reflexivity
    | reflexivity].
Defined.

(** ** Schema parsing *)

Lemma parse_array_of_strings (l : list string) (n : nat) (message : string) :
  (n <= length l)%nat ->
  Zod.parse_value (Zod.array_ (Zod.string_ None) (Some (n, message)))
                  (VArr (map VStr l))
  = Ok (VArr (map VStr l)).
Proof.
  intros Hmin. simpl. rewrite length_map.
  destruct (Nat.ltb_spec (length l) n); [lia |].
  match goal with
  | |- context [?each (map VStr l)] =>
      assert (forall l', each (map VStr l') = Ok (map VStr l')) as Heach
  end.
  { induction l' as [| x l' IH]; [reflexivity |]. simpl. now rewrite IH. }
  now rewrite Heach.
Qed.

Lemma strings_of_strings (l : list string) :
  AlbumsTool.strings_of (VArr (map VStr l)) = l.
Proof.
  simpl. induction l as [| x l IH]; [reflexivity |]. simpl. now rewrite IH.
Qed.

(** ** [checkAssetsInAlbum] *)

(** The set of asset identifiers of an album, as far as strings can be
    members of it. *)
Definition id_set (ids : list value) : gset string :=
  list_to_set (flat_map (fun v => match v with VStr s => [s] | _ => [] end) ids).

Lemma Set_has_id_set (ids : list value) (assetId : string) :
  AlbumsTool.Set_has ids assetId = bool_decide (assetId ∈ id_set ids).
Proof.
  unfold id_set. induction ids as [| v ids IH]; simpl.
  - symmetry. apply bool_decide_eq_false. set_solver.
  - rewrite IH. destruct v; simpl; try reflexivity.
    destruct (String.eqb_spec assetId s) as [-> | Hne]; simpl.
    + symmetry. apply bool_decide_eq_true. set_solver.
    + apply bool_decide_ext. set_solver.
Qed.

Lemma id_set_strings (ids : list string) (q : string) :
  q ∈ id_set (map VStr ids) <-> q ∈ ids.
Proof.
  unfold id_set. rewrite elem_of_list_to_set.
  induction ids as [| i ids IH]; simpl; [set_solver |].
  rewrite !elem_of_cons, IH. reflexivity.
Qed.

Lemma triple_eq {A B C} (a a' : A) (b b' : B) (c c' : C) :
  a = a' -> b = b' -> c = c' -> (a, b, c) = (a', b', c').
Proof. now intros -> -> ->. Qed.

(** What one assignment does to the own properties of [results]. *)
Lemma lookup_assign (a q : string) (flag : bool) (results : gmap string bool) :
  AlbumsTool.assign a flag results !! q
  = if bool_decide (q = a /\ q <> "__proto__") then Some flag
    else results !! q.
Proof.
  unfold AlbumsTool.assign.
  destruct (String.eqb_spec a "__proto__") as [-> | Hproto].
  - rewrite bool_decide_eq_false_2; [reflexivity | tauto].
  - destruct (decide (q = a)) as [-> | Hne].
    + rewrite lookup_insert_eq. now rewrite bool_decide_eq_true_2.
    + rewrite lookup_insert_ne by done.
      rewrite bool_decide_eq_false_2; [reflexivity | tauto].
Qed.

(** The loop: every queried id other than [__proto__] is entered with its
    membership, every other key keeps what the map held, and the two counters
    count the queried ids with multiplicity. *)
Lemma check_each_spec (ids : list value) (Q : list string)
    (results : gmap string bool) (m n : Z) :
  exists results',
    AlbumsTool.check_each ids Q (results, m, n)
    = (results',
       m + Z.of_nat (length (filter (fun q => q ∈ id_set ids) Q)),
       n + Z.of_nat (length (filter (fun q => q ∉ id_set ids) Q)))
    /\ forall q,
         results' !! q
         = if bool_decide (q ∈ Q /\ q <> "__proto__")
           then Some (bool_decide (q ∈ id_set ids))
           else results !! q.
Proof.
  revert results m n.
  induction Q as [| a Q IH]; intros results m n; cbn [AlbumsTool.check_each].
  - exists results. split; [apply triple_eq; [reflexivity | simpl; lia ..] |].
    intros q. rewrite bool_decide_eq_false_2; [reflexivity | set_solver].
  - rewrite Set_has_id_set, !filter_cons.
    assert (forall (flag : bool) (r' : gmap string bool) (q : string),
              flag = bool_decide (a ∈ id_set ids) ->
              (forall q, r' !! q
                         = if bool_decide (q ∈ Q /\ q <> "__proto__")
                           then Some (bool_decide (q ∈ id_set ids))
                           else AlbumsTool.assign a flag results !! q) ->
              r' !! q
              = if bool_decide (q ∈ a :: Q /\ q <> "__proto__")
                then Some (bool_decide (q ∈ id_set ids))
                else results !! q) as Hstep.
    { intros flag r' q -> Hlook. rewrite Hlook, lookup_assign.
      destruct (decide (q ∈ Q /\ q <> "__proto__")) as [[HQ Hp] | HQ].
      - rewrite (bool_decide_eq_true_2 (q ∈ Q /\ _)) by done.
        now rewrite (bool_decide_eq_true_2 (q ∈ a :: Q /\ _)) by set_solver.
      - rewrite (bool_decide_eq_false_2 (q ∈ Q /\ _)) by done.
        destruct (decide (q = a /\ q <> "__proto__")) as [[-> Hp] | Hne].
        + rewrite (bool_decide_eq_true_2 (a = a /\ _)) by done.
          now rewrite (bool_decide_eq_true_2 (a ∈ a :: Q /\ _)) by set_solver.
        + rewrite (bool_decide_eq_false_2 (q = a /\ _)) by done.
          rewrite (bool_decide_eq_false_2 (q ∈ a :: Q /\ _)); [reflexivity |].
          rewrite elem_of_cons. tauto. }
    destruct (decide (a ∈ id_set ids)) as [Hin | Hout].
    + rewrite bool_decide_eq_true_2 by done.
      destruct (decide (a ∉ id_set ids)) as [? | _]; [done |].
      destruct (IH (AlbumsTool.assign a true results) (m + 1) n)
        as (r' & -> & Hlook).
      exists r'. split; [apply triple_eq; [reflexivity | simpl; lia ..] |].
      intros q. apply (Hstep true); [| exact Hlook].
      now rewrite bool_decide_eq_true_2.
    + rewrite bool_decide_eq_false_2 by done.
      destruct (decide (a ∉ id_set ids)) as [_ | ?]; [| done].
      destruct (IH (AlbumsTool.assign a false results) m (n + 1))
        as (r' & -> & Hlook).
      exists r'. split; [apply triple_eq; [reflexivity | simpl; lia ..] |].
      intros q. apply (Hstep false); [| exact Hlook].
      now rewrite bool_decide_eq_false_2.
Qed.

(** The album holds the assets with the identifiers [ids]: its [assets]
    property is an array with one element per identifier, in order, whose
    [id] is that identifier; an album without an [assets] property holds
    none.  This is read off the album, not off the code that extracts the
    identifiers. *)
Definition album_assets (album : value) (ids : list string) : Prop :=
  (nullish album = false
   /\ nullish (get_opt album "assets") = true
   /\ ids = [])
  \/ exists assets,
       get_opt album "assets" = VArr assets
       /\ Forall2 (fun a i => get_opt a "id" = VStr i) assets ids.

Lemma asset_ids_of_album (album : value) (ids : list string) :
  album_assets album ids ->
  AlbumsTool.asset_ids album = Ok (map VStr ids).
Proof.
  intros [(Halbum & Hnone & ->) | (assets & Hassets & Hids)];
    unfold AlbumsTool.asset_ids.
  { destruct album; try discriminate; try reflexivity.
    simpl in Hnone |- *. now destruct (lookup_prop "assets" props). }
  destruct album; try discriminate. simpl in Hassets |- *. rewrite Hassets.
  clear Hassets.
  induction Hids as [| a i assets ids Ha _ IH]; [reflexivity |].
  simpl in IH |- *. rewrite IH.
  destruct a; try discriminate. simpl in Ha |- *. now rewrite Ha.
Qed.

Lemma filter_id_set (ids Q : list string) :
  filter (fun q => q ∈ id_set (map VStr ids)) Q = filter (fun q => q ∈ ids) Q
  /\ filter (fun q => q ∉ id_set (map VStr ids)) Q
     = filter (fun q => q ∉ ids) Q.
Proof.
  split; apply list_filter_iff; intros q; rewrite id_set_strings; reflexivity.
Qed.

Section CheckAssetsProperties.
Context {E : Type} `{!Platform E}.

(** C9.  Let the album fetched for [id] hold the assets with the identifiers
    [ids], and let [Q] be a non-empty list of queried ids.  Then
    [checkAssetsInAlbum] returns a result whose [memberCount] is the number
    of entries of [Q] (with multiplicity) that are among [ids], whose
    [nonMemberCount] is the number of entries that are not, and whose
    [results] object has, for every queried id other than [__proto__], a
    property telling whether the id is among [ids], and no other property.
    A queried id [__proto__] is counted but gets no property: here the
    result departs from a map of the queried ids. *)
Theorem checkAssetsInAlbum_membership (id : string) (Q : list string)
    (album : value) (ids : list string) (w w1 : World E) :
  id <> "" ->
  Q <> [] ->
  Client.get ("/api/albums/" +:+ id) VUndefined true w = (Ok album, w1) ->
  album_assets album ids ->
  exists r,
    AlbumsTool.checkAssetsInAlbum
      (VObj [("albumId", VStr id); ("assetIds", VArr (map VStr Q))]) w
    = (Ok r, w1)
    /\ AlbumsTool.albumId r = VStr id
    /\ (forall q, q ∈ Q -> q <> "__proto__" ->
          AlbumsTool.results r !! q = Some (bool_decide (q ∈ ids)))
    /\ (forall q, q ∉ Q -> AlbumsTool.results r !! q = None)
    /\ AlbumsTool.results r !! "__proto__" = None
    /\ AlbumsTool.memberCount r
       = Z.of_nat (length (filter (fun q => q ∈ ids) Q))
    /\ AlbumsTool.nonMemberCount r
       = Z.of_nat (length (filter (fun q => q ∉ ids) Q)).
Proof.
  intros Hid HQ Hget Halbum.
  pose proof (asset_ids_of_album album ids Halbum) as Hids.
  unfold AlbumsTool.checkAssetsInAlbum, Zod.parse,
    Zod.CheckAssetsInAlbumInputSchema.
  cbn [Zod.parse_fields lookup_prop String.eqb Ascii.eqb Bool.eqb].
  assert (Zod.parse_value (Zod.string_ (Some (1%nat, "Album ID is required")))
            (VStr id) = Ok (VStr id)) as ->.
  { simpl. destruct id; [done | reflexivity]. }
  rewrite parse_array_of_strings by (destruct Q; [done | simpl; lia]).
  unfold bind at 1. unfold lift at 1.
  cbn [get_opt lookup_prop String.eqb Ascii.eqb Bool.eqb to_string].
  unfold bind at 1. rewrite Hget.
  unfold bind at 1. unfold lift at 1. rewrite Hids.
  rewrite strings_of_strings.
  destruct (check_each_spec (map VStr ids) Q ∅ 0 0) as (results' & -> & Hlook).
  destruct (filter_id_set ids Q) as [-> ->].
  unfold ret. eexists. split; [reflexivity |]. simpl.
  repeat split.
  - intros q Hq Hproto. rewrite Hlook.
    rewrite bool_decide_eq_true_2 by done.
    f_equal. apply bool_decide_ext, id_set_strings.
  - intros q Hq. rewrite Hlook. rewrite bool_decide_eq_false_2; [done | tauto].
  - rewrite Hlook. rewrite bool_decide_eq_false_2; [done | tauto].
Qed.

End CheckAssetsProperties.

(** An album holding the assets [a] and [b], and a remote that serves it. *)
Definition album_1 : value :=
  VObj [("id", VStr "album-1");
        ("assets", VArr [VObj [("id", VStr "a")]; VObj [("id", VStr "b")]])].

Definition album_ab (_ : Request) : HttpOutcome := Responded 200 album_1.

(** The example of the specification, the album queried for [a] and [c], and
    the same query with [__proto__] added to it: the id is counted as a
    non-member and the [results] object is the one of the first query. *)
Lemma checkAssetsInAlbum_membership_witness :
  (exists r,
     fst (AlbumsTool.checkAssetsInAlbum
            (VObj [("albumId", VStr "album-1");
                   ("assetIds", VArr [VStr "a"; VStr "c"])])
            (Sim.boot [] album_ab)) = Ok r
     /\ AlbumsTool.results r = {[ "a" := true; "c" := false ]}
     /\ AlbumsTool.memberCount r = 1
     /\ AlbumsTool.nonMemberCount r = 1)
  /\ (exists r,
        fst (AlbumsTool.checkAssetsInAlbum
               (VObj [("albumId", VStr "album-1");
                      ("assetIds", VArr [VStr "a"; VStr "c"; VStr "__proto__"])])
               (Sim.boot [] album_ab)) = Ok r
        /\ AlbumsTool.results r = {[ "a" := true; "c" := false ]}
        /\ AlbumsTool.memberCount r = 1
        /\ AlbumsTool.nonMemberCount r = 2).
Proof.
  assert (album_assets album_1 ["a"; "b"]) as Halbum.
  { right. eexists. split; [reflexivity |]. repeat constructor. }
  split.
  - destruct (checkAssetsInAlbum_membership "album-1" ["a"; "c"] album_1
                ["a"; "b"]
                (Sim.boot [] album_ab)
                (snd (Client.get "/api/albums/album-1" VUndefined true
                        (Sim.boot [] album_ab))))
      as (r & Hrun & _ & Hin & Hout & _ & Hm & Hn);
      [discriminate | discriminate | vm_compute; reflexivity | exact Halbum |].
    exists r. simpl in Hrun. rewrite Hrun. split; [reflexivity |].
    split; [| split; [rewrite Hm | rewrite Hn]; vm_compute; reflexivity].
    apply map_eq. intros q.
    destruct (decide (q = "a")) as [-> | Ha].
    { rewrite Hin by (set_solver || discriminate). vm_compute. reflexivity. }
    destruct (decide (q = "c")) as [-> | Hc].
    { rewrite Hin by (set_solver || discriminate). vm_compute. reflexivity. }
    rewrite Hout by set_solver.
    rewrite lookup_insert_ne by done. now rewrite lookup_singleton_ne.
  - destruct (checkAssetsInAlbum_membership "album-1" ["a"; "c"; "__proto__"]
                album_1 ["a"; "b"]
                (Sim.boot [] album_ab)
                (snd (Client.get "/api/albums/album-1" VUndefined true
                        (Sim.boot [] album_ab))))
      as (r & Hrun & _ & Hin & Hout & Hproto & Hm & Hn);
      [discriminate | discriminate | vm_compute; reflexivity | exact Halbum |].
    exists r. simpl in Hrun. rewrite Hrun. split; [reflexivity |].
    split; [| split; [rewrite Hm | rewrite Hn]; vm_compute; reflexivity].
    apply map_eq. intros q.
    destruct (decide (q = "a")) as [-> | Ha].
    { rewrite Hin by (set_solver || discriminate). vm_compute. reflexivity. }
    destruct (decide (q = "c")) as [-> | Hc].
    { rewrite Hin by (set_solver || discriminate). vm_compute. reflexivity. }
    destruct (decide (q = "__proto__")) as [-> | Hp].
    { rewrite Hproto. vm_compute. reflexivity. }
    rewrite Hout by set_solver.
    rewrite lookup_insert_ne by done. now rewrite lookup_singleton_ne.
Defined.

(** ** The upload pipeline *)

Section UploadProperties.
Context {E : Type} `{!Platform E}.

(** The request [uploadAsset] hands to the network. *)
Definition upload_request (form : UploadForm) : Request :=
  {| req_method := POST; req_url := "/api/assets";
     req_params := VUndefined; req_body := FormBody form |}.

(** The entry pushed onto [uploaded] for a file whose upload returned
    [result]. *)
Definition uploaded_entry (path : string) (result : value)
  : AssetsTool.Uploaded :=
  {| AssetsTool.filePath := path;
     AssetsTool.assetId := get_opt result "id";
     AssetsTool.status := Js.or (get_opt result "status") (VStr "created") |}.

(** The entry pushed onto [failed] for a file whose upload threw [x]. *)
Definition failed_entry (path : string) (x : exn) : AssetsTool.Failed :=
  {| AssetsTool.failedPath := path;
     AssetsTool.failedError := Js.or (exn_message x) (VStr "Unknown error") |}.

(** [uploadAsset] either throws before touching the network or is one
    multipart request. *)
Lemma uploadAsset_cases (path : string) (options : option Client.UploadOptions)
    (w : World E) :
  (exists x, Client.uploadAsset path options w = (Throw x, w))
  \/ (exists form,
        Client.uploadAsset path options w
        = Client.request (upload_request form) w).
Proof.
  unfold Client.uploadAsset, Client.date_now. run.
  destruct (existsSync (env w) (path_resolve (env w) path)); simpl; [| eauto].
  destruct (statSync (env w) (path_resolve (env w) path)) as [stats | x];
    simpl; [| eauto].
  right. destruct options as [[[[o1 o2] o3] o4] |]; eexists; reflexivity.
Qed.

Lemma uploadAsset_missing (path : string) (options : option Client.UploadOptions)
    (w : World E) :
  existsSync (env w) (path_resolve (env w) path) = false ->
  Client.uploadAsset path options w
  = (Throw (JsError ("File not found: " +:+ path_resolve (env w) path)), w).
Proof.
  intros Hmissing. unfold Client.uploadAsset. run. now rewrite Hmissing.
Qed.

(** The requests a computation added are all file uploads. *)
Definition only_uploads (w w' : World E) : Prop :=
  api w' = api w
  /\ exists reqs,
       trace w' = trace w ++ reqs
       /\ Forall (fun r => req_method r = POST /\ req_url r = "/api/assets") reqs.

Lemma only_uploads_refl (w : World E) : only_uploads w w.
Proof. split; [reflexivity |]. exists []. now rewrite app_nil_r. Qed.

Lemma only_uploads_trans (w1 w2 w3 : World E) :
  only_uploads w1 w2 -> only_uploads w2 w3 -> only_uploads w1 w3.
Proof.
  intros [Hapi1 (r1 & Ht1 & Hf1)] [Hapi2 (r2 & Ht2 & Hf2)].
  split; [congruence |]. exists (r1 ++ r2).
  rewrite Ht2, Ht1, app_assoc. split; [reflexivity |]. now apply Forall_app.
Qed.

Lemma uploadAsset_only_uploads (path : string)
    (options : option Client.UploadOptions) (w w' : World E) r :
  Client.uploadAsset path options w = (r, w') -> only_uploads w w'.
Proof.
  destruct (uploadAsset_cases path options w) as [[x ->] | [form ->]].
  - intros [= _ <-]. apply only_uploads_refl.
  - destruct (request_sent (upload_request form) w) as (r0 & e' & ->).
    intros [= _ <-]. split; [reflexivity |].
    exists [upload_request form]. split; [reflexivity |].
    constructor; [split; reflexivity | constructor].
Qed.

(** One iteration never throws: it records the file as uploaded when
    [uploadAsset] returned a body whose fields can be read, as failed
    otherwise. *)
Lemma upload_one_cases (path : string)
    (acc : list AssetsTool.Uploaded * list AssetsTool.Failed) (w : World E) :
  exists w',
    only_uploads w w'
    /\ ((exists result,
           Client.uploadAsset path None w = (Ok result, w')
           /\ nullish result = false
           /\ AssetsTool.upload_one path acc w
              = (Ok (fst acc ++ [uploaded_entry path result], snd acc), w'))
        \/ (exists x,
              (Client.uploadAsset path None w = (Throw x, w')
               \/ exists result,
                    Client.uploadAsset path None w = (Ok result, w')
                    /\ get_prop result "id" = Throw x)
              /\ AssetsTool.upload_one path acc w
                 = (Ok (fst acc, snd acc ++ [failed_entry path x]), w'))).
Proof.
  unfold AssetsTool.upload_one. run.
  destruct (Client.uploadAsset path None w) as [[result | x] w'] eqn:Hup.
  - exists w'. split; [eapply uploadAsset_only_uploads; eauto |].
    destruct result; simpl; eauto 10.
  - exists w'. split; [eapply uploadAsset_only_uploads; eauto |].
    right. exists x. eauto.
Qed.

Lemma upload_each_app (ps qs : list string)
    (acc : list AssetsTool.Uploaded * list AssetsTool.Failed) (w : World E) :
  AssetsTool.upload_each (ps ++ qs) acc w
  = bind (AssetsTool.upload_each ps acc) (AssetsTool.upload_each qs) w.
Proof.
  revert acc w. induction ps as [| p ps IH]; intros acc w; [reflexivity |].
  simpl. unfold bind.
  destruct (AssetsTool.upload_one p acc w) as [[acc' | x] w']; [| reflexivity].
  now rewrite IH.
Qed.

(** The loop never throws, keeps what was recorded before it and adds only
    upload requests to the trace. *)
Lemma upload_each_total (paths : list string)
    (acc : list AssetsTool.Uploaded * list AssetsTool.Failed) (w : World E) :
  exists up fl w',
    AssetsTool.upload_each paths acc w = (Ok (up, fl), w')
    /\ only_uploads w w'.
Proof.
  revert acc w. induction paths as [| p rest IH]; intros acc w; simpl.
  - destruct acc as [up fl]. exists up, fl, w. split; [reflexivity |].
    apply only_uploads_refl.
  - unfold bind.
    destruct (upload_one_cases p acc w)
      as (w' & Honly & [(result & _ & _ & ->) | (x & _ & ->)]);
      match goal with
      | |- context [AssetsTool.upload_each rest ?a w'] =>
          destruct (IH a w') as (up & fl & w'' & -> & Honly')
      end;
      exists up, fl, w''; (split; [reflexivity |]);
      eapply only_uploads_trans; eauto.
Qed.

(** Every file of the list uploads, one after the other starting in [w]:
    the entries recorded for them and the world this leaves. *)
Fixpoint uploads_succeed (paths : list string) (w : World E)
  : option (list AssetsTool.Uploaded * World E) :=
  match paths with
  | [] => Some ([], w)
  | path :: rest =>
      match Client.uploadAsset path None w with
      | (Ok result, w') =>
          if nullish result then None
          else
            match uploads_succeed rest w' with
            | Some (entries, w'') =>
                Some (uploaded_entry path result :: entries, w'')
            | None => None
            end
      | (Throw _, _) => None
      end
  end.

Lemma uploads_succeed_paths (paths : list string) (w w' : World E) entries :
  uploads_succeed paths w = Some (entries, w') ->
  map AssetsTool.filePath entries = paths.
Proof.
  revert w w' entries.
  induction paths as [| p rest IH]; intros w w' entries; simpl.
  - now intros [= <- _].
  - destruct (Client.uploadAsset p None w) as [[result | x] w1]; [| discriminate].
    destruct (nullish result); [discriminate |].
    destruct (uploads_succeed rest w1) as [[es w2] |] eqn:Hrest; [| discriminate].
    intros [= <- _]. simpl. now rewrite (IH _ _ _ Hrest).
Qed.

Lemma upload_each_succeed (paths : list string) (w w' : World E) entries
    (acc : list AssetsTool.Uploaded * list AssetsTool.Failed) :
  uploads_succeed paths w = Some (entries, w') ->
  AssetsTool.upload_each paths acc w = (Ok (fst acc ++ entries, snd acc), w').
Proof.
  revert w entries acc.
  induction paths as [| p rest IH]; intros w entries acc; simpl.
  - intros [= <- <-]. unfold ret. rewrite app_nil_r. now destruct acc.
  - destruct (Client.uploadAsset p None w) as [[result | x] w1] eqn:Hup;
      [| discriminate].
    destruct (nullish result) eqn:Hnull; [discriminate |].
    destruct (uploads_succeed rest w1) as [[es w2] |] eqn:Hrest; [| discriminate].
    intros [= <- <-]. unfold bind, AssetsTool.upload_one. run. rewrite Hup.
    destruct result; try discriminate; simpl;
      rewrite (IH _ _ _ Hrest); simpl; now rewrite <- app_assoc.
Qed.

(** The album step never throws. *)
Lemma attach_to_album_total (albumId albumName : value)
    (uploaded : list AssetsTool.Uploaded) (w : World E) :
  exists target w',
    AssetsTool.attach_to_album albumId albumName uploaded w = (Ok target, w').
Proof.
  unfold AssetsTool.attach_to_album. unfold try_catch at 1. unfold bind at 1.
  match goal with
  | |- context [match ?m w with _ => _ end] =>
      destruct (m w) as [[target | x] w1]
  end.
  - unfold try_catch, bind, ret.
    match goal with
    | |- context [Client.put ?u ?d w1] =>
        destruct (Client.put u d w1) as [[d' | x] w2]
    end; eauto.
  - unfold ret. eauto.
Qed.

(** [uploadAssets] is the loop followed by the album step, and its result
    carries the loop's two lists unchanged. *)
Lemma uploadAssets_result (args : AssetsTool.UploadArgs) (w w1 : World E) up fl :
  AssetsTool.upload_each (AssetsTool.filePaths args) ([], []) w
  = (Ok (up, fl), w1) ->
  exists target w2,
    AssetsTool.uploadAssets args w
    = (Ok {| AssetsTool.success := (length fl =? 0)%nat;
             AssetsTool.uploaded := up;
             AssetsTool.failed := fl;
             AssetsTool.resultAlbumId := target |}, w2).
Proof.
  intros Hloop. unfold AssetsTool.uploadAssets. unfold bind at 1.
  rewrite Hloop. unfold bind, ret.
  destruct (truthy _ && _).
  - destruct (attach_to_album_total (of_opt (AssetsTool.albumId args))
                (of_opt (AssetsTool.albumName args)) up w1)
      as (target & w2 & ->).
    eauto.
  - eauto.
Qed.

(** C1.  Let the batch be [before ++ missing :: after], where the files of
    [before] upload one after the other, the file [missing] does not exist
    when its turn comes, and the files of [after] then upload as well.  The
    loop attempts every file and ends in the world the uploads of [after]
    leave; the result lists the uploads of [before] and [after] in input
    order (one fewer than the batch), has exactly one failed entry, which
    carries the path [missing] and the file-not-found message, and
    [success] is [false]. *)
Theorem one_missing_file (before after : list string) (missing : string)
    (albumId albumName : option string) (w w1 w2 : World E)
    (entries1 entries2 : list AssetsTool.Uploaded) :
  uploads_succeed before w = Some (entries1, w1) ->
  existsSync (env w1) (path_resolve (env w1) missing) = false ->
  uploads_succeed after w1 = Some (entries2, w2) ->
  let args := {| AssetsTool.filePaths := before ++ missing :: after;
                 AssetsTool.albumId := albumId;
                 AssetsTool.albumName := albumName |} in
  let lost := {| AssetsTool.failedPath := missing;
                 AssetsTool.failedError :=
                   VStr ("File not found: " +:+ path_resolve (env w1) missing) |} in
  AssetsTool.upload_each (AssetsTool.filePaths args) ([], []) w
  = (Ok (entries1 ++ entries2, [lost]), w2)
  /\ exists r w3,
       AssetsTool.uploadAssets args w = (Ok r, w3)
       /\ AssetsTool.uploaded r = entries1 ++ entries2
       /\ map AssetsTool.filePath (AssetsTool.uploaded r) = before ++ after
       /\ length (AssetsTool.uploaded r)
          = (length (AssetsTool.filePaths args) - 1)%nat
       /\ AssetsTool.failed r = [lost]
       /\ AssetsTool.success r = false.
Proof.
  intros Hbefore Hmissing Hafter args lost.
  assert (AssetsTool.upload_each (AssetsTool.filePaths args) ([], []) w
          = (Ok (entries1 ++ entries2, [lost]), w2)) as Hloop.
  { simpl. rewrite upload_each_app. unfold bind at 1.
    rewrite (upload_each_succeed _ _ _ _ _ Hbefore). simpl.
    unfold bind at 1. unfold AssetsTool.upload_one, try_catch. unfold bind at 1.
    rewrite (uploadAsset_missing _ _ _ Hmissing). unfold ret at 1.
    rewrite (upload_each_succeed _ _ _ _ _ Hafter). simpl.
    reflexivity. }
  split; [exact Hloop |].
  destruct (uploadAssets_result args w w2 _ _ Hloop) as (target & w3 & Hrun).
  eexists _, w3. split; [exact Hrun |]. simpl.
  assert (map AssetsTool.filePath (entries1 ++ entries2) = before ++ after)
    as Hpaths.
  { rewrite map_app.
    now rewrite (uploads_succeed_paths _ _ _ _ Hbefore),
      (uploads_succeed_paths _ _ _ _ Hafter). }
  repeat split; [exact Hpaths |].
  rewrite <- (length_map AssetsTool.filePath), Hpaths, !length_app. simpl. lia.
Qed.

(** C4.  For every batch and every world, [uploadAssets] returns a result
    (nothing is thrown, whatever happens during album resolution and
    attachment, which by themselves never throw either), and the result's
    [uploaded] and [failed] are exactly the two lists the upload loop
    produced, with [success] true exactly when [failed] is empty. *)
Theorem album_failure_is_absorbed (args : AssetsTool.UploadArgs) (w : World E) :
  (exists up fl w1 r w2,
     AssetsTool.upload_each (AssetsTool.filePaths args) ([], []) w
     = (Ok (up, fl), w1)
     /\ AssetsTool.uploadAssets args w = (Ok r, w2)
     /\ AssetsTool.uploaded r = up
     /\ AssetsTool.failed r = fl
     /\ (AssetsTool.success r = true <-> AssetsTool.failed r = []))
  /\ (forall albumId albumName uploaded (w0 : World E),
        exists target w',
          AssetsTool.attach_to_album albumId albumName uploaded w0
          = (Ok target, w')).
Proof.
  split; [| apply attach_to_album_total].
  destruct (upload_each_total (AssetsTool.filePaths args) ([], []) w)
    as (up & fl & w1 & Hloop & _).
  destruct (uploadAssets_result args w w1 up fl Hloop) as (target & w2 & Hrun).
  exists up, fl, w1. eexists _, w2.
  split; [exact Hloop |]. split; [exact Hrun |]. simpl.
  repeat split.
  - destruct fl; [reflexivity | discriminate].
  - now intros ->.
Qed.

(** C10.  When the caller supplied an [albumId] and the loop recorded no
    upload, the result's [albumId] is the caller's value, the batch ends in the
    world the loop left (no album call is made), and every request on the
    trace since the start is a file upload to [/api/assets]. *)
Theorem no_upload_no_album_call (paths : list string) (suppliedId : string)
    (albumName : option string) (w w1 : World E)
    (fl : list AssetsTool.Failed) :
  AssetsTool.upload_each paths ([], []) w = (Ok ([], fl), w1) ->
  AssetsTool.uploadAssets
    {| AssetsTool.filePaths := paths;
       AssetsTool.albumId := Some suppliedId;
       AssetsTool.albumName := albumName |} w
  = (Ok {| AssetsTool.success := (length fl =? 0)%nat;
           AssetsTool.uploaded := [];
           AssetsTool.failed := fl;
           AssetsTool.resultAlbumId := VStr suppliedId |}, w1)
  /\ only_uploads w w1.
Proof.
  intros Hloop. split.
  - unfold AssetsTool.uploadAssets. unfold bind at 1. simpl.
    rewrite Hloop. unfold bind, ret. simpl.
    now rewrite andb_false_r.
  - destruct (upload_each_total paths ([], []) w) as (up & fl' & w' & Hrun & Honly).
    rewrite Hloop in Hrun. now injection Hrun as <- <- <-.
Qed.

End UploadProperties.

(** ** Album resolution by name *)

Section AlbumResolutionProperties.
Context {E : Type} `{!Platform E}.

(** The name of an album of the listing, when it is an object with a string
    [albumName]. *)
Definition album_name (a : value) : option string :=
  match get_opt a "albumName" with
  | VStr n => Some n
  | _ => None
  end.

(** The album's name equals [name] case-insensitively. *)
Definition same_name (name : string) (a : value) : Prop :=
  exists n, album_name a = Some n /\ toLowerCase n = toLowerCase name.

(** [POST /api/albums] with the name, and [PUT /api/albums/<id>/assets] with
    the uploaded asset ids. *)
Definition create_request (name : string) : Request :=
  {| req_method := POST; req_url := "/api/albums";
     req_params := VUndefined;
     req_body := JsonBody (VObj [("albumName", VStr name)]) |}.

Definition attach_request (target : value)
    (uploaded : list AssetsTool.Uploaded) : Request :=
  {| req_method := PUT;
     req_url := "/api/albums/" +:+ to_string target +:+ "/assets";
     req_params := VUndefined;
     req_body :=
       JsonBody (VObj [("ids", VArr (map AssetsTool.assetId uploaded))]) |}.

Lemma album_name_object (a : value) (n : string) :
  album_name a = Some n ->
  get_prop a "albumName" = Ok (VStr n) /\ truthy a = true.
Proof.
  unfold album_name. destruct a; simpl; try discriminate.
  destruct (lookup_prop "albumName" props); try discriminate.
  now intros [= ->].
Qed.

Lemma find_album_found (albums : list value) (name : string) :
  Forall (fun a => is_Some (album_name a)) albums ->
  Exists (same_name name) albums ->
  exists existing,
    AssetsTool.find_album albums name = Ok existing
    /\ existing ∈ albums
    /\ same_name name existing
    /\ truthy existing = true.
Proof.
  induction albums as [| a rest IH]; intros Hwf Hex.
  - inversion Hex.
  - apply Forall_cons in Hwf as [[n Hn] Hrest].
    destruct (album_name_object a n Hn) as [Hprop Htruthy].
    simpl. rewrite Hprop.
    destruct (String.eqb_spec (toLowerCase n) (toLowerCase name)) as [Heq | Hne].
    + exists a. repeat split; [apply list_elem_of_here | | exact Htruthy].
      exists n. auto.
    + destruct IH as (existing & Hfind & Hin & Hsame & Ht); [exact Hrest | |].
      { apply Exists_cons in Hex as [(n' & Hn' & Heq) | Hex]; [| exact Hex].
        congruence. }
      exists existing. repeat split; auto. now apply list_elem_of_further.
Qed.

Lemma find_album_none (albums : list value) (name : string) :
  Forall (fun a => is_Some (album_name a)) albums ->
  Forall (fun a => ~ same_name name a) albums ->
  AssetsTool.find_album albums name = Ok VUndefined.
Proof.
  induction albums as [| a rest IH]; intros Hwf Hnone; [reflexivity |].
  apply Forall_cons in Hwf as [[n Hn] Hrest].
  apply Forall_cons in Hnone as [Ha Hnone].
  destruct (album_name_object a n Hn) as [Hprop _].
  simpl. rewrite Hprop.
  destruct (String.eqb_spec (toLowerCase n) (toLowerCase name)) as [Heq | Hne].
  - exfalso. apply Ha. exists n. auto.
  - now apply IH.
Qed.

Lemma get_prop_defined (v : value) (k : string) :
  nullish v = false -> get_prop v k = Ok (get_opt v k).
Proof. now destruct v. Qed.

Lemma truthy_defined (v : value) : truthy v = true -> nullish v = false.
Proof. now destruct v. Qed.

(** Once [find_or_create] has produced the target, the album step sends the
    one [PUT] and returns the target whether or not the [PUT] succeeds. *)
Lemma attach_after_resolution (albumId : value) (name : string)
    (up : list AssetsTool.Uploaded) (w2 w' : World E) (target : value) :
  truthy albumId = false ->
  truthy (VStr name) = true ->
  AssetsTool.find_or_create name w2 = (Ok target, w') ->
  exists e',
    AssetsTool.attach_to_album albumId (VStr name) up w2
    = (Ok target, sent (attach_request target up) e' w').
Proof.
  intros HnoId Hname Hresolve.
  unfold AssetsTool.attach_to_album. rewrite HnoId, Hname. simpl negb. simpl andb.
  unfold try_catch at 1. unfold bind at 1. rewrite Hresolve.
  unfold try_catch, bind, ret, Client.put, Client.send.
  fold (attach_request target up).
  destruct (request_sent (attach_request target up) w') as (r & e' & ->).
  exists e'. now destruct r.
Qed.

(** With a name, no id and at least one upload, the batch result is the
    loop's outcome together with what the album step returns. *)
Lemma uploadAssets_with_name (paths : list string) (albumId : option string)
    (name : string) (w w1 w' : World E) (up : list AssetsTool.Uploaded)
    (fl : list AssetsTool.Failed) (target : value) :
  truthy (of_opt albumId) = false ->
  truthy (VStr name) = true ->
  AssetsTool.upload_each paths ([], []) w = (Ok (up, fl), w1) ->
  up <> [] ->
  AssetsTool.attach_to_album (of_opt albumId) (VStr name) up w1
  = (Ok target, w') ->
  AssetsTool.uploadAssets
    {| AssetsTool.filePaths := paths;
       AssetsTool.albumId := albumId;
       AssetsTool.albumName := Some name |} w
  = (Ok {| AssetsTool.success := (length fl =? 0)%nat;
           AssetsTool.uploaded := up;
           AssetsTool.failed := fl;
           AssetsTool.resultAlbumId := target |}, w').
Proof.
  intros HnoId Hname Hloop Hup Hattach.
  unfold AssetsTool.uploadAssets. unfold bind at 1. simpl.
  rewrite Hloop. unfold bind at 1. unfold Js.or. rewrite HnoId.
  cbv beta iota. rewrite Hname.
  destruct up as [| u up']; [done |].
  change (0 <? length (u :: up'))%nat with true.
  change (true && true) with true. cbv iota.
  rewrite Hattach. reflexivity.
Qed.

End AlbumResolutionProperties.

(** *** Closed runs of the upload pipeline *)

(** A batch of three files whose second one does not exist. *)
Definition three_files : World Sim.Env :=
  Sim.boot ["/srv/a.jpg"; "/photos/c.jpg"]
           (Sim.immich [Sim.album "album-1" "Summer Trip"]).

Lemma one_missing_file_witness :
  exists r,
    fst (AssetsTool.uploadAssets
           {| AssetsTool.filePaths := ["a.jpg"; "b.jpg"; "/photos/c.jpg"];
              AssetsTool.albumId := None;
              AssetsTool.albumName := None |} three_files) = Ok r
    /\ map AssetsTool.filePath (AssetsTool.uploaded r) = ["a.jpg"; "/photos/c.jpg"]
    /\ AssetsTool.failed r
       = [ {| AssetsTool.failedPath := "b.jpg";
              AssetsTool.failedError := VStr "File not found: /srv/b.jpg" |} ]
    /\ AssetsTool.success r = false.
Proof.
  edestruct (one_missing_file (E := Sim.Env) ["a.jpg"] ["/photos/c.jpg"] "b.jpg"
               None None three_files)
    as [_ (r & w3 & Hrun & _ & Hpaths & _ & Hfailed & Hsuccess)];
    [vm_compute; reflexivity | vm_compute; reflexivity
    | vm_compute; reflexivity |].
  exists r. simpl in Hrun. rewrite Hrun. auto.
Defined.

Lemma no_upload_no_album_call_witness :
  exists fl,
    fst (AssetsTool.uploadAssets
           {| AssetsTool.filePaths := ["b.jpg"];
              AssetsTool.albumId := Some "album-1";
              AssetsTool.albumName := None |} three_files)
    = Ok {| AssetsTool.success := false;
            AssetsTool.uploaded := [];
            AssetsTool.failed := fl;
            AssetsTool.resultAlbumId := VStr "album-1" |}
    /\ trace (snd (AssetsTool.uploadAssets
                     {| AssetsTool.filePaths := ["b.jpg"];
                        AssetsTool.albumId := Some "album-1";
                        AssetsTool.albumName := None |} three_files)) = [].
Proof.
  edestruct (no_upload_no_album_call (E := Sim.Env) ["b.jpg"] "album-1" None
               three_files) as [Hrun _]; [vm_compute; reflexivity |].
  eexists. rewrite Hrun. split; reflexivity.
Defined.

(** With the album routes of the remote out of order the upload still
    succeeds and the batch reports it; no album identifier was resolved. *)
Example album_failure_example :
  fst (AssetsTool.uploadAssets
         {| AssetsTool.filePaths := ["a.jpg"];
            AssetsTool.albumId := None;
            AssetsTool.albumName := Some "Winter" |}
         (Sim.boot ["/srv/a.jpg"] Sim.immich_albums_down))
  = Ok {| AssetsTool.success := true;
          AssetsTool.uploaded :=
            [ {| AssetsTool.filePath := "a.jpg";
                 AssetsTool.assetId := VStr "asset:a.jpg";
                 AssetsTool.status := VStr "created" |} ];
          AssetsTool.failed := [];
          AssetsTool.resultAlbumId := VUndefined |}.
Proof. vm_compute. reflexivity. Qed.

(** ** Dispatch and validation *)

Section DispatchProperties.
Context {E : Type} `{!Platform E}.

(** Rethrowing in the dispatcher's [catch] changes nothing. *)
Lemma rethrow {A} (m : M E A) (w : World E) :
  try_catch m (fun error => throw error) w = m w.
Proof. unfold try_catch, throw. now destruct (m w) as [[a | x] w']. Qed.

(** A request is on the trace once and never ends in a validation error. *)
Lemma request_not_validation (req : Request) (w : World E) :
  exists r e',
    Client.request req w = (r, sent req e' w)
    /\ forall msg, r <> Throw (ZodError msg).
Proof.
  unfold Client.request.
  destruct (http (env w) req) as [[status d | msg] e'];
    [destruct (Client.validateStatus status) |];
    eexists _, e'; (split; [reflexivity | discriminate]).
Qed.

(** A cached [get] that finds no entry makes exactly one request and either
    returns its body or throws the normalized error. *)
Lemma get_miss (endpoint : string) (params : value) (w : World E) :
  cache (api w) !! Client.cacheKey endpoint params = None ->
  exists r w',
    Client.get endpoint params true w = (r, w')
    /\ trace w' = trace w ++ [request_of GET endpoint params]
    /\ forall msg, r <> Throw (ZodError msg).
Proof.
  intros Hmiss.
  destruct (request_not_validation (request_of GET endpoint params) w)
    as (r & e' & Hreq & Hr).
  unfold Client.get. run.
  rewrite (getFromCache_absent _ w Hmiss). simpl. rewrite Hreq.
  destruct r as [d | x].
  - eexists _, _. split; [reflexivity |]. split; [reflexivity | discriminate].
  - eexists _, _. split; [reflexivity |]. split; [reflexivity | exact Hr].
Qed.

(** C5 fails on the code at [search_metadata]: the arguments [{size: 5000}]
    violate the tool's declared input shape (the catalog bounds [size] by
    1000), yet dispatching the tool raises no validation error; the handler
    passes the value on, and unless the cache already holds an answer for it
    the request [GET /api/search/metadata] with [size: 5000] goes to the
    network. *)
Theorem metadata_search_is_not_validated (w : World E) :
  let args := VObj [("size", VNum 5000)] in
  let params := VObj [("page", VNum 1); ("size", VNum 5000)] in
  (exists declared,
     SearchTool.inputSchema "search_metadata" = Some declared
     /\ is_ok (Zod.parse declared args) = false)
  /\ SearchTool.handleTool "search_metadata" args w
     = Client.get "/api/search/metadata" params true w
  /\ (cache (api w) !! Client.cacheKey "/api/search/metadata" params = None ->
      exists r w',
        SearchTool.handleTool "search_metadata" args w = (r, w')
        /\ trace w' = trace w ++ [request_of GET "/api/search/metadata" params]
        /\ forall msg, r <> Throw (ZodError msg)).
Proof.
  intros args params.
  assert (SearchTool.handleTool "search_metadata" args w
          = Client.get "/api/search/metadata" params true w) as Hrun.
  { unfold SearchTool.handleTool. rewrite rethrow. reflexivity. }
  split; [| split; [exact Hrun |]].
  - eexists. split; reflexivity.
  - intros Hmiss. rewrite Hrun. now apply get_miss.
Qed.

(** The same slip in [assets_get_random]: a [count] of 1000, above the
    declared maximum of 100, is passed on as it is. *)
Lemma random_assets_is_not_validated (w : World E) :
  is_ok (Zod.parse AssetsTool.assets_get_random_inputSchema
                   (VObj [("count", VNum 1000)])) = false
  /\ AssetsTool.getRandomAssets (VObj [("count", VNum 1000)]) w
     = Client.get "/api/assets/random" (VObj [("count", VNum 1000)]) true w.
Proof. split; reflexivity. Qed.

(** The sibling handler [search_general] parses its arguments: the same
    arguments raise a validation error there and the world is untouched. *)
Lemma general_search_is_validated (w : World E) :
  SearchTool.handleTool "search_general" (VObj [("size", VNum 5000)]) w
  = (Throw (ZodError "Number must be less than or equal to 1000"), w).
Proof. unfold SearchTool.handleTool. rewrite rethrow. reflexivity. Qed.

End DispatchProperties.

Lemma metadata_search_is_not_validated_witness :
  fst (SearchTool.handleTool "search_metadata" (VObj [("size", VNum 5000)])
         (Sim.boot [] (Sim.immich [])))
  = Throw (ApiError not_found_error)
  /\ trace (snd (SearchTool.handleTool "search_metadata"
                   (VObj [("size", VNum 5000)]) (Sim.boot [] (Sim.immich []))))
     = [request_of GET "/api/search/metadata"
          (VObj [("page", VNum 1); ("size", VNum 5000)])].
Proof.
  destruct (metadata_search_is_not_validated (Sim.boot [] (Sim.immich [])))
    as (_ & Hrun & _).
  rewrite Hrun. split; vm_compute; reflexivity.
Defined.

(** * Further properties of the client *)

Section ClientCacheDiscipline.
Context {E : Type} `{!Platform E}.

(** The world with the client's cache replaced by [c]. *)
Definition with_cache (c : gmap string CacheEntry) (w : World E) : World E :=
  {| env := env w;
     api := {| cache := c; cacheTtl := cacheTtl (api w) |};
     trace := trace w |}.

(** X1.  The mutating verbs ([post], [put], [patch], [delete]) and a [get]
    without cache participation neither consult nor update the cache: run
    with any other cache content they return the same result, make the same
    exchange and leave that content as it was. *)
Theorem verbs_bypass_cache (m : Method) (endpoint : string) (payload : value)
    (w : World E) (c : gmap string CacheEntry) :
  verb m endpoint payload (with_cache c w)
  = (fst (verb m endpoint payload w),
     with_cache c (snd (verb m endpoint payload w)))
  /\ api (snd (verb m endpoint payload w)) = api w.
Proof.
  rewrite !verb_is_request. unfold Client.request, with_cache. simpl.
  destruct (http (env w) (request_of m endpoint payload))
    as [[status d | msg] e'];
    [destruct (Client.validateStatus status) |]; simpl; split; reflexivity.
Qed.

(** X2.  After [clearCache] every lookup misses, and a cached [get] of any
    endpoint goes to the network with exactly one request, whatever the cache
    held before. *)
Theorem clearCache_forces_refetch (endpoint : string) (params : value)
    (w : World E) :
  (forall key,
     Client.getFromCache key (snd (Client.clearCache w))
     = (Ok VNull, snd (Client.clearCache w)))
  /\ exists r w',
       Client.get endpoint params true (snd (Client.clearCache w)) = (r, w')
       /\ trace w' = trace w ++ [request_of GET endpoint params].
Proof.
  split.
  - intros key. apply getFromCache_absent. simpl. apply lookup_empty.
  - destruct (get_miss endpoint params (snd (Client.clearCache w)))
      as (r & w' & Hget & Htrace & _).
    { simpl. apply lookup_empty. }
    exists r, w'. split; [exact Hget | exact Htrace].
Qed.

(** The world after [setCache(key, d)]. *)
Definition stored (key : string) (d : value) (w : World E) : World E :=
  with_cache (<[key := {| data := d; timestamp := now (env w) |}]>
                (cache (api w))) w.

(** A cached [get] whose lookup produced nothing usable is the request
    followed, on success, by [setCache]. *)
Lemma get_through (endpoint : string) (params cached : value) (w w0 : World E) :
  Client.getFromCache (Client.cacheKey endpoint params) w = (Ok cached, w0) ->
  truthy cached = false ->
  Client.get endpoint params true w
  = match Client.request (request_of GET endpoint params) w0 with
    | (Ok d, w') => (Ok d, stored (Client.cacheKey endpoint params) d w')
    | (Throw x, w') => (Throw x, w')
    end.
Proof.
  intros Hlookup Hfalsy. unfold Client.get. unfold bind at 1. unfold bind at 1.
  rewrite Hlookup. unfold ret at 1. rewrite Hfalsy. unfold bind at 1.
  change {| req_method := GET; req_url := endpoint;
            req_params := params; req_body := NoBody |}
    with (request_of GET endpoint params).
  destruct (Client.request (request_of GET endpoint params) w0)
    as [[d | x] w']; reflexivity.
Qed.

(** X3.  A cached payload that is falsy (0, the empty string, [false],
    [null]) is never served: even while its entry is fresh, a cached [get]
    makes the request again, and a successful response replaces the entry. *)
Theorem falsy_payload_is_refetched (endpoint : string) (params : value)
    (entry : CacheEntry) (w : World E) :
  cache (api w) !! Client.cacheKey endpoint params = Some entry ->
  now (env w) - timestamp entry < cacheTtl (api w) ->
  truthy (data entry) = false ->
  exists r e',
    Client.request (request_of GET endpoint params) w
    = (r, sent (request_of GET endpoint params) e' w)
    /\ Client.get endpoint params true w
       = match r with
         | Ok d =>
             (Ok d, stored (Client.cacheKey endpoint params) d
                      (sent (request_of GET endpoint params) e' w))
         | Throw x => (Throw x, sent (request_of GET endpoint params) e' w)
         end.
Proof.
  intros Hentry Hfresh Hfalsy.
  destruct (request_sent (request_of GET endpoint params) w) as (r & e' & Hreq).
  exists r, e'. split; [exact Hreq |].
  rewrite (get_through endpoint params (data entry) w w);
    [| now apply getFromCache_fresh | exact Hfalsy].
  rewrite Hreq. now destruct r.
Qed.

(** X4.  A [get] touches no cache entry but the one of its own key: every
    other entry, expired or not, is left as it was (there is no sweep), and
    the TTL is never changed. *)
Theorem get_touches_only_its_key (endpoint : string) (params : value)
    (useCache : bool) (w : World E) (key : string) :
  key <> Client.cacheKey endpoint params ->
  cache (api (snd (Client.get endpoint params useCache w))) !! key
  = cache (api w) !! key
  /\ cacheTtl (api (snd (Client.get endpoint params useCache w)))
     = cacheTtl (api w).
Proof.
  intros Hkey. destruct useCache.
  - unfold Client.get, Client.getFromCache, Client.cache_get,
      Client.isCacheValid, Client.date_now, Client.this_cacheTtl,
      Client.setCache, Client.cache_set, Client.cache_delete,
      Client.update_cache.
    unfold bind, ret. simpl.
    assert (forall w0 : World E,
              cache (api w0) !! key = cache (api w) !! key ->
              cacheTtl (api w0) = cacheTtl (api w) ->
              let out :=
                match Client.request
                        {| req_method := GET; req_url := endpoint;
                           req_params := params; req_body := NoBody |} w0 with
                | (Ok a, w') =>
                    (Ok a,
                     {| env := env w';
                        api := {| cache :=
                                    <[Client.cacheKey endpoint params :=
                                        {| data := a; timestamp := now (env w') |}]>
                                      (cache (api w'));
                                  cacheTtl := cacheTtl (api w') |};
                        trace := trace w' |})
                | (Throw x, w') => (Throw x, w')
                end in
              cache (api (snd out)) !! key = cache (api w) !! key
              /\ cacheTtl (api (snd out)) = cacheTtl (api w)) as Hnet.
    { intros w0 Hc Ht.
      destruct (request_sent
                  {| req_method := GET; req_url := endpoint;
                     req_params := params; req_body := NoBody |} w0)
        as (r & e' & ->).
      destruct r; simpl; [rewrite lookup_insert_ne by done |]; auto. }
    destruct (cache (api w) !! Client.cacheKey endpoint params) as [c |]; simpl.
    + destruct (now (env w) - timestamp c <? cacheTtl (api w)); simpl.
      * destruct (truthy (data c)); [split; reflexivity |].
        now apply Hnet.
      * apply Hnet; simpl; [now rewrite lookup_delete_ne | reflexivity].
    + now apply Hnet.
  - rewrite get_uncached.
    destruct (request_sent
                {| req_method := GET; req_url := endpoint;
                   req_params := params; req_body := NoBody |} w)
      as (r & e' & ->).
    split; reflexivity.
Qed.


End ClientCacheDiscipline.

Lemma falsy_payload_is_refetched_witness :
  map req_url
      (trace (snd (Client.get "/api/count" VUndefined true
                     (snd (Client.get "/api/count" VUndefined true
                             (Sim.boot [] (fun _ => Responded 200 (VNum 0))))))))
  = ["/api/count"; "/api/count"].
Proof.
  set (w1 := snd (Client.get "/api/count" VUndefined true
                    (Sim.boot [] (fun _ => Responded 200 (VNum 0))))).
  destruct (falsy_payload_is_refetched "/api/count" VUndefined
              {| data := VNum 0; timestamp := 1001 |} w1)
    as (r & e' & Hreq & Hget);
    [vm_compute; reflexivity | vm_compute; reflexivity | reflexivity |].
  rewrite Hget. destruct r; reflexivity.
Defined.

Lemma get_touches_only_its_key_witness :
  cache (api (snd (Client.get "/api/albums/missing" VUndefined true
                     (snd (Client.get "/api/albums" VUndefined true
                             (Sim.boot [] (Sim.immich [])))))))
    !! "GET:/api/albums:{}"
  = Some {| data := VArr []; timestamp := 1001 |}.
Proof.
  destruct (get_touches_only_its_key "/api/albums/missing" VUndefined true
              (snd (Client.get "/api/albums" VUndefined true
                      (Sim.boot [] (Sim.immich []))))
              "GET:/api/albums:{}") as [Hkept _];
    [vm_compute; discriminate |].
  rewrite Hkept. vm_compute. reflexivity.
Defined.

(** * Album resolution against the listing the client reads *)

Section AlbumListing.
Context {E : Type} `{!Platform E}.

(** A cached [get] goes to the network when the cache holds nothing usable
    under its key (no entry, an expired one or a falsy payload); a 2xx
    response is returned and stored under the key. *)
Lemma get_fetched (endpoint : string) (params d : value) (status : Z)
    (e2 : E) (w : World E) :
  (forall entry,
     cache (api w) !! Client.cacheKey endpoint params = Some entry ->
     cacheTtl (api w) <= now (env w) - timestamp entry
     \/ truthy (data entry) = false) ->
  http (env w) (request_of GET endpoint params) = (Responded status d, e2) ->
  Client.validateStatus status = true ->
  Client.get endpoint params true w
  = (Ok d, stored (Client.cacheKey endpoint params) d
             (sent (request_of GET endpoint params) e2 w)).
Proof.
  intros Hunusable Hhttp Hstatus.
  destruct (cache (api w) !! Client.cacheKey endpoint params) as [entry |]
    eqn:Hentry.
  - destruct (Z.lt_ge_cases (now (env w) - timestamp entry) (cacheTtl (api w)))
      as [Hfresh | Hexpired].
    + destruct (Hunusable entry eq_refl) as [Hold | Hfalsy]; [lia |].
      rewrite (get_through endpoint params (data entry) w w);
        [| now apply getFromCache_fresh | exact Hfalsy].
      now rewrite (request_resolved _ w status d e2 Hhttp Hstatus).
    + rewrite (get_through endpoint params VNull w
                 (evicted (Client.cacheKey endpoint params) w));
        [| now apply (getFromCache_expired _ entry) | reflexivity].
      rewrite (request_resolved _ (evicted _ w) status d e2 Hhttp Hstatus).
      f_equal. unfold stored, with_cache, sent, evicted. simpl.
      now rewrite insert_delete_eq.
  - rewrite (get_through endpoint params VNull w w);
      [| now apply getFromCache_absent | reflexivity].
    now rewrite (request_resolved _ w status d e2 Hhttp Hstatus).
Qed.

(** The album listing a batch resolves a name against, read in the world
    [w1] and leaving the world [w2]: the cached answer to [GET /api/albums]
    when the cache holds one younger than the TTL, in which case nothing is
    asked of the remote; otherwise the remote's answer to that request at
    that moment, which is then stored in the cache. *)
Definition album_listing (w1 : World E) (albums : list value) (w2 : World E)
  : Prop :=
  let key := Client.cacheKey "/api/albums" VUndefined in
  let req := request_of GET "/api/albums" VUndefined in
  (exists entry,
     cache (api w1) !! key = Some entry
     /\ now (env w1) - timestamp entry < cacheTtl (api w1)
     /\ data entry = VArr albums
     /\ w2 = w1)
  \/ ((forall entry,
         cache (api w1) !! key = Some entry ->
         cacheTtl (api w1) <= now (env w1) - timestamp entry
         \/ truthy (data entry) = false)
      /\ exists status e2,
           http (env w1) req = (Responded status (VArr albums), e2)
           /\ Client.validateStatus status = true
           /\ w2 = stored key (VArr albums) (sent req e2 w1)).

Lemma album_listing_get (w1 w2 : World E) (albums : list value) :
  album_listing w1 albums w2 ->
  Client.get "/api/albums" VUndefined true w1 = (Ok (VArr albums), w2).
Proof.
  intros [(entry & Hentry & Hfresh & Hdata & ->)
         | (Hunusable & status & e2 & Hhttp & Hstatus & ->)].
  - rewrite <- Hdata. apply get_hit; [exact Hentry | exact Hfresh |].
    now rewrite Hdata.
  - now apply get_fetched with (status := status).
Qed.


End AlbumListing.

(** The world of [three_files] after the albums have been listed once: the
    listing is in the cache. *)
Definition three_files_listed : World Sim.Env :=
  snd (Client.get "/api/albums" VUndefined true three_files).


(** *** An existing album that is not found

    Two batches in a row name the same new album, against a remote that
    starts without albums.  The first batch lists the albums (none), creates
    [Trip] and attaches its upload to it; the listing it read is now in the
    cache.  The second batch, a few requests later and well within the TTL,
    is answered from the cache when it lists the albums: it does not see the
    album the first batch created, creates a second one and attaches its
    upload to that. *)
Definition first_batch : AssetsTool.UploadArgs :=
  {| AssetsTool.filePaths := ["a.jpg"];
     AssetsTool.albumId := None;
     AssetsTool.albumName := Some "Trip" |}.

Definition second_batch : AssetsTool.UploadArgs :=
  {| AssetsTool.filePaths := ["b.jpg"];
     AssetsTool.albumId := None;
     AssetsTool.albumName := Some "trip" |}.

Definition after_first_batch : World Remote.Env :=
  snd (AssetsTool.uploadAssets first_batch
         (Remote.boot ["/srv/a.jpg"; "/srv/b.jpg"] [])).


(** * Further properties of the schemas *)

(** The element-wise pass of [z.array(elem)] over the items. *)
Definition each (f : value -> Result value)
  : list value -> Result (list value) :=
  fix each (l : list value) : Result (list value) :=
    match l with
    | [] => Ok []
    | x :: rest =>
        match f x, each rest with
        | Ok y, Ok ys => Ok (y :: ys)
        | Throw e, _ => Throw e
        | _, Throw e => Throw e
        end
    end.

Lemma parse_array_unfold (elem : Zod.schema) (min : option (nat * string))
    (items : list value) :
  Zod.parse_value (Zod.array_ elem min) (VArr items)
  = match min with
    | Some (n, message) =>
        if (length items <? n)%nat then Throw (ZodError message)
        else
          match each (Zod.parse_value elem) items with
          | Ok parsed => Ok (VArr parsed)
          | Throw e => Throw e
          end
    | None =>
        match each (Zod.parse_value elem) items with
        | Ok parsed => Ok (VArr parsed)
        | Throw e => Throw e
        end
    end.
Proof. destruct min as [[n message] |]; reflexivity. Qed.

Lemma each_throws (f : value -> Result value) (P : exn -> Prop) :
  (forall v x, f v = Throw x -> P x) ->
  forall l x, each f l = Throw x -> P x.
Proof.
  intros Hf. induction l as [| v l IH]; intros x; simpl; [discriminate |].
  destruct (f v) as [y | e] eqn:Hv.
  - destruct (each f l) as [ys | e]; [discriminate |].
    intros [= <-]. now apply IH.
  - intros [= <-]. eapply Hf; eauto.
Qed.

Lemma each_length (f : value -> Result value) (l out : list value) :
  each f l = Ok out -> length out = length l.
Proof.
  revert out. induction l as [| v l IH]; intros out; simpl.
  - now intros [= <-].
  - destruct (f v) as [y | e]; [| discriminate].
    destruct (each f l) as [ys | e]; [| discriminate].
    intros [= <-]. simpl. now rewrite (IH ys).
Qed.

(** A failed parse is a validation error and nothing else. *)
Lemma parse_value_throws (s : Zod.schema) (v : value) (x : exn) :
  Zod.parse_value s v = Throw x -> exists msg, x = ZodError msg.
Proof.
  revert v x. induction s as [min | | lo hi | values | elem IH min | s IH | s IH d];
    intros v x.
  - destruct v; simpl; intros Hx; try (injection Hx as <-; eauto; fail).
    destruct min as [[n message] |]; [| discriminate].
    destruct (String.length s <? n)%nat; [| discriminate].
    injection Hx as <-. eauto.
  - destruct v; simpl; intros Hx; try (injection Hx as <-; eauto; fail).
    discriminate.
  - destruct v; simpl; intros Hx; try (injection Hx as <-; eauto; fail).
    destruct (match lo with
              | Some l => if n <? l then Some l else None
              | None => None
              end); [injection Hx as <-; eauto |].
    destruct (match hi with
              | Some h => if h <? n then Some h else None
              | None => None
              end); [injection Hx as <-; eauto | discriminate].
  - destruct v; simpl; intros Hx; try (injection Hx as <-; eauto; fail).
    destruct (existsb (String.eqb s) values); [discriminate |].
    injection Hx as <-. eauto.
  - destruct v; try (simpl; intros Hx; injection Hx as <-; eauto; fail).
    rewrite parse_array_unfold.
    assert (match each (Zod.parse_value elem) elems with
            | Ok parsed => Ok (VArr parsed)
            | Throw e => Throw e
            end = Throw x -> exists msg, x = ZodError msg) as Helems.
    { destruct (each (Zod.parse_value elem) elems) as [parsed | e] eqn:Heach;
        [discriminate |].
      intros Hx. injection Hx as <-.
      apply (each_throws _ (fun x => exists msg, x = ZodError msg) IH _ _ Heach). }
    destruct min as [[n message] |]; [| exact Helems].
    destruct (length elems <? n)%nat; [| exact Helems].
    intros Hx. injection Hx as <-. eauto.
  - destruct v; simpl; try apply IH. discriminate.
  - destruct v; simpl; apply IH.
Qed.

Lemma lookup_prop_missing (k : string) (props : list (string * value)) :
  k ∉ fst <$> props -> lookup_prop k props = VUndefined.
Proof.
  induction props as [| [k' v] rest IH]; [reflexivity |].
  rewrite fmap_cons, not_elem_of_cons. simpl. intros [Hne Hrest].
  destruct (String.eqb_spec k k'); [done | now apply IH].
Qed.

Lemma parse_fields_throws (sh : Zod.shape) (props : list (string * value))
    (x : exn) :
  Zod.parse_fields sh props = Throw x -> exists msg, x = ZodError msg.
Proof.
  revert x. induction sh as [| [k s] rest IH]; intros x; simpl; [discriminate |].
  destruct (Zod.parse_value s (lookup_prop k props)) as [v | e] eqn:Hv.
  - destruct (Zod.parse_fields rest props) as [out | e].
    + destruct v; try discriminate. destruct (has_prop k props); discriminate.
    + intros Hx. apply IH. destruct v; congruence.
  - intros [= <-]. eapply parse_value_throws; eauto.
Qed.

Lemma parse_throws (sh : Zod.shape) (args : value) (x : exn) :
  Zod.parse sh args = Throw x -> exists msg, x = ZodError msg.
Proof.
  unfold Zod.parse, Zod.invalid_type.
  destruct args; try (intros [= <-]; eauto).
  destruct (Zod.parse_fields sh props) as [out | e] eqn:Hf; [discriminate |].
  intros [= <-]. eapply parse_fields_throws; eauto.
Qed.

(** The output of [parse_fields], field by field: the parsed value of the
    first declared key is set, or left out when it is [undefined]. *)
Lemma parse_fields_cons (k : string) (s : Zod.schema) (rest : Zod.shape)
    (props out : list (string * value)) :
  Zod.parse_fields ((k, s) :: rest) props = Ok out ->
  exists v out',
    Zod.parse_value s (lookup_prop k props) = Ok v
    /\ Zod.parse_fields rest props = Ok out'
    /\ (out = (k, v) :: out' \/ (v = VUndefined /\ out = out')).
Proof.
  simpl.
  destruct (Zod.parse_value s (lookup_prop k props)) as [v | e]; [| discriminate].
  destruct (Zod.parse_fields rest props) as [out' | e];
    [| destruct v; discriminate].
  intros Hout. exists v, out'. repeat split.
  destruct v; try (left; congruence).
  destruct (has_prop k props); [left; congruence | right; split; congruence].
Qed.

(** Only declared keys survive. *)
Lemma parse_fields_keys (sh : Zod.shape) (props out : list (string * value)) :
  Zod.parse_fields sh props = Ok out ->
  forall k, k ∈ fst <$> out -> k ∈ fst <$> sh.
Proof.
  revert out. induction sh as [| [k0 s0] rest IH]; intros out Hparse k Hin.
  - simpl in Hparse. injection Hparse as <-. now apply elem_of_nil in Hin.
  - apply parse_fields_cons in Hparse
      as (v0 & out' & _ & Hrest & [-> | [_ ->]]);
      rewrite fmap_cons, elem_of_cons; simpl.
    + rewrite fmap_cons in Hin. apply elem_of_cons in Hin as [-> | Hin];
        [now left | right; now apply (IH out')].
    + right. now apply (IH out').
Qed.

(** Reading a declared key of the parsed object gives the parsed value of
    the input's property of that name. *)
Lemma parse_fields_lookup (sh : Zod.shape) (props out : list (string * value)) :
  NoDup (fst <$> sh) ->
  Zod.parse_fields sh props = Ok out ->
  forall k s, (k, s) ∈ sh ->
    Zod.parse_value s (lookup_prop k props) = Ok (lookup_prop k out).
Proof.
  revert out. induction sh as [| [k0 s0] rest IH]; intros out Hnodup Hparse k s Hin.
  - now apply elem_of_nil in Hin.
  - rewrite fmap_cons in Hnodup. apply NoDup_cons in Hnodup as [Hfresh Hnodup].
    simpl in Hfresh.
    apply parse_fields_cons in Hparse as (v0 & out' & Hv0 & Hrest & Hout).
    assert (lookup_prop k0 out' = VUndefined) as Hk0.
    { apply lookup_prop_missing. intros Hin'. apply Hfresh.
      now apply (parse_fields_keys rest props out'). }
    apply elem_of_cons in Hin as [[= -> ->] | Hin].
    + rewrite Hv0. f_equal.
      destruct Hout as [-> | [-> ->]]; [| now rewrite Hk0].
      simpl. now rewrite String.eqb_refl.
    + assert (k <> k0) as Hne.
      { intros ->. apply Hfresh.
        apply list_elem_of_fmap. now exists (k0, s). }
      rewrite (IH _ Hnodup Hrest _ _ Hin). f_equal.
      destruct Hout as [-> | [_ ->]]; [| reflexivity].
      simpl. now destruct (String.eqb_spec k k0).
Qed.

(** * Further properties of the tool adapters *)

Section RequestCounting.
Context {E : Type} `{!Platform E}.

(** A computation that leaves the world as it found it. *)
Definition pure {A} (m : M E A) : Prop := forall w, snd (m w) = w.

(** Between two worlds at most one request went to the network. *)
Definition at_most_one_request (w w' : World E) : Prop :=
  trace w' = trace w \/ exists req, trace w' = trace w ++ [req].

(** A computation that makes at most one request. *)
Definition single {A} (m : M E A) : Prop :=
  forall w, at_most_one_request w (snd (m w)).

Lemma pure_ret {A} (a : A) : pure (ret a).
Proof. now intros w. Qed.

Lemma pure_throw {A} (x : exn) : pure (@throw E A x).
Proof. now intros w. Qed.

Lemma pure_lift {A} (r : Result A) : pure (lift r).
Proof. now intros w. Qed.

Lemma pure_bind {A B} (m : M E A) (k : A -> M E B) :
  pure m -> (forall a, pure (k a)) -> pure (bind m k).
Proof.
  intros Hm Hk w. unfold bind. specialize (Hm w).
  destruct (m w) as [[a | x] w']; simpl in *; subst; [apply Hk | reflexivity].
Qed.

Lemma single_pure {A} (m : M E A) : pure m -> single m.
Proof. intros Hm w. left. now rewrite Hm. Qed.

Lemma single_bind_l {A B} (m : M E A) (k : A -> M E B) :
  pure m -> (forall a, single (k a)) -> single (bind m k).
Proof.
  intros Hm Hk w. unfold bind. specialize (Hm w).
  destruct (m w) as [[a | x] w']; simpl in *; subst; [apply Hk | now left].
Qed.

Lemma single_bind_r {A B} (m : M E A) (k : A -> M E B) :
  single m -> (forall a, pure (k a)) -> single (bind m k).
Proof.
  intros Hm Hk w. unfold bind. specialize (Hm w).
  destruct (m w) as [[a | x] w']; simpl in *; [| exact Hm].
  now rewrite Hk.
Qed.

Lemma single_rethrow {A} (m : M E A) :
  single m -> single (try_catch m (fun error => throw error)).
Proof. intros Hm w. now rewrite rethrow. Qed.

Lemma single_send (m : Method) (endpoint : string) (d : value) :
  single (Client.send m endpoint d).
Proof.
  intros w. unfold Client.send.
  match goal with
  | |- context [Client.request ?req w] =>
      destruct (request_sent req w) as (r & e' & ->)
  end.
  right. eexists. reflexivity.
Qed.

Lemma single_get (endpoint : string) (params : value) (useCache : bool) :
  single (Client.get endpoint params useCache).
Proof.
  intros w. destruct useCache.
  - destruct (Client.getFromCache (Client.cacheKey endpoint params) w)
      as [[cached | x] w0] eqn:Hlookup.
    + assert (trace w0 = trace w) as Htrace.
      { revert Hlookup.
        unfold Client.getFromCache, Client.cache_get, Client.isCacheValid,
          Client.date_now, Client.this_cacheTtl, Client.cache_delete,
          Client.update_cache, bind, ret. simpl.
        destruct (cache (api w) !! Client.cacheKey endpoint params) as [c |];
          simpl; [| now intros [= _ <-]].
        destruct (now (env w) - timestamp c <? cacheTtl (api w));
          now intros [= _ <-]. }
      destruct (truthy cached) eqn:Htruthy.
      * left. unfold Client.get. unfold bind at 1. unfold bind at 1.
        rewrite Hlookup. unfold ret at 1. now rewrite Htruthy.
      * rewrite (get_through _ _ _ _ _ Hlookup Htruthy).
        destruct (request_sent (request_of GET endpoint params) w0)
          as (r & e' & ->).
        right. exists (request_of GET endpoint params).
        destruct r; simpl; now rewrite Htrace.
    + exfalso. revert Hlookup.
      unfold Client.getFromCache, Client.cache_get, Client.isCacheValid,
        Client.date_now, Client.this_cacheTtl, Client.cache_delete,
        Client.update_cache, bind, ret. simpl.
      destruct (cache (api w) !! Client.cacheKey endpoint params) as [c |];
        simpl; [| discriminate].
      destruct (now (env w) - timestamp c <? cacheTtl (api w)); discriminate.
  - rewrite get_uncached.
    match goal with
    | |- context [Client.request ?req w] =>
        destruct (request_sent req w) as (r & e' & ->)
    end.
    right. eexists. reflexivity.
Qed.

End RequestCounting.

(** Solves [single] and [pure] goals of handlers: a parse, one call on the
    client, and pure reshaping. *)
Ltac count_requests :=
  repeat first
    [ apply pure_ret | apply pure_throw | apply pure_lift
    | apply single_get | apply single_send
    | apply single_rethrow
    | apply single_bind_l; [solve [count_pure] | intros ?]
    | apply single_bind_r; [| intros ?; solve [count_pure]]
    | apply single_pure; solve [count_pure] ]
with count_pure :=
  repeat first
    [ apply pure_ret | apply pure_throw | apply pure_lift
    | apply pure_bind; [| intros ?] ].

Section ToolRequestCounting.
Context {E : Type} `{!Platform E}.

Lemma single_checkAssetsInAlbum (args : value) :
  single (AlbumsTool.checkAssetsInAlbum args).
Proof.
  unfold AlbumsTool.checkAssetsInAlbum.
  apply single_bind_l; [apply pure_lift | intros input].
  apply single_bind_r; [apply single_get | intros album].
  apply pure_bind; [apply pure_lift | intros ids].
  destruct (AlbumsTool.check_each _ _ _) as [[results m] n]. apply pure_ret.
Qed.

(** X7.  Every call of the albums dispatcher makes at most one request,
    whatever the tool name and the arguments. *)
Theorem albums_tool_single_request (name : string) (args : value)
    (w : World E) :
  at_most_one_request w (snd (AlbumsHandlers.handleTool name args w)).
Proof.
  apply single_rethrow.
  repeat match goal with
         | |- single (if ?c then _ else _) => destruct c
         end;
    try (apply single_bind_r; [| intros ?; apply pure_ret]);
    try (apply single_pure; apply pure_throw).
  - unfold AlbumsHandlers.listAlbums. count_requests.
  - unfold AlbumsHandlers.createAlbum, Client.post. count_requests.
  - unfold AlbumsHandlers.getAlbum.
    apply single_bind_l; [apply pure_lift | intros albumId].
    destruct (negb (truthy albumId)); count_requests.
  - unfold AlbumsHandlers.updateAlbum, Client.patch. count_requests.
  - unfold AlbumsHandlers.deleteAlbum, Client.delete. count_requests.
  - unfold AlbumsHandlers.addAssetsToAlbum, Client.put. count_requests.
  - unfold AlbumsHandlers.removeAssetsFromAlbum, Client.delete. count_requests.
  - unfold AlbumsHandlers.getAlbumSummary.
    apply single_bind_l; [apply pure_lift | intros input].
    apply single_bind_r; [apply single_get | intros album]. count_pure.
  - apply single_checkAssetsInAlbum.
Qed.

(** X8.  Every call of the search dispatcher makes at most one request. *)
Theorem search_tool_single_request (name : string) (args : value)
    (w : World E) :
  at_most_one_request w (snd (SearchTool.handleTool name args w)).
Proof.
  apply single_rethrow.
  repeat match goal with
         | |- single (if ?c then _ else _) => destruct c
         end;
    try (apply single_pure; apply pure_throw).
  - unfold SearchTool.generalSearch. count_requests.
  - unfold SearchTool.smartSearch. count_requests.
  - unfold SearchTool.metadataSearch. count_requests.
  - unfold SearchTool.exploreSearch. count_requests.
  - unfold SearchTool.filenameSearch, Client.post.
    destruct (nullish args); count_requests.
Qed.

(** X9.  Each handler of the assets tool other than the upload makes at most
    one request. *)
Theorem assets_handlers_single_request (args : value) (w : World E) :
  at_most_one_request w (snd (AssetsHandlers.listAssets args w))
  /\ at_most_one_request w (snd (AssetsHandlers.getAsset args w))
  /\ at_most_one_request w (snd (AssetsHandlers.updateAsset args w))
  /\ at_most_one_request w (snd (AssetsHandlers.deleteAsset args w))
  /\ at_most_one_request w (snd (AssetsHandlers.bulkUpdateAssets args w))
  /\ at_most_one_request w (snd (AssetsTool.getAssetStatistics args w))
  /\ at_most_one_request w (snd (AssetsTool.getRandomAssets args w)).
Proof.
  repeat split.
  - revert w. change (single (AssetsHandlers.listAssets args)).
    unfold AssetsHandlers.listAssets. count_requests.
  - revert w. change (single (AssetsHandlers.getAsset args)).
    unfold AssetsHandlers.getAsset. count_requests.
  - revert w. change (single (AssetsHandlers.updateAsset args)).
    unfold AssetsHandlers.updateAsset, Client.put. count_requests.
  - revert w. change (single (AssetsHandlers.deleteAsset args)).
    unfold AssetsHandlers.deleteAsset, Client.delete. count_requests.
  - revert w. change (single (AssetsHandlers.bulkUpdateAssets args)).
    unfold AssetsHandlers.bulkUpdateAssets, Client.put. count_requests.
  - revert w. change (single (AssetsTool.getAssetStatistics args)).
    unfold AssetsTool.getAssetStatistics.
    apply single_bind_l; [apply pure_lift | intros a].
    apply single_bind_l; [apply pure_lift | intros f]. apply single_get.
  - revert w. change (single (AssetsTool.getRandomAssets args)).
    unfold AssetsTool.getRandomAssets. count_requests.
Qed.

End ToolRequestCounting.

(** ** Validation before the network *)

Section ValidationProperties.
Context {E : Type} `{!Platform E}.

(** The schema each albums tool parses its arguments with; [albums_get]
    parses none. *)
Definition albums_schema (name : string) : option Zod.shape :=
  if String.eqb name "albums_list" then Some Zod.ListAlbumsInputSchema
  else if String.eqb name "albums_create" then Some Zod.CreateAlbumInputSchema
  else if String.eqb name "albums_update" then Some Zod.UpdateAlbumInputSchema
  else if String.eqb name "albums_delete" then Some Zod.DeleteAlbumInputSchema
  else if String.eqb name "albums_add_assets"
    then Some Zod.AddAssetsToAlbumInputSchema
  else if String.eqb name "albums_remove_assets"
    then Some Zod.AddAssetsToAlbumInputSchema
  else if String.eqb name "albums_get_summary"
    then Some Zod.GetAlbumSummaryInputSchema
  else if String.eqb name "albums_check_assets"
    then Some Zod.CheckAssetsInAlbumInputSchema
  else None.

(** A rejected parse is a validation error. *)
Lemma parse_rejected (sh : Zod.shape) (args : value) :
  is_ok (Zod.parse sh args) = false ->
  exists msg, Zod.parse sh args = Throw (ZodError msg).
Proof.
  destruct (Zod.parse sh args) as [input | x] eqn:Hparse; [discriminate |].
  destruct (parse_throws _ _ _ Hparse) as [msg ->]. eauto.
Qed.

(** X10.  For each albums tool that parses a schema, arguments the schema
    rejects make the dispatcher throw the validation error and leave the
    world untouched: no request is made and the cache is not consulted. *)
Theorem albums_validation_precedes_network (name : string) (sh : Zod.shape)
    (args : value) (w : World E) :
  albums_schema name = Some sh ->
  is_ok (Zod.parse sh args) = false ->
  exists msg,
    AlbumsHandlers.handleTool name args w = (Throw (ZodError msg), w).
Proof.
  unfold albums_schema, AlbumsHandlers.handleTool.
  intros Hschema Hbad. rewrite rethrow.
  repeat match type of Hschema with
         | (if String.eqb ?n ?s then _ else _) = _ =>
             destruct (String.eqb_spec n s) as [-> | ?]
         end;
    try discriminate; injection Hschema as <-;
    destruct (parse_rejected _ _ Hbad) as [msg Hparse]; exists msg;
    cbn [String.eqb Ascii.eqb Bool.eqb];
    unfold AlbumsHandlers.listAlbums, AlbumsHandlers.createAlbum,
      AlbumsHandlers.updateAlbum, AlbumsHandlers.deleteAlbum,
      AlbumsHandlers.addAssetsToAlbum, AlbumsHandlers.removeAssetsFromAlbum,
      AlbumsHandlers.getAlbumSummary, AlbumsTool.checkAssetsInAlbum;
    unfold bind, lift; now rewrite Hparse.
Qed.

End ValidationProperties.

Lemma albums_validation_precedes_network_witness :
  AlbumsHandlers.handleTool "albums_add_assets"
    (VObj [("albumId", VStr "album-1"); ("assetIds", VArr [])])
    (Sim.boot [] (Sim.immich []))
  = (Throw (ZodError "At least one asset ID is required"),
     Sim.boot [] (Sim.immich [])).
Proof.
  destruct (albums_validation_precedes_network "albums_add_assets"
              Zod.AddAssetsToAlbumInputSchema
              (VObj [("albumId", VStr "album-1"); ("assetIds", VArr [])])
              (Sim.boot [] (Sim.immich [])) eq_refl eq_refl) as [msg Hrun].
  rewrite Hrun. vm_compute in Hrun. injection Hrun as <-. reflexivity.
Defined.

(** ** Pagination bounds *)

(** A field is one of the declared fields of a schema. *)
Ltac field_declared :=
  repeat first [apply list_elem_of_here | apply list_elem_of_further].

Lemma lookup_set_prop_ne (k k' : string) (v : value)
    (props : list (string * value)) :
  k <> k' -> lookup_prop k (set_prop k' v props) = lookup_prop k props.
Proof.
  intros Hne. induction props as [| [k0 v0] rest IH]; simpl.
  - now destruct (String.eqb_spec k k').
  - destruct (String.eqb_spec k' k0) as [<- | Hne0]; simpl.
    + destruct (String.eqb_spec k k'); [done | reflexivity].
    + destruct (String.eqb_spec k k0); [reflexivity | exact IH].
Qed.

Lemma lookup_copy_truthy_ne (src : value) (k k' : string)
    (props : list (string * value)) :
  k <> k' ->
  lookup_prop k (SearchTool.copy_truthy src k' props) = lookup_prop k props.
Proof.
  intros Hne. unfold SearchTool.copy_truthy.
  destruct (truthy (get_opt src k')); [now apply lookup_set_prop_ne | reflexivity].
Qed.

Lemma lookup_copy_defined_ne (src : value) (k k' : string)
    (props : list (string * value)) :
  k <> k' ->
  lookup_prop k (SearchTool.copy_defined src k' props) = lookup_prop k props.
Proof.
  intros Hne. unfold SearchTool.copy_defined.
  destruct (get_opt src k'); try reflexivity; now apply lookup_set_prop_ne.
Qed.

(** What [z.number().min(lo).max(hi).default(d)] lets through. *)
Lemma parse_bounded_number (lo : Z) (hi : option Z) (d : Z) (x v : value) :
  Zod.parse_value (Zod.default_ (Zod.number_ (Some lo) hi) (VNum d)) x = Ok v ->
  exists n,
    v = VNum n
    /\ lo <= n
    /\ (forall h, hi = Some h -> n <= h)
    /\ (x = VUndefined -> n = d).
Proof.
  assert (forall y, Zod.parse_value (Zod.number_ (Some lo) hi) y = Ok v ->
            exists n, v = VNum n /\ y = VNum n /\ lo <= n
                      /\ forall h, hi = Some h -> n <= h) as Hnum.
  { intros y. destruct y; simpl; try discriminate.
    destruct (Z.ltb_spec n lo); [discriminate |].
    destruct hi as [h |].
    - destruct (Z.ltb_spec h n); [discriminate |].
      intros [= <-]. exists n. repeat split; auto. now intros ? [= <-].
    - intros [= <-]. exists n. repeat split; auto. discriminate. }
  destruct x; intros Hparse;
    match type of Hparse with
    | Zod.parse_value _ ?x0 = _ =>
        first [ destruct (Hnum (VNum d) Hparse) as (m & -> & Hy & Hlo & Hhi)
              | destruct (Hnum x0 Hparse) as (m & -> & Hy & Hlo & Hhi) ]
    end;
    exists m; repeat split; auto; try discriminate.
  now injection Hy as ->.
Qed.

(** A parsed input of a schema that declares [page] and [size] the way the
    listing and search schemas do. *)
Lemma paged_input (sh : Zod.shape) (args input : value) :
  NoDup (fst <$> sh) ->
  ("page", Zod.default_ (Zod.number_ (Some 1) None) (VNum 1)) ∈ sh ->
  ("size", Zod.default_ (Zod.number_ (Some 1) (Some 1000)) (VNum 250)) ∈ sh ->
  Zod.parse sh args = Ok input ->
  exists page size,
    get_opt input "page" = VNum page
    /\ 1 <= page
    /\ get_opt input "size" = VNum size
    /\ 1 <= size <= 1000
    /\ (get_opt args "page" = VUndefined -> page = 1)
    /\ (get_opt args "size" = VUndefined -> size = 250).
Proof.
  intros Hnodup Hpage Hsize. unfold Zod.parse.
  destruct args; try discriminate.
  destruct (Zod.parse_fields sh props) as [out | e] eqn:Hfields; [| discriminate].
  intros [= <-]. simpl.
  pose proof (parse_fields_lookup _ _ _ Hnodup Hfields _ _ Hpage) as Hp.
  pose proof (parse_fields_lookup _ _ _ Hnodup Hfields _ _ Hsize) as Hs.
  apply parse_bounded_number in Hp as (page & Hp & Hplo & _ & Hpd).
  apply parse_bounded_number in Hs as (size & Hs & Hslo & Hshi & Hsd).
  exists page, size. repeat split; auto.
Qed.

Section PaginationProperties.
Context {E : Type} `{!Platform E}.

(** The outcome shared by the paginated read handlers: the arguments are
    rejected before anything happens, or the handler is the cached [get] of
    [endpoint] with a [page] of at least 1 and a [size] between 1 and 1000,
    both at their defaults (1 and 250) when the caller left them out. *)
Definition paginated_read (endpoint : string) (args : value)
    (run : M E value) (w : World E) : Prop :=
  (exists msg, run w = (Throw (ZodError msg), w))
  \/ (exists params page size,
        run w = Client.get endpoint (VObj params) true w
        /\ lookup_prop "page" params = VNum page
        /\ 1 <= page
        /\ lookup_prop "size" params = VNum size
        /\ 1 <= size <= 1000
        /\ (get_opt args "page" = VUndefined -> page = 1)
        /\ (get_opt args "size" = VUndefined -> size = 250)).

(** X11.  [listAssets] never asks the remote for a page below 1 or for a page
    size outside 1..1000. *)
Theorem listAssets_pagination_bounds (args : value) (w : World E) :
  paginated_read "/api/assets" args (AssetsHandlers.listAssets args) w.
Proof.
  unfold paginated_read, AssetsHandlers.listAssets. unfold bind, lift.
  destruct (Zod.parse Zod.ListAssetsInputSchema args) as [input | x] eqn:Hparse.
  - right.
    destruct (paged_input Zod.ListAssetsInputSchema args input)
      as (page & size & Hp & Hplo & Hs & Hsb & Hpd & Hsd);
      [compute_done | field_declared | field_declared
      | exact Hparse |].
    eexists _, page, size. split; [reflexivity |].
    rewrite !lookup_copy_defined_ne, !lookup_copy_truthy_ne by discriminate.
    simpl. auto 10.
  - left. destruct (parse_throws _ _ _ Hparse) as [msg ->]. eauto.
Qed.

(** X12.  The same bounds hold for the two search tools that parse a schema,
    [search_general] and [search_smart]. *)
Theorem search_pagination_bounds (args : value) (w : World E) :
  paginated_read "/api/search" args
    (SearchTool.handleTool "search_general" args) w
  /\ paginated_read "/api/search/smart" args
       (SearchTool.handleTool "search_smart" args) w.
Proof.
  unfold paginated_read, SearchTool.handleTool. rewrite !rethrow.
  cbn [String.eqb Ascii.eqb Bool.eqb].
  unfold SearchTool.generalSearch, SearchTool.smartSearch. unfold bind, lift.
  split.
  - destruct (Zod.parse Zod.SearchInputSchema args) as [input | x] eqn:Hparse.
    + right.
      destruct (paged_input Zod.SearchInputSchema args input)
        as (page & size & Hp & Hplo & Hs & Hsb & Hpd & Hsd);
        [compute_done | field_declared | field_declared
        | exact Hparse |].
      eexists _, page, size. split; [reflexivity |].
      rewrite !lookup_copy_defined_ne, !lookup_copy_truthy_ne by discriminate.
      rewrite !lookup_copy_defined_ne by discriminate.
      rewrite !lookup_copy_truthy_ne by discriminate.
      simpl. auto 10.
    + left. destruct (parse_throws _ _ _ Hparse) as [msg ->]. eauto.
  - destruct (Zod.parse Zod.SmartSearchInputSchema args) as [input | x] eqn:Hparse.
    + right.
      destruct (paged_input Zod.SmartSearchInputSchema args input)
        as (page & size & Hp & Hplo & Hs & Hsb & Hpd & Hsd);
        [compute_done | field_declared | field_declared
        | exact Hparse |].
      eexists _, page, size. split; [reflexivity |].
      rewrite !lookup_copy_defined_ne, !lookup_copy_truthy_ne by discriminate.
      simpl. auto 10.
    + left. destruct (parse_throws _ _ _ Hparse) as [msg ->]. eauto.
Qed.

End PaginationProperties.

(** ** Deletion, staleness and shared cache entries *)

Section AlbumToolProperties.
Context {E : Type} `{!Platform E}.

(** What a handler returns after a successful deletion. *)
Definition deleted_message (kind id : string) : value :=
  VObj [ ("success", VBool true);
         ("message", VStr (kind +:+ " " +:+ id +:+ " deleted successfully")) ].

(** The run of [deleteAlbum] on a non-empty identifier. *)
Lemma deleteAlbum_run (id : string) (props : list (string * value))
    (w : World E) :
  id <> "" ->
  lookup_prop "albumId" props = VStr id ->
  exists r e',
    let req := request_of DELETE ("/api/albums/" +:+ id) VUndefined in
    Client.request req w = (r, sent req e' w)
    /\ AlbumsHandlers.deleteAlbum (VObj props) w
       = (match r with
          | Ok _ => Ok (deleted_message "Album" id)
          | Throw x => Throw x
          end, sent req e' w).
Proof.
  intros Hid Hlookup.
  assert (forall message,
            Zod.parse_value (Zod.string_ (Some (1%nat, message))) (VStr id)
            = Ok (VStr id)) as Hparse.
  { intros message. simpl. destruct id; [done | reflexivity]. }
  destruct (request_sent (request_of DELETE ("/api/albums/" +:+ id) VUndefined) w)
    as (r & e' & Hreq).
  exists r, e'. split; [exact Hreq |].
  unfold AlbumsHandlers.deleteAlbum, Zod.parse, Zod.DeleteAlbumInputSchema.
  cbn [Zod.parse_fields]. rewrite Hlookup, Hparse.
  unfold bind, lift, ret, Client.delete, Client.send.
  cbn [get_opt lookup_prop String.eqb Ascii.eqb Bool.eqb to_string].
  change {| req_method := DELETE; req_url := "/api/albums/" +:+ id;
            req_params := VUndefined; req_body := JsonBody VUndefined |}
    with (request_of DELETE ("/api/albums/" +:+ id) VUndefined).
  rewrite Hreq. now destruct r.
Qed.

(** The run of [deleteAsset] on a non-empty identifier. *)
Lemma deleteAsset_run (id : string) (props : list (string * value))
    (w : World E) :
  id <> "" ->
  lookup_prop "assetId" props = VStr id ->
  exists r e',
    let req := request_of DELETE ("/api/assets/" +:+ id) VUndefined in
    Client.request req w = (r, sent req e' w)
    /\ AssetsHandlers.deleteAsset (VObj props) w
       = (match r with
          | Ok _ => Ok (deleted_message "Asset" id)
          | Throw x => Throw x
          end, sent req e' w).
Proof.
  intros Hid Hlookup.
  assert (forall message,
            Zod.parse_value (Zod.string_ (Some (1%nat, message))) (VStr id)
            = Ok (VStr id)) as Hparse.
  { intros message. simpl. destruct id; [done | reflexivity]. }
  destruct (request_sent (request_of DELETE ("/api/assets/" +:+ id) VUndefined) w)
    as (r & e' & Hreq).
  exists r, e'. split; [exact Hreq |].
  unfold AssetsHandlers.deleteAsset, Zod.parse, Zod.DeleteAssetInputSchema.
  cbn [Zod.parse_fields]. rewrite Hlookup, Hparse.
  unfold bind, lift, ret, Client.delete, Client.send.
  cbn [get_opt lookup_prop String.eqb Ascii.eqb Bool.eqb to_string].
  change {| req_method := DELETE; req_url := "/api/assets/" +:+ id;
            req_params := VUndefined; req_body := JsonBody VUndefined |}
    with (request_of DELETE ("/api/assets/" +:+ id) VUndefined).
  rewrite Hreq. now destruct r.
Qed.

(** X13.  [deleteAlbum] and [deleteAsset] make exactly one [DELETE] request
    for the given identifier and report success only when that request was
    answered without error; a rejected deletion surfaces as the normalized
    error and no success message is produced.  The cache is left untouched. *)
Theorem delete_reports_success_only_after_delete (id : string)
    (props : list (string * value)) (w : World E) :
  id <> "" ->
  (lookup_prop "albumId" props = VStr id ->
   exists r e',
     let req := request_of DELETE ("/api/albums/" +:+ id) VUndefined in
     Client.request req w = (r, sent req e' w)
     /\ AlbumsHandlers.deleteAlbum (VObj props) w
        = (match r with
           | Ok _ => Ok (deleted_message "Album" id)
           | Throw x => Throw x
           end, sent req e' w))
  /\ (lookup_prop "assetId" props = VStr id ->
      exists r e',
        let req := request_of DELETE ("/api/assets/" +:+ id) VUndefined in
        Client.request req w = (r, sent req e' w)
        /\ AssetsHandlers.deleteAsset (VObj props) w
           = (match r with
              | Ok _ => Ok (deleted_message "Asset" id)
              | Throw x => Throw x
              end, sent req e' w)).
Proof.
  intros Hid. split; intros Hlookup.
  - exact (deleteAlbum_run id props w Hid Hlookup).
  - exact (deleteAsset_run id props w Hid Hlookup).
Qed.

(** [listAlbums] without filters is the cached [get] of the album listing. *)
Lemma listAlbums_unfiltered (w : World E) :
  AlbumsHandlers.listAlbums (VObj []) w
  = Client.get "/api/albums" (VObj []) true w.
Proof. reflexivity. Qed.

(** X14.  Mutations do not invalidate cached reads: an album listing cached
    before [deleteAlbum] ran is still what [listAlbums] returns afterwards,
    without any request, for as long as the entry is within its TTL. *)
Theorem deleted_album_stays_listed (id : string)
    (props : list (string * value)) (entry : CacheEntry) (w w2 : World E) :
  id <> "" ->
  lookup_prop "albumId" props = VStr id ->
  cache (api w) !! Client.cacheKey "/api/albums" (VObj []) = Some entry ->
  truthy (data entry) = true ->
  api w2 = api (snd (AlbumsHandlers.deleteAlbum (VObj props) w)) ->
  now (env w2) - timestamp entry < cacheTtl (api w2) ->
  AlbumsHandlers.listAlbums (VObj []) w2 = (Ok (data entry), w2).
Proof.
  intros Hid Hlookup Hentry Htruthy Hapi Hfresh.
  destruct (deleteAlbum_run id props w Hid Hlookup) as (r & e' & _ & Hrun).
  rewrite Hrun in Hapi. simpl in Hapi.
  rewrite listAlbums_unfiltered. apply get_hit; [| exact Hfresh | exact Htruthy].
  now rewrite Hapi.
Qed.

(** A fresh, truthy entry for an album answers [getAlbum]. *)
Lemma getAlbum_cached (id : string) (entry : CacheEntry) (w : World E) :
  id <> "" ->
  cache (api w) !! Client.cacheKey ("/api/albums/" +:+ id) VUndefined
  = Some entry ->
  now (env w) - timestamp entry < cacheTtl (api w) ->
  truthy (data entry) = true ->
  AlbumsHandlers.getAlbum (VObj [("albumId", VStr id)]) w = (Ok (data entry), w).
Proof.
  intros Hid Hentry Hfresh Htruthy.
  pose proof (get_hit _ _ _ _ Hentry Hfresh Htruthy) as Hget.
  assert (truthy (VStr id) = true) as Htid.
  { simpl. destruct (String.eqb_spec id ""); [done | reflexivity]. }
  unfold AlbumsHandlers.getAlbum. unfold bind, lift.
  cbn [get_prop get_opt lookup_prop String.eqb Ascii.eqb Bool.eqb].
  rewrite Htid. cbn [negb to_string]. exact Hget.
Qed.

Lemma getAlbumSummary_cached (id : string) (entry : CacheEntry) (w : World E) :
  id <> "" ->
  cache (api w) !! Client.cacheKey ("/api/albums/" +:+ id) VUndefined
  = Some entry ->
  now (env w) - timestamp entry < cacheTtl (api w) ->
  truthy (data entry) = true ->
  snd (AlbumsHandlers.getAlbumSummary (VObj [("albumId", VStr id)]) w) = w.
Proof.
  intros Hid Hentry Hfresh Htruthy.
  pose proof (get_hit _ _ _ _ Hentry Hfresh Htruthy) as Hget.
  assert (forall message,
            Zod.parse_value (Zod.string_ (Some (1%nat, message))) (VStr id)
            = Ok (VStr id)) as Hparse.
  { intros message. simpl. destruct id; [done | reflexivity]. }
  unfold AlbumsHandlers.getAlbumSummary, Zod.parse,
    Zod.GetAlbumSummaryInputSchema.
  cbn [Zod.parse_fields lookup_prop String.eqb Ascii.eqb Bool.eqb].
  rewrite Hparse. unfold bind at 1. unfold lift at 1.
  cbn [get_opt lookup_prop String.eqb Ascii.eqb Bool.eqb to_string].
  unfold bind at 1. rewrite Hget. unfold bind, lift, ret.
  now destruct (get_prop (data entry) "id").
Qed.

Lemma checkAssetsInAlbum_cached (Q : list string) (id : string) (entry : CacheEntry) (w : World E) :
  id <> "" ->
  cache (api w) !! Client.cacheKey ("/api/albums/" +:+ id) VUndefined
  = Some entry ->
  now (env w) - timestamp entry < cacheTtl (api w) ->
  truthy (data entry) = true ->
  Q <> [] ->
  snd (AlbumsTool.checkAssetsInAlbum
         (VObj [("albumId", VStr id); ("assetIds", VArr (map VStr Q))]) w)
  = w.
Proof.
  intros Hid Hentry Hfresh Htruthy HQ.
  pose proof (get_hit _ _ _ _ Hentry Hfresh Htruthy) as Hget.
  assert (forall message,
            Zod.parse_value (Zod.string_ (Some (1%nat, message))) (VStr id)
            = Ok (VStr id)) as Hparse.
  { intros message. simpl. destruct id; [done | reflexivity]. }
  unfold AlbumsTool.checkAssetsInAlbum, Zod.parse,
    Zod.CheckAssetsInAlbumInputSchema.
  cbn [Zod.parse_fields lookup_prop String.eqb Ascii.eqb Bool.eqb].
  rewrite Hparse.
  rewrite parse_array_of_strings by (destruct Q; [done | simpl; lia]).
  unfold bind at 1. unfold lift at 1.
  cbn [get_opt lookup_prop String.eqb Ascii.eqb Bool.eqb to_string].
  unfold bind at 1. rewrite Hget. unfold bind, lift, ret.
  destruct (AlbumsTool.asset_ids (data entry)); [| reflexivity].
  now destruct (AlbumsTool.check_each _ _ _) as [[results m] n].
Qed.

(** X15.  The three read tools of one album ([albums_get],
    [albums_get_summary], [albums_check_assets]) use the same cache entry:
    while the album fetched by any of them is cached and fresh, each of them
    is answered from the cache and makes no request. *)
Theorem album_reads_share_one_entry (id : string) (Q : list string)
    (entry : CacheEntry) (w : World E) :
  id <> "" ->
  Q <> [] ->
  cache (api w) !! Client.cacheKey ("/api/albums/" +:+ id) VUndefined
  = Some entry ->
  now (env w) - timestamp entry < cacheTtl (api w) ->
  truthy (data entry) = true ->
  AlbumsHandlers.getAlbum (VObj [("albumId", VStr id)]) w = (Ok (data entry), w)
  /\ snd (AlbumsHandlers.getAlbumSummary (VObj [("albumId", VStr id)]) w) = w
  /\ snd (AlbumsTool.checkAssetsInAlbum
            (VObj [("albumId", VStr id); ("assetIds", VArr (map VStr Q))]) w)
     = w.
Proof.
  intros Hid HQ Hentry Hfresh Htruthy.
  split; [| split].
  - apply (getAlbum_cached id entry); assumption.
  - apply (getAlbumSummary_cached id entry); assumption.
  - apply (checkAssetsInAlbum_cached Q id entry); assumption.
Qed.

(** X16.  [bulkUpdateAssets] sends the parsed ids in one [PUT /api/assets]
    and, when that request succeeds, reports as [updatedCount] the number of
    ids it sent, which is at least one; when the request fails the error
    surfaces and no count is reported. *)
Theorem bulkUpdateAssets_counts_what_it_sent (args input : value)
    (w : World E) :
  Zod.parse Zod.BulkUpdateAssetsInputSchema args = Ok input ->
  exists ids body r e',
    get_opt input "assetIds" = VArr ids
    /\ (1 <= length ids)%nat
    /\ lookup_prop "ids" body = VArr ids
    /\ Client.request (request_of PUT "/api/assets" (VObj body)) w
       = (r, sent (request_of PUT "/api/assets" (VObj body)) e' w)
    /\ AssetsHandlers.bulkUpdateAssets args w
       = (match r with
          | Ok _ =>
              Ok (VObj [ ("success", VBool true);
                         ("message",
                          VStr (pretty (Z.of_nat (length ids))
                                  +:+ " assets updated successfully"));
                         ("updatedCount", VNum (Z.of_nat (length ids))) ])
          | Throw x => Throw x
          end,
          sent (request_of PUT "/api/assets" (VObj body)) e' w).
Proof.
  intros Hparse.
  assert (exists ids, get_opt input "assetIds" = VArr ids /\ (1 <= length ids)%nat)
    as (ids & Hids & Hlen).
  { revert Hparse. unfold Zod.parse. destruct args; try discriminate.
    destruct (Zod.parse_fields _ props) as [out | e] eqn:Hfields; [| discriminate].
    intros [= <-]. simpl.
    assert (Zod.parse_value
              (Zod.array_ (Zod.string_ None)
                 (Some (1%nat, "At least one asset ID is required")))
              (lookup_prop "assetIds" props)
            = Ok (lookup_prop "assetIds" out)) as Harr.
    { apply (parse_fields_lookup Zod.BulkUpdateAssetsInputSchema);
        [compute_done | exact Hfields | field_declared]. }
    destruct (lookup_prop "assetIds" props); try discriminate.
    rewrite parse_array_unfold in Harr.
    destruct (Nat.ltb_spec (length elems) 1); [discriminate |].
    destruct (each _ elems) as [parsed | e] eqn:Heach; [| discriminate].
    injection Harr as <-. exists parsed. split; [reflexivity |].
    rewrite (each_length _ _ _ Heach). lia. }
  unfold AssetsHandlers.bulkUpdateAssets. unfold bind at 1. unfold lift at 1.
  rewrite Hparse.
  match goal with
  | |- context [Client.put "/api/assets" (VObj ?b)] => set (body := b)
  end.
  destruct (request_sent (request_of PUT "/api/assets" (VObj body)) w)
    as (r & e' & Hreq).
  exists ids, body, r, e'.
  split; [exact Hids |]. split; [exact Hlen |]. split.
  { subst body.
    rewrite lookup_copy_truthy_ne, !lookup_copy_defined_ne by discriminate.
    simpl. exact Hids. }
  split; [exact Hreq |].
  unfold bind, ret, Client.put, Client.send.
  change {| req_method := PUT; req_url := "/api/assets";
            req_params := VUndefined; req_body := JsonBody (VObj body) |}
    with (request_of PUT "/api/assets" (VObj body)).
  rewrite Hreq, Hids. now destruct r.
Qed.

End AlbumToolProperties.

(** ** The upload batch as a whole *)

(** The paths whose outcome flag is [flag], in input order. *)
Fixpoint select (flag : bool) (paths : list string) (outcome : list bool)
  : list string :=
  match paths, outcome with
  | p :: ps, o :: os =>
      if Bool.eqb o flag then p :: select flag ps os else select flag ps os
  | _, _ => []
  end.

Lemma select_lengths (paths : list string) (outcome : list bool) :
  length outcome = length paths ->
  (length (select true paths outcome) + length (select false paths outcome))%nat
  = length paths.
Proof.
  revert outcome. induction paths as [| p ps IH]; intros [| o os]; simpl;
    try discriminate; [reflexivity |].
  intros [= Hlen]. specialize (IH _ Hlen). destruct o; simpl; lia.
Qed.

Lemma select_none_failed (paths : list string) (outcome : list bool) :
  length outcome = length paths ->
  (length (select false paths outcome) =? 0)%nat = forallb (fun o => o) outcome.
Proof.
  revert outcome. induction paths as [| p ps IH]; intros [| o os]; simpl;
    try discriminate; [reflexivity |].
  intros [= Hlen]. destruct o; simpl; [now apply IH | reflexivity].
Qed.

Section UploadBatchProperties.
Context {E : Type} `{!Platform E}.

(** Whether the upload of [path] in the world [w] yields an asset:
    [uploadAsset] returns, and what it returns is a response body ([null]
    and [undefined] have no [id] to read). *)
Definition uploads (path : string) (w : World E) : bool :=
  match fst (Client.uploadAsset path None w) with
  | Ok result => negb (nullish result)
  | Throw _ => false
  end.

(** One call of [uploadAsset] per path, in input order, each in the world
    the previous call left: the outcome of each call and the world after
    the last one. *)
Fixpoint outcomes (paths : list string) (w : World E) : list bool :=
  match paths with
  | [] => []
  | path :: rest =>
      uploads path w :: outcomes rest (snd (Client.uploadAsset path None w))
  end.

Fixpoint after_uploads (paths : list string) (w : World E) : World E :=
  match paths with
  | [] => w
  | path :: rest => after_uploads rest (snd (Client.uploadAsset path None w))
  end.

Lemma outcomes_length (paths : list string) (w : World E) :
  length (outcomes paths w) = length paths.
Proof.
  revert w. induction paths as [| p rest IH]; intros w; [reflexivity |].
  simpl. now rewrite IH.
Qed.

(** The loop makes exactly those calls and files each path by the outcome
    of its call. *)
Lemma upload_each_outcomes (paths : list string)
    (acc : list AssetsTool.Uploaded * list AssetsTool.Failed) (w : World E) :
  exists up fl,
    AssetsTool.upload_each paths acc w
    = (Ok (fst acc ++ up, snd acc ++ fl), after_uploads paths w)
    /\ map AssetsTool.filePath up = select true paths (outcomes paths w)
    /\ map AssetsTool.failedPath fl = select false paths (outcomes paths w).
Proof.
  revert acc w. induction paths as [| p rest IH]; intros acc w.
  - exists [], []. simpl. rewrite !app_nil_r. now destruct acc.
  - simpl. unfold bind, uploads.
    destruct (upload_one_cases p acc w)
      as (w1 & _ & [(result & Hcall & Hresult & ->)
                   | (x & [Hcall | (result & Hcall & Hid)] & ->)]);
      rewrite Hcall; simpl.
    + rewrite Hresult. simpl.
      destruct (IH (fst acc ++ [uploaded_entry p result], snd acc) w1)
        as (up & fl & -> & Hup & Hfl).
      exists (uploaded_entry p result :: up), fl.
      simpl. rewrite <- app_assoc. simpl. rewrite Hup, Hfl. auto.
    + destruct (IH (fst acc, snd acc ++ [failed_entry p x]) w1)
        as (up & fl & -> & Hup & Hfl).
      exists up, (failed_entry p x :: fl).
      simpl. rewrite <- app_assoc. simpl. rewrite Hup, Hfl. auto.
    + assert (nullish result = true) as ->.
      { destruct result; try reflexivity; discriminate Hid. }
      simpl.
      destruct (IH (fst acc, snd acc ++ [failed_entry p x]) w1)
        as (up & fl & -> & Hup & Hfl).
      exists up, (failed_entry p x :: fl).
      simpl. rewrite <- app_assoc. simpl. rewrite Hup, Hfl. auto.
Qed.

(** X17.  On arguments of the declared shape ([filePaths] an array of
    strings), a batch calls [uploadAsset] exactly once per path, in input
    order, each call in the world the previous one left, and it files every
    path by the outcome of its own call: [uploaded] lists, in input order,
    the paths whose call returned a response body, [failed] lists the paths
    whose call threw or returned none.  So every path is in exactly one of
    the two lists, the lists together are as long as the batch, and
    [success] tells whether every call returned a body. *)
Theorem upload_batch_partition (args : AssetsTool.UploadArgs) (w : World E) :
  let paths := AssetsTool.filePaths args in
  exists r w',
    AssetsTool.uploadAssets args w = (Ok r, w')
    /\ AssetsTool.upload_each paths ([], []) w
       = (Ok (AssetsTool.uploaded r, AssetsTool.failed r),
          after_uploads paths w)
    /\ map AssetsTool.filePath (AssetsTool.uploaded r)
       = select true paths (outcomes paths w)
    /\ map AssetsTool.failedPath (AssetsTool.failed r)
       = select false paths (outcomes paths w)
    /\ (length (AssetsTool.uploaded r) + length (AssetsTool.failed r))%nat
       = length paths
    /\ AssetsTool.success r = forallb (fun o => o) (outcomes paths w).
Proof.
  intros paths.
  destruct (upload_each_outcomes paths ([], []) w)
    as (up & fl & Hloop & Hup & Hfl).
  simpl in Hloop.
  destruct (uploadAssets_result args w _ up fl Hloop) as (target & w2 & Hrun).
  eexists _, w2. split; [exact Hrun |]. simpl.
  split; [exact Hloop |]. split; [exact Hup |]. split; [exact Hfl |].
  pose proof (outcomes_length paths w) as Hlen.
  split.
  - rewrite <- (length_map AssetsTool.filePath up),
      <- (length_map AssetsTool.failedPath fl), Hup, Hfl.
    now apply select_lengths.
  - rewrite <- (length_map AssetsTool.failedPath fl), Hfl.
    now apply select_none_failed.
Qed.

(** X18.  A supplied (non-empty) [albumId] takes precedence over an
    [albumName]: when at least one file was uploaded, the only request after
    the loop is the [PUT] attaching the uploads to that id (no album is
    listed, looked up or created) and the result's [albumId] is that id,
    whether or not the [PUT] succeeds. *)
Theorem supplied_album_id_takes_precedence (paths : list string)
    (suppliedId : string) (albumName : option string) (w w1 : World E)
    (up : list AssetsTool.Uploaded) (fl : list AssetsTool.Failed) :
  suppliedId <> "" ->
  AssetsTool.upload_each paths ([], []) w = (Ok (up, fl), w1) ->
  up <> [] ->
  exists e',
    AssetsTool.uploadAssets
      {| AssetsTool.filePaths := paths;
         AssetsTool.albumId := Some suppliedId;
         AssetsTool.albumName := albumName |} w
    = (Ok {| AssetsTool.success := (length fl =? 0)%nat;
             AssetsTool.uploaded := up;
             AssetsTool.failed := fl;
             AssetsTool.resultAlbumId := VStr suppliedId |},
       sent (attach_request (VStr suppliedId) up) e' w1).
Proof.
  intros Hid Hloop Hup.
  assert (truthy (VStr suppliedId) = true) as Htruthy.
  { simpl. destruct (String.eqb_spec suppliedId ""); [done | reflexivity]. }
  destruct (request_sent (attach_request (VStr suppliedId) up) w1)
    as (r & e' & Hreq).
  exists e'.
  unfold AssetsTool.uploadAssets. unfold bind at 1. simpl AssetsTool.filePaths.
  rewrite Hloop. unfold bind at 1.
  cbn [of_opt AssetsTool.albumId AssetsTool.albumName].
  unfold Js.or at 1. rewrite Htruthy. rewrite Htruthy.
  destruct up as [| u up']; [done |].
  change (0 <? length (u :: up'))%nat with true.
  change (true && true) with true. cbv iota.
  assert (AssetsTool.attach_to_album (VStr suppliedId) (of_opt albumName)
            (u :: up') w1
          = (Ok (VStr suppliedId),
             sent (attach_request (VStr suppliedId) (u :: up')) e' w1))
    as Hattach.
  { unfold AssetsTool.attach_to_album. rewrite Htruthy.
    unfold try_catch at 1. unfold bind at 1.
    assert (match of_opt albumName with
            | VStr name =>
                if negb true && truthy (of_opt albumName)
                then AssetsTool.find_or_create name
                else ret (VStr suppliedId)
            | _ => ret (VStr suppliedId)
            end w1 = (Ok (VStr suppliedId), w1)) as ->.
    { now destruct albumName. }
    unfold try_catch, bind, ret, Client.put, Client.send.
    fold (attach_request (VStr suppliedId) (u :: up')).
    rewrite Hreq. now destruct r. }
  rewrite Hattach. reflexivity.
Qed.

End UploadBatchProperties.

Lemma supplied_album_id_takes_precedence_witness :
  exists r w',
    AssetsTool.uploadAssets
      {| AssetsTool.filePaths := ["a.jpg"];
         AssetsTool.albumId := Some "album-7";
         AssetsTool.albumName := Some "Winter" |} three_files = (Ok r, w')
    /\ AssetsTool.resultAlbumId r = VStr "album-7"
    /\ map (fun q => (req_method q, req_url q)) (trace w')
       = [ (POST, "/api/assets"); (PUT, "/api/albums/album-7/assets") ].
Proof.
  edestruct (supplied_album_id_takes_precedence (E := Sim.Env) ["a.jpg"]
               "album-7" (Some "Winter") three_files) as [e' Hrun];
    [discriminate | vm_compute; reflexivity | discriminate |].
  eexists _, _. split; [exact Hrun |]. split; reflexivity.
Defined.

(** ** Dispatchers and their catalogs *)

Section DispatcherProperties.
Context {E : Type} `{!Platform E}.

(** Whatever the computation throws satisfies [P]. *)
Definition throws_only {A} (P : exn -> Prop) (m : M E A) : Prop :=
  forall w x w', m w = (Throw x, w') -> P x.

Lemma throws_only_bind {A B} (P : exn -> Prop) (m : M E A) (k : A -> M E B) :
  throws_only P m -> (forall a, throws_only P (k a)) ->
  throws_only P (bind m k).
Proof.
  intros Hm Hk w x w'. unfold bind.
  destruct (m w) as [[a | y] w1] eqn:Hrun.
  - apply Hk.
  - intros [= <- <-]. eapply Hm; eauto.
Qed.

Lemma throws_only_ret {A} (P : exn -> Prop) (a : A) :
  throws_only P (@ret E A a).
Proof. intros w x w'. discriminate. Qed.

Lemma throws_only_throw {A} (P : exn -> Prop) (x : exn) :
  P x -> throws_only P (@throw E A x).
Proof. intros HP w y w'. now intros [= <- _]. Qed.

Lemma throws_only_parse (P : exn -> Prop) (sh : Zod.shape) (args : value) :
  (forall msg, P (ZodError msg)) ->
  throws_only P (@lift E value (Zod.parse sh args)).
Proof.
  intros HP w x w'. unfold lift. intros [= Hparse _].
  destruct (parse_throws _ _ _ Hparse) as [msg ->]. apply HP.
Qed.

Lemma throws_only_get_prop (P : exn -> Prop) (v : value) (k : string) :
  (forall msg, P (TypeError msg)) ->
  throws_only P (@lift E value (get_prop v k)).
Proof.
  intros HP w x w'. unfold lift.
  destruct v; simpl; intros [= <- _]; apply HP.
Qed.

Lemma throws_only_request (P : exn -> Prop) (req : Request) :
  (forall e, P (ApiError e)) -> throws_only P (Client.request req).
Proof.
  intros HP w x w'. unfold Client.request.
  destruct (http (env w) req) as [[status d | msg] e1];
    [destruct (Client.validateStatus status) |];
    intros [= <- _]; apply HP.
Qed.

Lemma throws_only_send (P : exn -> Prop) (m : Method) (endpoint : string)
    (d : value) :
  (forall e, P (ApiError e)) -> throws_only P (Client.send m endpoint d).
Proof. intros HP. now apply throws_only_request. Qed.

Lemma throws_only_get (P : exn -> Prop) (endpoint : string) (params : value)
    (useCache : bool) :
  (forall e, P (ApiError e)) ->
  throws_only P (Client.get endpoint params useCache).
Proof.
  intros HP w x w'. destruct useCache.
  - destruct (Client.getFromCache (Client.cacheKey endpoint params) w)
      as [[cached | y] w0] eqn:Hlookup.
    + destruct (truthy cached) eqn:Htruthy.
      * unfold Client.get. unfold bind at 1. unfold bind at 1.
        rewrite Hlookup. unfold ret at 1. rewrite Htruthy. discriminate.
      * rewrite (get_through _ _ _ _ _ Hlookup Htruthy).
        destruct (Client.request (request_of GET endpoint params) w0)
          as [[d | y] w1] eqn:Hreq; [discriminate |].
        intros [= <- _].
        apply (throws_only_request P _ HP _ _ _ Hreq).
    + exfalso. revert Hlookup.
      unfold Client.getFromCache, Client.cache_get, Client.isCacheValid,
        Client.date_now, Client.this_cacheTtl, Client.cache_delete,
        Client.update_cache, bind, ret. simpl.
      destruct (cache (api w) !! Client.cacheKey endpoint params) as [c |];
        simpl; [| discriminate].
      destruct (now (env w) - timestamp c <? cacheTtl (api w)); discriminate.
  - rewrite get_uncached. now apply throws_only_request.
Qed.

End DispatcherProperties.

(** Solves [throws_only] goals of handlers. *)
Ltac classify_throws :=
  repeat first
    [ apply throws_only_ret
    | apply throws_only_parse; intros ?; discriminate
    | apply throws_only_get_prop; intros ?; discriminate
    | apply throws_only_get; intros ?; discriminate
    | apply throws_only_send; intros ?; discriminate
    | apply throws_only_bind; [| intros ?] ].

Section DispatcherCatalogs.
Context {E : Type} `{!Platform E}.

(** X19.  The search dispatcher and its catalog agree: a name outside the
    published catalog is rejected with the unknown-tool error before anything
    happens, and a published name is always dispatched, so that it never
    fails with that kind of error. *)
Theorem search_dispatch_matches_catalog (name : string) (args : value)
    (w : World E) :
  (name ∉ fst <$> SearchTool.getTools ->
   SearchTool.handleTool name args w
   = (Throw (JsError ("Unknown search tool: " +:+ name)), w))
  /\ (name ∈ fst <$> SearchTool.getTools ->
      forall msg w',
        SearchTool.handleTool name args w <> (Throw (JsError msg), w')).
Proof.
  unfold SearchTool.handleTool. rewrite rethrow. split.
  - cbn [SearchTool.getTools fmap list_fmap fst].
    rewrite !not_elem_of_cons. intros (H1 & H2 & H3 & H4 & H5 & _).
    repeat match goal with
           | |- context [String.eqb name ?s] =>
               destruct (String.eqb_spec name s); [done |]
           end.
    reflexivity.
  - cbn [SearchTool.getTools fmap list_fmap fst]. intros Hin msg w' Hrun.
    assert (throws_only (fun x => forall m, x <> JsError m)
              (if String.eqb name "search_general"
               then SearchTool.generalSearch args
               else if String.eqb name "search_smart"
               then SearchTool.smartSearch args
               else if String.eqb name "search_metadata"
               then SearchTool.metadataSearch args
               else if String.eqb name "search_explore"
               then SearchTool.exploreSearch args
               else if String.eqb name "search_by_filename"
               then SearchTool.filenameSearch args
               else throw (JsError ("Unknown search tool: " +:+ name))))
      as Hthrows.
    { repeat (apply elem_of_cons in Hin as [-> | Hin]);
        [.. | now apply elem_of_nil in Hin];
        cbn [String.eqb Ascii.eqb Bool.eqb].
      - unfold SearchTool.generalSearch. classify_throws.
      - unfold SearchTool.smartSearch. classify_throws.
      - unfold SearchTool.metadataSearch. classify_throws.
      - unfold SearchTool.exploreSearch. classify_throws.
      - unfold SearchTool.filenameSearch, Client.post.
        destruct (nullish args); [| classify_throws].
        apply throws_only_throw. discriminate. }
    now apply (Hthrows _ _ _ Hrun msg).
Qed.

(** X20.  The albums dispatcher and its catalog agree in the same way: a
    name outside the catalog gets the unknown-tool error with the world
    untouched, and a published name never does. *)
Theorem albums_dispatch_matches_catalog (name : string) (args : value)
    (w : World E) :
  (name ∉ AlbumsHandlers.tool_names ->
   AlbumsHandlers.handleTool name args w
   = (Throw (JsError ("Unknown albums tool: " +:+ name)), w))
  /\ (name ∈ AlbumsHandlers.tool_names ->
      forall w',
        AlbumsHandlers.handleTool name args w
        <> (Throw (JsError ("Unknown albums tool: " +:+ name)), w')).
Proof.
  unfold AlbumsHandlers.handleTool. rewrite rethrow. split.
  - unfold AlbumsHandlers.tool_names.
    rewrite !not_elem_of_cons.
    intros (H1 & H2 & H3 & H4 & H5 & H6 & H7 & H8 & H9 & _).
    repeat match goal with
           | |- context [String.eqb name ?s] =>
               destruct (String.eqb_spec name s); [done |]
           end.
    reflexivity.
  - unfold AlbumsHandlers.tool_names. intros Hin w' Hrun.
    revert Hrun.
    match goal with
    | |- ?m w = _ -> False =>
        assert (throws_only
                  (fun x => x <> JsError ("Unknown albums tool: " +:+ name)) m)
          as Hthrows
    end.
    { repeat (apply elem_of_cons in Hin as [-> | Hin]);
        [.. | now apply elem_of_nil in Hin];
        cbn [String.eqb Ascii.eqb Bool.eqb];
        (apply throws_only_bind; [| intros ?; apply throws_only_ret]).
      - unfold AlbumsHandlers.listAlbums. classify_throws.
      - unfold AlbumsHandlers.createAlbum, Client.post. classify_throws.
      - unfold AlbumsHandlers.getAlbum.
        apply throws_only_bind;
          [apply throws_only_get_prop; intros ?; discriminate | intros albumId].
        destruct (negb (truthy albumId)); [| classify_throws].
        apply throws_only_throw. discriminate.
      - unfold AlbumsHandlers.updateAlbum, Client.patch. classify_throws.
      - unfold AlbumsHandlers.deleteAlbum, Client.delete. classify_throws.
      - unfold AlbumsHandlers.addAssetsToAlbum, Client.put. classify_throws.
      - unfold AlbumsHandlers.removeAssetsFromAlbum, Client.delete.
        classify_throws.
      - unfold AlbumsHandlers.getAlbumSummary. classify_throws.
      - unfold AlbumsTool.checkAssetsInAlbum.
        apply throws_only_bind;
          [apply throws_only_parse; intros ?; discriminate | intros input].
        apply throws_only_bind;
          [apply throws_only_get; intros ?; discriminate | intros album].
        apply throws_only_bind.
        + intros w0 x w1. unfold lift. intros [= Hids _]. revert Hids.
          unfold AlbumsTool.asset_ids.
          destruct album; simpl; try (intros [= <-]; discriminate).
          destruct (lookup_prop "assets" props);
            try (intros [= <-]; discriminate); try discriminate.
          induction elems as [| a rest IH]; [discriminate |].
          destruct (get_prop a "id") as [i | y] eqn:Hid.
          * match goal with
            | |- context [?f rest] =>
                destruct (f rest) as [others | y] eqn:Hrest
            end; [discriminate |].
            intros [= <-]. now apply IH.
          * intros [= <-]. destruct a; simpl in Hid; try discriminate;
              injection Hid as <-; discriminate.
        + intros ids.
          destruct (AlbumsTool.check_each _ _ _) as [[results m] n].
          apply throws_only_ret. }
    intros Hrun. now apply (Hthrows _ _ _ Hrun).
Qed.

End DispatcherCatalogs.

(** ** Closed runs of the tool adapters *)

(** A remote that accepts every request with an empty object. *)
Definition accepting (_ : Request) : HttpOutcome := Responded 200 (VObj []).

Lemma delete_reports_success_only_after_delete_witness :
  fst (AlbumsHandlers.deleteAlbum (VObj [("albumId", VStr "album-1")])
         (Sim.boot [] accepting))
  = Ok (deleted_message "Album" "album-1")
  /\ fst (AssetsHandlers.deleteAsset (VObj [("assetId", VStr "asset-1")])
            (Sim.boot [] (Sim.immich [])))
     = Throw (ApiError not_found_error).
Proof.
  split.
  - destruct (delete_reports_success_only_after_delete "album-1"
                [("albumId", VStr "album-1")] (Sim.boot [] accepting))
      as [Halbum _]; [discriminate |].
    destruct (Halbum eq_refl) as (r & e' & Hreq & Hrun).
    rewrite Hrun. vm_compute in Hreq. now injection Hreq as <- _.
  - destruct (delete_reports_success_only_after_delete "asset-1"
                [("assetId", VStr "asset-1")] (Sim.boot [] (Sim.immich [])))
      as [_ Hasset]; [discriminate |].
    destruct (Hasset eq_refl) as (r & e' & Hreq & Hrun).
    rewrite Hrun. vm_compute in Hreq. now injection Hreq as <- _.
Defined.

(** The world after the album listing has been fetched once. *)
Definition listed : World Sim.Env :=
  snd (AlbumsHandlers.listAlbums (VObj [])
         (Sim.boot [] (Sim.immich [Sim.album "album-1" "Summer Trip"]))).

Lemma deleted_album_stays_listed_witness :
  AlbumsHandlers.listAlbums (VObj [])
    (snd (AlbumsHandlers.deleteAlbum (VObj [("albumId", VStr "album-1")]) listed))
  = (Ok (VArr [Sim.album "album-1" "Summer Trip"]),
     snd (AlbumsHandlers.deleteAlbum (VObj [("albumId", VStr "album-1")]) listed)).
Proof.
  apply (deleted_album_stays_listed "album-1" [("albumId", VStr "album-1")]
           {| data := VArr [Sim.album "album-1" "Summer Trip"];
              timestamp := 1001 |} listed);
    [discriminate | reflexivity | vm_compute; reflexivity | reflexivity
    | reflexivity | vm_compute; reflexivity].
Defined.

(** A remote serving one album with the assets [a] and [b]. *)
Definition one_album (_ : Request) : HttpOutcome :=
  Responded 200 (VObj [("id", VStr "album-1");
                       ("albumName", VStr "Summer Trip");
                       ("assets", VArr [VObj [("id", VStr "a")];
                                        VObj [("id", VStr "b")]])]).

(** The world after [albums_get] has fetched that album. *)
Definition fetched : World Sim.Env :=
  snd (AlbumsHandlers.getAlbum (VObj [("albumId", VStr "album-1")])
         (Sim.boot [] one_album)).

Lemma album_reads_share_one_entry_witness :
  trace fetched = [request_of GET "/api/albums/album-1" VUndefined]
  /\ snd (AlbumsHandlers.getAlbumSummary (VObj [("albumId", VStr "album-1")])
            fetched) = fetched
  /\ snd (AlbumsTool.checkAssetsInAlbum
            (VObj [("albumId", VStr "album-1");
                   ("assetIds", VArr (map VStr ["a"; "c"]))]) fetched)
     = fetched.
Proof.
  split; [reflexivity |].
  destruct (album_reads_share_one_entry "album-1" ["a"; "c"]
              {| data := VObj [("id", VStr "album-1");
                               ("albumName", VStr "Summer Trip");
                               ("assets", VArr [VObj [("id", VStr "a")];
                                                VObj [("id", VStr "b")]])];
                 timestamp := 1001 |}
              fetched) as (_ & Hsummary & Hcheck);
    [discriminate | discriminate | vm_compute; reflexivity
    | vm_compute; reflexivity | reflexivity |].
  split; [exact Hsummary | exact Hcheck].
Defined.

Lemma bulkUpdateAssets_counts_what_it_sent_witness :
  fst (AssetsHandlers.bulkUpdateAssets
         (VObj [("assetIds", VArr [VStr "a"; VStr "b"]);
                ("isFavorite", VBool true)])
         (Sim.boot [] accepting))
  = Ok (VObj [ ("success", VBool true);
               ("message", VStr "2 assets updated successfully");
               ("updatedCount", VNum 2) ]).
Proof.
  destruct (bulkUpdateAssets_counts_what_it_sent
              (VObj [("assetIds", VArr [VStr "a"; VStr "b"]);
                     ("isFavorite", VBool true)])
              (VObj [("assetIds", VArr [VStr "a"; VStr "b"]);
                     ("isFavorite", VBool true)])
              (Sim.boot [] accepting))
    as (ids & body & r & e' & Hids & _ & _ & Hreq & Hrun); [reflexivity |].
  rewrite Hrun. vm_compute in Hids. injection Hids as <-.
  vm_compute in Hreq. now injection Hreq as <- _.
Defined.

(** ** What the validated handlers send *)

Lemma parse_nonempty_string (message : string) (x v : value) :
  Zod.parse_value (Zod.string_ (Some (1%nat, message))) x = Ok v ->
  exists s, v = VStr s /\ x = VStr s /\ s <> "".
Proof.
  destruct x; simpl; try discriminate.
  destruct s; simpl; [discriminate |].
  intros [= <-]. eexists. repeat split. discriminate.
Qed.

Lemma parse_optional_string (x v : value) :
  Zod.parse_value (Zod.optional_ (Zod.string_ None)) x = Ok v ->
  (x = VUndefined /\ v = VUndefined) \/ exists s, v = VStr s /\ x = VStr s.
Proof.
  destruct x; simpl; try discriminate.
  - intros [= <-]. now left.
  - intros [= <-]. right. eauto.
Qed.

Lemma each_strings (items parsed : list value) :
  each (Zod.parse_value (Zod.string_ None)) items = Ok parsed ->
  exists ids, parsed = map VStr ids.
Proof.
  revert parsed. induction items as [| x rest IH]; intros parsed; simpl.
  - intros [= <-]. now exists [].
  - destruct x; try discriminate.
    destruct (each _ rest) as [ys | e]; [| discriminate].
    intros [= <-]. destruct (IH _ eq_refl) as [ids ->].
    now exists (s :: ids).
Qed.

Lemma parse_optional_strings (x v : value) :
  Zod.parse_value (Zod.optional_ (Zod.array_ (Zod.string_ None) None)) x
  = Ok v ->
  (x = VUndefined /\ v = VUndefined)
  \/ exists ids, v = VArr (map VStr ids) /\ x <> VUndefined.
Proof.
  destruct x; try (simpl; discriminate).
  - intros [= <-]. now left.
  - change (Zod.parse_value
              (Zod.optional_ (Zod.array_ (Zod.string_ None) None)) (VArr elems))
      with (Zod.parse_value (Zod.array_ (Zod.string_ None) None) (VArr elems)).
    rewrite parse_array_unfold.
    destruct (each _ elems) as [parsed | e] eqn:Heach; [| discriminate].
    simpl. intros [= <-]. right.
    destruct (each_strings _ _ Heach) as [ids ->]. now exists ids.
Qed.

Lemma createAlbum_keys : NoDup (fst <$> Zod.CreateAlbumInputSchema).
Proof. compute_done. Qed.

Section SentByValidatedHandlers.
Context {E : Type} `{!Platform E}.

(** X21.  [createAlbum] either rejects its arguments before anything happens
    or posts a well-formed body: a non-empty [albumName], a [description]
    that is a string (empty when the caller gave none) and an [assetIds]
    array of strings (empty when the caller gave none). *)
Theorem createAlbum_body_well_formed (args : value) (w : World E) :
  (exists msg, AlbumsHandlers.createAlbum args w = (Throw (ZodError msg), w))
  \/ (exists name description ids,
        name <> ""
        /\ AlbumsHandlers.createAlbum args w
           = Client.post "/api/albums"
               (VObj [ ("albumName", VStr name);
                       ("description", VStr description);
                       ("assetIds", VArr (map VStr ids)) ]) w
        /\ (get_opt args "description" = VUndefined -> description = "")
        /\ (get_opt args "assetIds" = VUndefined -> ids = [])).
Proof.
  unfold AlbumsHandlers.createAlbum. unfold bind, lift.
  destruct (Zod.parse Zod.CreateAlbumInputSchema args) as [input | x] eqn:Hparse.
  - right. revert Hparse. unfold Zod.parse. destruct args; try discriminate.
    destruct (Zod.parse_fields _ props) as [out | e] eqn:Hfields; [| discriminate].
    intros [= <-]. cbn [get_opt].
    pose proof (parse_fields_lookup _ _ _ createAlbum_keys Hfields
                  "albumName" _ ltac:(field_declared)) as Hname.
    pose proof (parse_fields_lookup _ _ _ createAlbum_keys Hfields
                  "description" _ ltac:(field_declared)) as Hdesc.
    pose proof (parse_fields_lookup _ _ _ createAlbum_keys Hfields
                  "assetIds" _ ltac:(field_declared)) as Hids.
    apply parse_nonempty_string in Hname as (name & -> & _ & Hne).
    apply parse_optional_string in Hdesc as [[Hd ->] | (d & -> & Hd)];
      apply parse_optional_strings in Hids as [[Hi ->] | (ids & -> & Hi)].
    + exists name, "", []. repeat split; auto.
    + exists name, "", ids. split; [exact Hne |]. split; [reflexivity |].
      split; [reflexivity |]. intros Hu. now destruct Hi.
    + exists name, d, []. split; [exact Hne |]. split.
      * unfold Js.or. simpl. now destruct (String.eqb_spec d "") as [-> |].
      * split; [| reflexivity]. intros Hu. rewrite Hu in Hd. discriminate.
    + exists name, d, ids. split; [exact Hne |]. split.
      * unfold Js.or. simpl. now destruct (String.eqb_spec d "") as [-> |].
      * split; intros Hu; [rewrite Hu in Hd; discriminate | now destruct Hi].
  - left. destruct (parse_throws _ _ _ Hparse) as [msg ->]. eauto.
Qed.

(** A handler that parses first and whose continuation, for the parsed
    identifier, is one request followed by pure reshaping. *)
Lemma id_addressed {A} (sh : Zod.shape) (key message : string) (args : value)
    (k : value -> M E A) (w : World E) (req : Request) (P : string -> Prop) :
  trace (snd (bind (lift (Zod.parse sh args)) k w)) = trace w ++ [req] ->
  NoDup (fst <$> sh) ->
  (key, Zod.string_ (Some (1%nat, message))) ∈ sh ->
  (forall input id,
     get_opt input key = VStr id -> id <> "" ->
     trace (snd (k input w)) = trace w ++ [req] -> P id) ->
  exists id, id <> "" /\ get_opt args key = VStr id /\ P id.
Proof.
  intros Htrace Hnodup Hkey Hk. revert Htrace. unfold bind, lift.
  destruct (Zod.parse sh args) as [input | x] eqn:Hparse.
  - intros Htrace. revert Hparse. unfold Zod.parse.
    destruct args; try discriminate.
    destruct (Zod.parse_fields sh props) as [out | e] eqn:Hfields;
      [| discriminate].
    intros [= <-].
    pose proof (parse_fields_lookup _ _ _ Hnodup Hfields _ _ Hkey) as Hid.
    apply parse_nonempty_string in Hid as (id & Hout & Hin & Hne).
    exists id. split; [exact Hne |]. split; [exact Hin |].
    now apply (Hk (VObj out) id).
  - simpl. intros Htrace. exfalso.
    apply (f_equal (@length Request)) in Htrace.
    rewrite length_app in Htrace. simpl in Htrace. lia.
Qed.

(** The single request of [send], read off the trace. *)
Lemma sent_request {A} (m : Method) (endpoint : string) (d : value)
    (post : value -> M E A) (w : World E) (req : Request) :
  (forall v, pure (post v)) ->
  trace (snd (bind (Client.send m endpoint d) post w)) = trace w ++ [req] ->
  req = {| req_method := m; req_url := endpoint;
           req_params := VUndefined; req_body := JsonBody d |}.
Proof.
  intros Hpost. unfold bind, Client.send.
  match goal with
  | |- context [Client.request ?r w] =>
      destruct (request_sent r w) as (res & e' & ->)
  end.
  destruct res as [v | x]; [rewrite Hpost |]; simpl;
    intros Htrace; apply app_inj_tail in Htrace as [_ Heq]; congruence.
Qed.

Lemma sent_request_bare (m : Method) (endpoint : string) (d : value)
    (w : World E) (req : Request) :
  trace (snd (Client.send m endpoint d w)) = trace w ++ [req] ->
  req = {| req_method := m; req_url := endpoint;
           req_params := VUndefined; req_body := JsonBody d |}.
Proof.
  unfold Client.send.
  match goal with
  | |- context [Client.request ?r w] =>
      destruct (request_sent r w) as (res & e' & ->)
  end.
  simpl. intros Htrace. apply app_inj_tail in Htrace as [_ Heq]. congruence.
Qed.

(** X22.  A mutation never goes out for an empty identifier: whenever
    [updateAlbum], [deleteAlbum], [addAssetsToAlbum], [removeAssetsFromAlbum],
    [updateAsset] or [deleteAsset] makes a request, the caller supplied a
    non-empty string as the identifier and the request is the handler's verb
    on exactly that album's or asset's path. *)
Theorem mutations_address_a_nonempty_id (args : value) (w : World E)
    (req : Request) :
  let addressed (key : string) (run : M E value) (m : Method)
        (path : string -> string) : Prop :=
    trace (snd (run w)) = trace w ++ [req] ->
    exists id,
      id <> "" /\ get_opt args key = VStr id
      /\ req_method req = m /\ req_url req = path id in
  addressed "albumId" (AlbumsHandlers.updateAlbum args) PATCH
    (fun id => "/api/albums/" +:+ id)
  /\ addressed "albumId" (AlbumsHandlers.deleteAlbum args) DELETE
       (fun id => "/api/albums/" +:+ id)
  /\ addressed "albumId" (AlbumsHandlers.addAssetsToAlbum args) PUT
       (fun id => "/api/albums/" +:+ id +:+ "/assets")
  /\ addressed "albumId" (AlbumsHandlers.removeAssetsFromAlbum args) DELETE
       (fun id => "/api/albums/" +:+ id +:+ "/assets")
  /\ addressed "assetId" (AssetsHandlers.updateAsset args) PUT
       (fun id => "/api/assets/" +:+ id)
  /\ addressed "assetId" (AssetsHandlers.deleteAsset args) DELETE
       (fun id => "/api/assets/" +:+ id).
Proof.
  intros addressed. subst addressed. cbv beta.
  repeat apply conj; intros Htrace.
  - refine (id_addressed Zod.UpdateAlbumInputSchema "albumId" _ args _ w req
             (fun id => req_method req = PATCH
                        /\ req_url req = "/api/albums/" +:+ id) Htrace _ _ _);
      [compute_done | field_declared |].
    intros input id Hid _ Hsent. rewrite Hid in Hsent.
    apply sent_request_bare in Hsent. now subst req.
  - refine (id_addressed Zod.DeleteAlbumInputSchema "albumId" _ args _ w req
             (fun id => req_method req = DELETE
                        /\ req_url req = "/api/albums/" +:+ id) Htrace _ _ _);
      [compute_done | field_declared |].
    intros input id Hid _ Hsent. rewrite Hid in Hsent.
    apply sent_request in Hsent; [now subst req | intros v; apply pure_ret].
  - refine (id_addressed Zod.AddAssetsToAlbumInputSchema "albumId" _ args _ w req
             (fun id => req_method req = PUT
                        /\ req_url req = "/api/albums/" +:+ id +:+ "/assets")
             Htrace _ _ _);
      [compute_done | field_declared |].
    intros input id Hid _ Hsent. rewrite Hid in Hsent.
    apply sent_request_bare in Hsent. now subst req.
  - refine (id_addressed Zod.AddAssetsToAlbumInputSchema "albumId" _ args _ w req
             (fun id => req_method req = DELETE
                        /\ req_url req = "/api/albums/" +:+ id +:+ "/assets")
             Htrace _ _ _);
      [compute_done | field_declared |].
    intros input id Hid _ Hsent. rewrite Hid in Hsent.
    apply sent_request_bare in Hsent. now subst req.
  - refine (id_addressed Zod.UpdateAssetInputSchema "assetId" _ args _ w req
             (fun id => req_method req = PUT
                        /\ req_url req = "/api/assets/" +:+ id) Htrace _ _ _);
      [compute_done | field_declared |].
    intros input id Hid _ Hsent. rewrite Hid in Hsent.
    apply sent_request_bare in Hsent. now subst req.
  - refine (id_addressed Zod.DeleteAssetInputSchema "assetId" _ args _ w req
             (fun id => req_method req = DELETE
                        /\ req_url req = "/api/assets/" +:+ id) Htrace _ _ _);
      [compute_done | field_declared |].
    intros input id Hid _ Hsent. rewrite Hid in Hsent.
    apply sent_request in Hsent; [now subst req | intros v; apply pure_ret].
Qed.

End SentByValidatedHandlers.

Lemma mutations_address_a_nonempty_id_witness :
  exists id,
    id <> ""
    /\ get_opt (VObj [("albumId", VStr "album-1")]) "albumId" = VStr id
    /\ req_method (request_of DELETE "/api/albums/album-1" VUndefined) = DELETE
    /\ req_url (request_of DELETE "/api/albums/album-1" VUndefined)
       = "/api/albums/" +:+ id.
Proof.
  destruct (mutations_address_a_nonempty_id (E := Sim.Env)
              (VObj [("albumId", VStr "album-1")]) (Sim.boot [] accepting)
              (request_of DELETE "/api/albums/album-1" VUndefined))
    as (_ & Hdelete & _).
  apply Hdelete. vm_compute. reflexivity.
Defined.
